(** * The from-scratch Transformer of
      resources/transformer_and_attention_mechanism/attention_mechanism_and_transformer.ipynb

    A shallow embedding of the notebook's forward computational graph.

    - Scalars are the real numbers: rounding, infinities and NaN of the
      float32 arithmetic are outside the model, so "within floating
      tolerance" reads as exact equality here.  A quotient whose divisor
      is 0 is an infinity or NaN in the code and has no counterpart
      here: the statements about the entries of [t / s] assume that [s]
      is not 0 (for the attention kernel, a feature size [dk] that is
      not 0).
    - A tensor is rank 3, as every tensor of the notebook is: three sizes
      and an indexing function.  Only the entries inside the sizes are
      meaningful; [tensor_eq] compares tensors on those.
    - The torch primitives the notebook calls ([bmm], [transpose],
      [softmax], [cat], broadcasting [+], in-place [+=], [nn.Linear],
      [nn.LayerNorm], [nn.Dropout], [nn.ReLU]) are modelled with the shape
      checks torch performs; a failed check raises [RuntimeError].
    - Tensors passed to the [forward] of the encoder, the decoder and the
      transformer are Python objects: they live in a heap and are named by
      references, because [src += ...] and [tgt += ...] update them in
      place.  The global random generator (parameter initialisation and
      dropout masks) is the second component of the state.
    - Integer arguments (sizes, head and layer counts) are natural
      numbers. *)

From Stdlib Require Import Reals Lra Lia.
From stdpp Require Import base list strings.

Open Scope R_scope.

(** ** Exceptions and the two monads *)

Inductive Error : Type :=
  | RuntimeError        (* torch shape checks *)
  | ZeroDivisionError   (* integer division by zero *)
  | IndexError          (* tuple index out of range *)
  | TypeError           (* wrong number of positional arguments *)
  | ValueError          (* dropout probability outside [0, 1] *)
  | EmptyCatError       (* torch.cat of an empty list: a RuntimeError or a
                           ValueError, depending on the release of torch *)
  | NameError.          (* a reference that names no object: never raised
                           from a state in which the arguments exist *)

Inductive result (A : Type) : Type :=
  | Ok (a : A)
  | Raise (e : Error).
Arguments Ok {A} a.
Arguments Raise {A} e.

Definition rbind {A B} (c : result A) (k : A -> result B) : result B :=
  match c with
  | Ok a => k a
  | Raise e => Raise e
  end.

Notation "'let?' x ':=' c 'in' k" := (rbind c (fun x => k))
  (at level 10, x name, c at level 100, k at level 200).

(** ** Tensors *)

Record Tensor : Type := mkTensor {
  size0 : nat;
  size1 : nat;
  size2 : nat;
  item : nat -> nat -> nat -> R
}.

Definition shape (t : Tensor) : nat * nat * nat := (size0 t, size1 t, size2 t).

Definition tensor_eq (a b : Tensor) : Prop :=
  shape a = shape b /\
  forall i j k, (i < size0 a)%nat -> (j < size1 a)%nat -> (k < size2 a)%nat ->
    item a i j k = item b i j k.

(** Sum of [f 0 .. f (n-1)]. *)
Fixpoint rsum (n : nat) (f : nat -> R) : R :=
  match n with
  | O => 0
  | S m => rsum m f + f m
  end.

Definition zeros (b l d : nat) : Tensor := mkTensor b l d (fun _ _ _ => 0).

(** [t.transpose(1, 2)] *)
Definition transpose12 (t : Tensor) : Tensor :=
  mkTensor (size0 t) (size2 t) (size1 t) (fun i j k => item t i k j).

(** [a.bmm(b)]: batch sizes agree and the inner sizes agree. *)
Definition bmm (a b : Tensor) : result Tensor :=
  if (size0 a =? size0 b)%nat && (size2 a =? size1 b)%nat
  then Ok (mkTensor (size0 a) (size1 a) (size2 b)
             (fun i j k => rsum (size2 a) (fun m => item a i j m * item b i m k)))
  else Raise RuntimeError.

(** [t / s] for a Python float [s] that is not 0.  (For [s = 0] the code
    produces infinities and NaN, which are outside the model; no
    statement below relies on the entries of [t / 0].) *)
Definition div_scalar (t : Tensor) (s : R) : Tensor :=
  mkTensor (size0 t) (size1 t) (size2 t) (fun i j k => item t i j k / s).

(** [softmax(t, dim=-1)] *)
Definition softmax (t : Tensor) : Tensor :=
  mkTensor (size0 t) (size1 t) (size2 t)
    (fun i j k => exp (item t i j k) / rsum (size2 t) (fun c => exp (item t i j c))).

(** [torch.cat(ts, dim=-1)]: a non-empty list whose tensors agree on the
    first two sizes.  An empty list is refused with an exception whose
    class is not the same in every release of torch. *)
Fixpoint cat (ts : list Tensor) : result Tensor :=
  match ts with
  | [] => Raise EmptyCatError
  | [t] => Ok t
  | t :: rest =>
      let? r := cat rest in
      if (size0 t =? size0 r)%nat && (size1 t =? size1 r)%nat
      then Ok (mkTensor (size0 t) (size1 t) (size2 t + size2 r)
                 (fun i j k => if (k <? size2 t)%nat then item t i j k
                               else item r i j (k - size2 t)))
      else Raise RuntimeError
  end.

(** Broadcasting of one dimension: equal sizes, or one of them is 1. *)
Definition broadcast_dim (m n : nat) : result nat :=
  if (m =? n)%nat then Ok m
  else if (m =? 1)%nat then Ok n
  else if (n =? 1)%nat then Ok m
  else Raise RuntimeError.

Definition bidx (m i : nat) : nat := if (m =? 1)%nat then O else i.

Definition bitem (t : Tensor) (i j k : nat) : R :=
  item t (bidx (size0 t) i) (bidx (size1 t) j) (bidx (size2 t) k).

(** [a + b] with broadcasting. *)
Definition tensor_add (a b : Tensor) : result Tensor :=
  let? d0 := broadcast_dim (size0 a) (size0 b) in
  let? d1 := broadcast_dim (size1 a) (size1 b) in
  let? d2 := broadcast_dim (size2 a) (size2 b) in
  Ok (mkTensor d0 d1 d2 (fun i j k => bitem a i j k + bitem b i j k)).

(** [nn.ReLU] *)
Definition relu (t : Tensor) : Tensor :=
  mkTensor (size0 t) (size1 t) (size2 t) (fun i j k => Rmax 0 (item t i j k)).

(** ** [position_encoding] *)

(** Floor division of floats, [x // y]. *)
Definition floor_div (x y : R) : R := IZR (Int_part (x / y)).

(** [x ** y] on floats, for the arguments the notebook raises to a
    power: a base that is not negative.  (A negative base is outside the
    model and is given the value 0.) *)
Definition tpow (x y : R) : R :=
  if Req_dec_T y 0 then 1
  else if Rlt_dec 0 x then Rpower x y
  else 0.

(** [pos] has shape (1, seq_len, 1) and [dim] has shape (1, 1, dim_model);
    [phase] and the result are their broadcast, of shape
    (1, seq_len, dim_model).  The entry at position [p] and channel [c]:
    [pos] is [p], [dim] is [c]. *)
Definition phase (dim_model : nat) (p c : nat) : R :=
  tpow (INR p / 1e4) (floor_div (INR c) (INR dim_model)).

Definition position_encoding (seq_len dim_model : nat) : Tensor :=
  mkTensor 1 seq_len dim_model
    (fun _ p c => if Nat.even c then sin (phase dim_model p c)
                  else cos (phase dim_model p c)).

(** ** The state: heap of tensor objects and the global generator *)

(** [rng st n] is the [n]-th block of numbers the generator will hand
    out; every draw consumes one block. *)
Record State : Type := mkState {
  heap : list Tensor;
  rng : nat -> nat -> nat -> nat -> R
}.

Definition M (A : Type) : Type := State -> result A * State.

Definition ret {A} (a : A) : M A := fun st => (Ok a, st).

Definition raise {A} (e : Error) : M A := fun st => (Raise e, st).

Definition bind {A B} (c : M A) (k : A -> M B) : M B :=
  fun st =>
    match c st with
    | (Ok a, st') => k a st'
    | (Raise e, st') => (Raise e, st')
    end.

Notation "'let!' x ':=' c 'in' k" := (bind c (fun x => k))
  (at level 10, x name, c at level 100, k at level 200).

Definition lift {A} (r : result A) : M A := fun st => (r, st).

Definition draw : M (nat -> nat -> nat -> R) :=
  fun st => (Ok (rng st O), mkState (heap st) (fun n => rng st (S n))).

Definition load (r : nat) : M Tensor :=
  fun st =>
    match heap st !! r with
    | Some t => (Ok t, st)
    | None => (Raise NameError, st)
    end.

Definition alloc (t : Tensor) : M nat :=
  fun st => (Ok (length (heap st)), mkState (heap st ++ [t]) (rng st)).

Definition store (r : nat) (t : Tensor) : M unit :=
  fun st => (Ok tt, mkState (<[r := t]> (heap st)) (rng st)).

Definition shape_eqb (s1 s2 : nat * nat * nat) : bool :=
  match s1, s2 with
  | (a0, a1, a2), (b0, b1, b2) => (a0 =? b0)%nat && (a1 =? b1)%nat && (a2 =? b2)%nat
  end.

(** [a += b] on the object named [r]: the broadcast sum has to have the
    shape of [a], and replaces its contents. *)
Definition iadd (r : nat) (b : Tensor) : M unit :=
  let! a := load r in
  let! s := lift (tensor_add a b) in
  if shape_eqb (shape s) (shape a) then store r s else raise RuntimeError.

Fixpoint replicateM {A} (n : nat) (c : M A) : M (list A) :=
  match n with
  | O => ret []
  | S m => let! x := c in let! xs := replicateM m c in ret (x :: xs)
  end.

Fixpoint mapR {A B} (f : A -> result B) (l : list A) : result (list B) :=
  match l with
  | [] => Ok []
  | a :: rest => let? b := f a in let? bs := mapR f rest in Ok (b :: bs)
  end.

(** Python's [a // b] on non-negative integers. *)
Definition floordiv (a b : nat) : result nat :=
  match b with
  | O => Raise ZeroDivisionError
  | S _ => Ok (a / b)%nat
  end.

(** [tensors[-1]] *)
Definition last_arg (tensors : list Tensor) : result Tensor :=
  match last tensors with
  | Some t => Ok t
  | None => Raise IndexError
  end.

(** ** The torch modules the notebook instantiates *)

Module Linear.
(** [nn.Linear(in_features, out_features)]: [weight] has shape
    (out_features, in_features). *)
Record t : Type := mk {
  in_features : nat;
  out_features : nat;
  weight : nat -> nat -> R;
  bias : nat -> R
}.

(** The weight and then the bias are filled from the generator. *)
Definition __init__ (in_features out_features : nat) : M t :=
  let! w := draw in
  let! b := draw in
  ret (mk in_features out_features (fun o c => w O o c) (fun o => b O O o)).

Definition forward (l : t) (x : Tensor) : result Tensor :=
  if (size2 x =? in_features l)%nat
  then Ok (mkTensor (size0 x) (size1 x) (out_features l)
             (fun i j o =>
                rsum (in_features l) (fun c => item x i j c * weight l o c) + bias l o))
  else Raise RuntimeError.
End Linear.

Module LayerNorm.
Record t : Type := mk {
  normalized_shape : nat;
  weight : nat -> R;
  bias : nat -> R;
  eps : R
}.

Definition __init__ (normalized_shape : nat) : M t :=
  ret (mk normalized_shape (fun _ => 1) (fun _ => 0) 1e-5).

Definition mean (d : nat) (f : nat -> R) : R := rsum d f / INR d.

(** The biased variance. *)
Definition var (d : nat) (f : nat -> R) : R :=
  rsum d (fun c => (f c - mean d f) ^ 2) / INR d.

Definition forward (n : t) (x : Tensor) : result Tensor :=
  if (size2 x =? normalized_shape n)%nat
  then Ok (mkTensor (size0 x) (size1 x) (size2 x)
             (fun i j c =>
                (item x i j c - mean (size2 x) (item x i j))
                / sqrt (var (size2 x) (item x i j) + eps n)
                * weight n c + bias n c))
  else Raise RuntimeError.
End LayerNorm.

Module Dropout.
Record t : Type := mk {
  p : R;
  training : bool
}.

Definition __init__ (p : R) : M t :=
  if Rlt_dec p 0 then raise ValueError
  else if Rlt_dec 1 p then raise ValueError
  else ret (mk p true).

(** In training mode an entry is zeroed when its number from the
    generator is below [p], and scaled by [1 / (1 - p)] otherwise; in
    evaluation mode the input is returned as it is. *)
Definition forward (d : t) (x : Tensor) : M Tensor :=
  if training d
  then let! u := draw in
       ret (mkTensor (size0 x) (size1 x) (size2 x)
              (fun i j k => if Rlt_dec (u i j k) (p d) then 0
                            else item x i j k / (1 - p d)))
  else ret x.

Definition eval (d : t) : t := mk (p d) false.
End Dropout.

(** A module that [Residual] can wrap: it is called on the tuple of
    positional arguments. *)
Class Callable (S : Type) : Type := {
  call : S -> list Tensor -> result Tensor
}.

(** ** The notebook *)

Definition scaled_dot_product_attention (query key value : Tensor) : result Tensor :=
  let? temp := bmm query (transpose12 key) in
  let scale := sqrt (INR (size2 query)) in
  let softmax_ := softmax (div_scalar temp scale) in
  bmm softmax_ value.

Module AttentionHead.
Record t : Type := mk {
  q : Linear.t;
  k : Linear.t;
  v : Linear.t
}.

Definition __init__ (dim_in dim_k dim_v : nat) : M t :=
  let! q := Linear.__init__ dim_in dim_k in
  let! k := Linear.__init__ dim_in dim_k in
  let! v := Linear.__init__ dim_in dim_v in
  ret (mk q k v).

Definition forward (h : t) (query key value : Tensor) : result Tensor :=
  let? q' := Linear.forward (q h) query in
  let? k' := Linear.forward (k h) key in
  let? v' := Linear.forward (v h) value in
  scaled_dot_product_attention q' k' v'.
End AttentionHead.

Module MultiHeadAttention.
Record t : Type := mk {
  heads : list AttentionHead.t;
  linear : Linear.t
}.

Definition __init__ (num_heads dim_in dim_k dim_v : nat) : M t :=
  let! heads := replicateM num_heads (AttentionHead.__init__ dim_in dim_k dim_v) in
  let! linear := Linear.__init__ (num_heads * dim_v) dim_in in
  ret (mk heads linear).

Definition forward (m : t) (query key value : Tensor) : result Tensor :=
  let? outs := mapR (fun h => AttentionHead.forward h query key value) (heads m) in
  let? c := cat outs in
  Linear.forward (linear m) c.
End MultiHeadAttention.

#[export] Instance MultiHeadAttention_callable : Callable MultiHeadAttention.t := {
  call m tensors :=
    match tensors with
    | [query; key; value] => MultiHeadAttention.forward m query key value
    | _ => Raise TypeError
    end
}.

(** [feed_forward] returns an [nn.Sequential] of a linear layer, a ReLU
    and a linear layer. *)
Module Sequential.
Record t : Type := mk {
  fc1 : Linear.t;
  fc2 : Linear.t
}.

Definition forward (f : t) (x : Tensor) : result Tensor :=
  let? h := Linear.forward (fc1 f) x in
  Linear.forward (fc2 f) (relu h).
End Sequential.

Definition feed_forward (dim_input dim_feedforward : nat) : M Sequential.t :=
  let! fc1 := Linear.__init__ dim_input dim_feedforward in
  let! fc2 := Linear.__init__ dim_feedforward dim_input in
  ret (Sequential.mk fc1 fc2).

#[export] Instance Sequential_callable : Callable Sequential.t := {
  call f tensors :=
    match tensors with
    | [x] => Sequential.forward f x
    | _ => Raise TypeError
    end
}.

Module Residual.
Record t (S : Type) : Type := mk {
  sublayer : S;
  norm : LayerNorm.t;
  dropout : Dropout.t
}.
Arguments mk {S} _ _ _.
Arguments sublayer {S} _.
Arguments norm {S} _.
Arguments dropout {S} _.

Definition __init__ {S} (sublayer : S) (dimension : nat) (dropout : R) : M (t S) :=
  let! norm := LayerNorm.__init__ dimension in
  let! dropout := Dropout.__init__ dropout in
  ret (mk sublayer norm dropout).

(** [self.norm(tensors[-1] + self.dropout(self.sublayer( *tensors)))] *)
Definition forward {S} `{Callable S} (r : t S) (tensors : list Tensor) : M Tensor :=
  let! base := lift (last_arg tensors) in
  let! out := lift (call (sublayer r) tensors) in
  let! dropped := Dropout.forward (dropout r) out in
  let! sum := lift (tensor_add base dropped) in
  lift (LayerNorm.forward (norm r) sum).

Definition eval {S} (r : t S) : t S :=
  mk (sublayer r) (norm r) (Dropout.eval (dropout r)).
End Residual.

Module TransformerEncoderLayer.
(* the function [feed_forward], which the attribute of the same name hides *)
Local Abbreviation feed_forward_fn := feed_forward (only parsing).

Record t : Type := mk {
  attention : Residual.t MultiHeadAttention.t;
  feed_forward : Residual.t Sequential.t
}.

Definition __init__ (dim_model num_heads dim_feedforward : nat) (dropout : R) : M t :=
  let! dim_k := lift (floordiv dim_model num_heads) in
  let dim_v := dim_k in
  let! mha := MultiHeadAttention.__init__ num_heads dim_model dim_k dim_v in
  let! attention := Residual.__init__ mha dim_model dropout in
  let! ff := feed_forward_fn dim_model dim_feedforward in
  let! feed_forward := Residual.__init__ ff dim_model dropout in
  ret (mk attention feed_forward).

Definition forward (l : t) (src : Tensor) : M Tensor :=
  let! src := Residual.forward (attention l) [src; src; src] in
  Residual.forward (feed_forward l) [src].

Definition eval (l : t) : t :=
  mk (Residual.eval (attention l)) (Residual.eval (feed_forward l)).
End TransformerEncoderLayer.

Module TransformerEncoder.
Record t : Type := mk {
  layers : list TransformerEncoderLayer.t
}.

Definition __init__ (num_layers dim_model num_heads dim_feedforward : nat)
    (dropout : R) : M t :=
  let! layers :=
    replicateM num_layers
      (TransformerEncoderLayer.__init__ dim_model num_heads dim_feedforward dropout) in
  ret (mk layers).

(** [for layer in self.layers: src = layer(src)]: the name [src] is
    bound to the new tensor object each layer returns. *)
Fixpoint loop (layers : list TransformerEncoderLayer.t) (src : nat) : M nat :=
  match layers with
  | [] => ret src
  | layer :: rest =>
      let! x := load src in
      let! y := TransformerEncoderLayer.forward layer x in
      let! src := alloc y in
      loop rest src
  end.

Definition forward (e : t) (src : nat) : M nat :=
  let! x := load src in
  let seq_len := size1 x in
  let dimension := size2 x in
  let! _ := iadd src (position_encoding seq_len dimension) in
  loop (layers e) src.

Definition eval (e : t) : t := mk (map TransformerEncoderLayer.eval (layers e)).
End TransformerEncoder.

Module TransformerDecoderLayer.
(* the function [feed_forward], which the attribute of the same name hides *)
Local Abbreviation feed_forward_fn := feed_forward (only parsing).

Record t : Type := mk {
  attention_1 : Residual.t MultiHeadAttention.t;
  attention_2 : Residual.t MultiHeadAttention.t;
  feed_forward : Residual.t Sequential.t
}.

Definition __init__ (dim_model num_heads dim_feedforward : nat) (dropout : R) : M t :=
  let! dim_k := lift (floordiv dim_model num_heads) in
  let dim_v := dim_k in
  let! mha1 := MultiHeadAttention.__init__ num_heads dim_model dim_k dim_v in
  let! attention_1 := Residual.__init__ mha1 dim_model dropout in
  let! mha2 := MultiHeadAttention.__init__ num_heads dim_model dim_k dim_v in
  let! attention_2 := Residual.__init__ mha2 dim_model dropout in
  let! ff := feed_forward_fn dim_model dim_feedforward in
  let! feed_forward := Residual.__init__ ff dim_model dropout in
  ret (mk attention_1 attention_2 feed_forward).

Definition forward (l : t) (tgt memory : Tensor) : M Tensor :=
  let! tgt := Residual.forward (attention_1 l) [tgt; tgt; tgt] in
  let! tgt := Residual.forward (attention_2 l) [memory; memory; tgt] in
  Residual.forward (feed_forward l) [tgt].

Definition eval (l : t) : t :=
  mk (Residual.eval (attention_1 l)) (Residual.eval (attention_2 l))
     (Residual.eval (feed_forward l)).
End TransformerDecoderLayer.

Module TransformerDecoder.
Record t : Type := mk {
  layers : list TransformerDecoderLayer.t;
  linear : Linear.t
}.

Definition __init__ (num_layers dim_model num_heads dim_feedforward : nat)
    (dropout : R) : M t :=
  let! layers :=
    replicateM num_layers
      (TransformerDecoderLayer.__init__ dim_model num_heads dim_feedforward dropout) in
  let! linear := Linear.__init__ dim_model dim_model in
  ret (mk layers linear).

Fixpoint loop (layers : list TransformerDecoderLayer.t) (tgt memory : nat) : M nat :=
  match layers with
  | [] => ret tgt
  | layer :: rest =>
      let! x := load tgt in
      let! m := load memory in
      let! y := TransformerDecoderLayer.forward layer x m in
      let! tgt := alloc y in
      loop rest tgt memory
  end.

Definition forward (d : t) (tgt memory : nat) : M nat :=
  let! x := load tgt in
  let seq_len := size1 x in
  let dimension := size2 x in
  let! _ := iadd tgt (position_encoding seq_len dimension) in
  let! tgt := loop (layers d) tgt memory in
  let! x := load tgt in
  let! y := lift (Linear.forward (linear d) x) in
  alloc (softmax y).

Definition eval (d : t) : t :=
  mk (map TransformerDecoderLayer.eval (layers d)) (linear d).
End TransformerDecoder.

Module Transformer.
Record t : Type := mk {
  encoder : TransformerEncoder.t;
  decoder : TransformerDecoder.t
}.

(** The [activation] argument of the constructor is not used by it. *)
Definition __init__ (num_encoder_layers num_decoder_layers dim_model num_heads
    dim_feedforward : nat) (dropout : R) : M t :=
  let! encoder :=
    TransformerEncoder.__init__ num_encoder_layers dim_model num_heads
      dim_feedforward dropout in
  let! decoder :=
    TransformerDecoder.__init__ num_decoder_layers dim_model num_heads
      dim_feedforward dropout in
  ret (mk encoder decoder).

Definition forward (m : t) (src tgt : nat) : M nat :=
  let! memory := TransformerEncoder.forward (encoder m) src in
  TransformerDecoder.forward (decoder m) tgt memory.

Definition eval (m : t) : t :=
  mk (TransformerEncoder.eval (encoder m)) (TransformerDecoder.eval (decoder m)).
End Transformer.

(** ** The positional encoding as the specification words it *)

(** Entry at position [pos] and channel [i]: the sine (even [i]) or the
    cosine (odd [i]) of [pos / 10000^(2*floor(i/2)/dim_model)]. *)
Definition position_encoding_spec (seq_len dim_model : nat) : Tensor :=
  mkTensor 1 seq_len dim_model
    (fun _ pos i =>
       let arg := INR pos / Rpower 10000 (2 * INR (i / 2) / INR dim_model) in
       if Nat.even i then sin arg else cos arg).

(** ** Invariants the constructors establish *)

Definition wf_linear (i o : nat) (l : Linear.t) : Prop :=
  Linear.in_features l = i /\ Linear.out_features l = o.

Definition wf_head (D dk dv : nat) (h : AttentionHead.t) : Prop :=
  wf_linear D dk (AttentionHead.q h) /\
  wf_linear D dk (AttentionHead.k h) /\
  wf_linear D dv (AttentionHead.v h).

Definition wf_mha (D : nat) (m : MultiHeadAttention.t) : Prop :=
  exists dk dv,
    MultiHeadAttention.heads m <> [] /\
    Forall (wf_head D dk dv) (MultiHeadAttention.heads m) /\
    wf_linear (length (MultiHeadAttention.heads m) * dv) D (MultiHeadAttention.linear m).

Definition wf_ff (D : nat) (f : Sequential.t) : Prop :=
  exists F, wf_linear D F (Sequential.fc1 f) /\ wf_linear F D (Sequential.fc2 f).

Definition wf_residual {S} (wfS : nat -> S -> Prop) (D : nat) (r : Residual.t S) : Prop :=
  wfS D (Residual.sublayer r) /\
  LayerNorm.normalized_shape (Residual.norm r) = D.

Definition wf_encoder_layer (D : nat) (l : TransformerEncoderLayer.t) : Prop :=
  wf_residual wf_mha D (TransformerEncoderLayer.attention l) /\
  wf_residual wf_ff D (TransformerEncoderLayer.feed_forward l).

Definition wf_decoder_layer (D : nat) (l : TransformerDecoderLayer.t) : Prop :=
  wf_residual wf_mha D (TransformerDecoderLayer.attention_1 l) /\
  wf_residual wf_mha D (TransformerDecoderLayer.attention_2 l) /\
  wf_residual wf_ff D (TransformerDecoderLayer.feed_forward l).

Definition wf_encoder (D : nat) (e : TransformerEncoder.t) : Prop :=
  Forall (wf_encoder_layer D) (TransformerEncoder.layers e).

Definition wf_decoder (D : nat) (d : TransformerDecoder.t) : Prop :=
  Forall (wf_decoder_layer D) (TransformerDecoder.layers d) /\
  wf_linear D D (TransformerDecoder.linear d).

Definition wf_transformer (D : nat) (m : Transformer.t) : Prop :=
  wf_encoder D (Transformer.encoder m) /\ wf_decoder D (Transformer.decoder m).

(** What a constructor called with [num_heads] and [dim_model] builds:
    that many heads, each projecting to [dim_k] and [dim_v]. *)
Definition mha_dims (num_heads D dk dv : nat) (m : MultiHeadAttention.t) : Prop :=
  length (MultiHeadAttention.heads m) = num_heads /\
  Forall (wf_head D dk dv) (MultiHeadAttention.heads m) /\
  wf_linear (num_heads * dv) D (MultiHeadAttention.linear m).

Definition encoder_layer_dims (num_heads D dk dv : nat)
    (l : TransformerEncoderLayer.t) : Prop :=
  mha_dims num_heads D dk dv (Residual.sublayer (TransformerEncoderLayer.attention l)).

Definition decoder_layer_dims (num_heads D dk dv : nat)
    (l : TransformerDecoderLayer.t) : Prop :=
  mha_dims num_heads D dk dv (Residual.sublayer (TransformerDecoderLayer.attention_1 l)) /\
  mha_dims num_heads D dk dv (Residual.sublayer (TransformerDecoderLayer.attention_2 l)).

(** The contents of a tensor object after [+= position_encoding(...)]. *)
Definition with_position_encoding (x : Tensor) : Tensor :=
  mkTensor (size0 x) (size1 x) (size2 x)
    (fun i j k => bitem x i j k + bitem (position_encoding (size1 x) (size2 x)) i j k).

(** A state with no tensor object, whose generator hands out zeros. *)
Definition st_empty : State := mkState [] (fun _ _ _ _ => 0).

(** ** Observing a computation *)

(** What a forward pass hands to its caller: the tensor the returned
    reference names, or the exception. *)
Definition outcome (p : result nat * State) : result Tensor :=
  match fst p with
  | Ok r =>
      match heap (snd p) !! r with
      | Some y => Ok y
      | None => Raise NameError
      end
  | Raise e => Raise e
  end.

(** A computation that neither reads nor changes the state. *)
Definition pure_comp {A} (c : M A) : Prop :=
  exists r : result A, forall st, c st = (r, st).

(** A computation whose result and whose use of the generator depend on
    the generator only. *)
Definition rng_only {A} (c : M A) : Prop :=
  forall st1 st2, rng st1 = rng st2 ->
    fst (c st1) = fst (c st2) /\ rng (snd (c st1)) = rng (snd (c st2)).

(** A sublayer that returns zeros of the shape of its last argument. *)
Definition zero_sublayer : Callable unit := {|
  call _ tensors :=
    let? base := last_arg tensors in
    Ok (zeros (size0 base) (size1 base) (size2 base))
|}.

(** ** The decoder layer as the specification words it *)

(** The second Residual Wrapper of the specification: the attention's
    keys and values are both the encoder memory and the residual base is
    the self-attended target.  The specification does not say what the
    attention is queried with; [query] stands for it. *)
Definition cross_attention_spec (r : Residual.t MultiHeadAttention.t)
    (query memory tgt : Tensor) : M Tensor :=
  let! out :=
    lift (MultiHeadAttention.forward (Residual.sublayer r) query memory memory) in
  let! dropped := Dropout.forward (Residual.dropout r) out in
  let! sum := lift (tensor_add tgt dropped) in
  lift (LayerNorm.forward (Residual.norm r) sum).

Definition TransformerDecoderLayer_forward_spec (l : TransformerDecoderLayer.t)
    (query tgt memory : Tensor) : M Tensor :=
  let! tgt := Residual.forward (TransformerDecoderLayer.attention_1 l) [tgt; tgt; tgt] in
  let! tgt := cross_attention_spec (TransformerDecoderLayer.attention_2 l) query memory tgt in
  Residual.forward (TransformerDecoderLayer.feed_forward l) [tgt].

(** A decoder layer in evaluation mode, of width 2 with one head per
    attention, and two inputs of shape (1, 1, 2), on which the two
    readings of the cross-attention differ. *)
Definition lin_zero (i o : nat) : Linear.t := Linear.mk i o (fun _ _ => 0) (fun _ => 0).

Definition lin_diag (a : R) : Linear.t :=
  Linear.mk 2 2 (fun o c => if (o =? c)%nat then a else 0) (fun _ => 0).

Definition ln_std : LayerNorm.t := LayerNorm.mk 2 (fun _ => 1) (fun _ => 0) 1e-5.

Definition ln_const : LayerNorm.t :=
  LayerNorm.mk 2 (fun _ => 0) (fun c => match c with O => 1 | _ => 0 end) 1e-5.

Definition drop_eval : Dropout.t := Dropout.mk 0.1 false.

Definition layer0 : TransformerDecoderLayer.t :=
  TransformerDecoderLayer.mk
    (Residual.mk
       (MultiHeadAttention.mk
          [AttentionHead.mk (lin_zero 2 1) (lin_zero 2 1) (lin_zero 2 1)] (lin_zero 1 2))
       ln_const drop_eval)
    (Residual.mk
       (MultiHeadAttention.mk
          [AttentionHead.mk (lin_zero 2 2) (lin_zero 2 2) (lin_diag 1)] (lin_diag (-1)))
       ln_std drop_eval)
    (Residual.mk (Sequential.mk (lin_zero 2 1) (lin_zero 1 2)) ln_std drop_eval).

Definition mha2 : MultiHeadAttention.t :=
  Residual.sublayer (TransformerDecoderLayer.attention_2 layer0).

Definition tgt0 : Tensor := zeros 1 1 2.

Definition memory0 : Tensor := mkTensor 1 1 2 (fun _ _ c => INR c).

(** A residual wrapper in evaluation mode around a multi-head attention
    whose projections are all zero, and a query with three positions:
    the attention returns zeros of the query's shape (1, 3, 2) for a key
    and a value of shape (1, 1, 2). *)
Definition residual0 : Residual.t MultiHeadAttention.t :=
  Residual.mk
    (MultiHeadAttention.mk
       [AttentionHead.mk (lin_zero 2 1) (lin_zero 2 1) (lin_zero 2 1)] (lin_zero 1 2))
    ln_std drop_eval.

Definition query0 : Tensor := zeros 1 3 2.

(** ** Which tensor objects a computation may change *)

(** [c] keeps every object that exists when it starts, changing at most
    the contents of those whose reference satisfies [P]. *)
Definition writes_only {A} (P : nat -> Prop) (c : M A) : Prop :=
  forall st,
    (length (heap st) <= length (heap (snd (c st))))%nat /\
    forall r, (r < length (heap st))%nat -> ~ P r ->
      heap (snd (c st)) !! r = heap st !! r.

(** * PromptGuard: scoring texts of any length
      (resources/controlling_jailbreak/control_jailbreak_using_promtguard.ipynb)

    A text is a list of characters.  The tokenizer and the pretrained
    classifier are outside the repository: [process_text_batch], which
    runs them on a batch of texts and returns one row of class
    probabilities per text, is a parameter. *)

(** [range(0, n, step)] for a step that is not 0. *)
Definition range_step (n step : nat) : list nat :=
  map (fun k => (k * step)%nat) (seq 0 ((n + step - 1) / step)).

(** [l[i:i+n]] *)
Definition slice {B} (l : list B) (i n : nat) : list B := take n (drop i l).

(** [[l[i:i+step] for i in range(0, len(l), step)]] *)
Definition slices {B} (step : nat) (l : list B) : list (list B) :=
  map (fun i => slice l i step) (range_step (length l) step).

(** [row[i]] *)
Definition index_row (row : list R) (i : nat) : result R :=
  match row !! i with
  | Some x => Ok x
  | None => Raise IndexError
  end.

(** One row of [probabilities[:, score_indices].sum(dim=1)]. *)
Definition select_sum (score_indices : list nat) (row : list R) : result R :=
  let? xs := mapR (index_row row) score_indices in
  Ok (foldr Rplus 0 xs).

(** [for idx, score in zip(batch_indices, scores):
       all_scores[idx] = max(all_scores[idx], score)] *)
Fixpoint update_scores (pairs : list (nat * R)) (all_scores : list R) : result (list R) :=
  match pairs with
  | [] => Ok all_scores
  | (idx, score) :: rest =>
      match all_scores !! idx with
      | Some a => update_scores rest (<[idx := Rmax a score]> all_scores)
      | None => Raise IndexError
      end
  end.

Section PromptGuard.
Context {A : Type}.
Variable process_text_batch : list (list A) -> R -> list (list R).

(** The first loop of [get_scores_for_texts], from text number [index]
    on: the chunks of at most 512 characters of every text, and for each
    chunk the number of its text. *)
Fixpoint collect_chunks (index : nat) (texts : list (list A))
    (all_chunks : list (list A)) (text_indices : list nat)
    : list (list A) * list nat :=
  match texts with
  | [] => (all_chunks, text_indices)
  | text :: rest =>
      let chunks := slices 512 text in
      collect_chunks (S index) rest
        (all_chunks ++ chunks) (text_indices ++ replicate (length chunks) index)
  end.

(** The second loop, over the batch starts [i]; it is entered only for
    a [max_batch_size] that is positive. *)
Fixpoint score_batches (starts : list nat) (all_chunks : list (list A))
    (text_indices : list nat) (score_indices : list nat) (temperature : R)
    (max_batch_size : nat) (all_scores : list R) : result (list R) :=
  match starts with
  | [] => Ok all_scores
  | i :: rest =>
      let batch_chunks := slice all_chunks i max_batch_size in
      let batch_indices := slice text_indices i max_batch_size in
      let probabilities := process_text_batch batch_chunks temperature in
      let? scores := mapR (select_sum score_indices) probabilities in
      let? all_scores := update_scores (zip batch_indices scores) all_scores in
      score_batches rest all_chunks text_indices score_indices temperature
        max_batch_size all_scores
  end.

(** [max_batch_size] is any Python integer: [range(0, n, max_batch_size)]
    refuses the step 0, and counts down from 0, giving no value at all,
    for a negative step. *)
Definition get_scores_for_texts (texts : list (list A)) (score_indices : list nat)
    (temperature : R) (max_batch_size : Z) : result (list R) :=
  let (all_chunks, text_indices) := collect_chunks 0 texts [] [] in
  let all_scores := replicate (length texts) 0 in
  match max_batch_size with
  | Z0 => Raise ValueError  (* range() arg 3 must not be zero *)
  | Zneg _ => Ok all_scores (* the loop body never runs *)
  | Zpos step =>
      score_batches (range_step (length all_chunks) (Pos.to_nat step))
        all_chunks text_indices score_indices temperature (Pos.to_nat step) all_scores
  end.

Definition get_jailbreak_scores_for_texts (texts : list (list A)) (temperature : R)
    (max_batch_size : Z) : result (list R) :=
  get_scores_for_texts texts [2%nat] temperature max_batch_size.

Definition get_indirect_injection_scores_for_texts (texts : list (list A))
    (temperature : R) (max_batch_size : Z) : result (list R) :=
  get_scores_for_texts texts [1%nat; 2%nat] temperature max_batch_size.
End PromptGuard.

(** The text numbers the first loop records, from text number [index]
    on: one per chunk. *)
Fixpoint chunk_indices {A} (index : nat) (texts : list (list A)) : list nat :=
  match texts with
  | [] => []
  | text :: rest =>
      replicate (length (slices 512 text)) index ++ chunk_indices (S index) rest
  end.

(** The score the second loop leaves for a text whose chunks are scored
    by [score]: the running maximum, from 0. *)
Definition text_score {A} (score : list A -> R) (text : list A) : R :=
  foldl Rmax 0 (map score (slices 512 text)).

(** * The chat templates of the TinyLlama fine-tuning
      (resources/finetune-llama/finetune-tinyllama.ipynb)

    The two f-strings, on arguments that are strings; a string is the
    sequence of the bytes of its UTF-8 encoding. *)

(** The line feed the templates write as a backslash followed by n *)
Definition nl : string := String (Ascii.ascii_of_nat 10) EmptyString.

Definition formatted_train (input response : string) : string :=
  "<|im_start|>user" +:+ nl +:+ input +:+ "<|im_end|>" +:+ nl +:+
  "<|im_start|>assistant" +:+ nl +:+ response +:+ "<|im_end|>" +:+ nl.

Definition formatted_prompt (question : string) : string :=
  "<|im_start|>user" +:+ nl +:+ question +:+ "<|im_end|>" +:+ nl +:+
  "<|im_start|>assistant:".

(** * Properties *)

(** ** Positional encoding *)

Lemma tpow_0_r (x : R) : tpow x 0 = 1.
Proof.
  unfold tpow. destruct (Req_dec_T 0 0) as [_ | Hne]; [reflexivity | contradiction].
Qed.

Lemma floor_div_small (c d : nat) : (c < d)%nat -> floor_div (INR c) (INR d) = 0.
Proof.
  intros Hlt. unfold floor_div.
  assert (Hd : 0 < INR d) by (apply lt_0_INR; lia).
  assert (Hc : 0 <= INR c) by apply pos_INR.
  assert (Hcd : INR c < INR d) by (apply lt_INR; exact Hlt).
  assert (Hq0 : 0 <= INR c / INR d).
  { apply Rmult_le_pos; [exact Hc | left; apply Rinv_0_lt_compat; exact Hd]. }
  assert (Hq1 : INR c / INR d < 1).
  { apply (Rmult_lt_reg_r (INR d)); [exact Hd |].
    unfold Rdiv. rewrite Rmult_assoc, Rinv_l by lra. lra. }
  rewrite <- (Int_part_spec (INR c / INR d) 0%Z); [reflexivity |].
  simpl. lra.
Qed.

Lemma phase_const (dim_model p c : nat) : (c < dim_model)%nat -> phase dim_model p c = 1.
Proof.
  intros Hc. unfold phase. rewrite floor_div_small by exact Hc. apply tpow_0_r.
Qed.

Lemma one_lt_PI : 1 < PI.
Proof. pose proof PI2_1. lra. Qed.

Lemma sin_1_pos : 0 < sin 1.
Proof. apply sin_gt_0; [lra | apply one_lt_PI]. Qed.

Lemma cos_1_lt_1 : cos 1 < 1.
Proof.
  pose proof one_lt_PI as Hpi.
  assert (H : cos 1 < cos 0) by (apply cos_decreasing_1; lra).
  rewrite cos_0 in H. exact H.
Qed.

(** C10: every entry of the encoding is sin(1) on the even channels and
    cos(1) on the odd ones, whatever the position: the exponent
    [dim // dim_model] is 0 on every channel, so the phase is 1. *)
Theorem C10_position_encoding_constant (seq_len dim_model : nat) :
  (1 <= seq_len)%nat -> (1 <= dim_model)%nat ->
  shape (position_encoding seq_len dim_model) = (1%nat, seq_len, dim_model) /\
  forall pos c, (pos < seq_len)%nat -> (c < dim_model)%nat ->
    phase dim_model pos c = 1 /\
    item (position_encoding seq_len dim_model) 0 pos c
      = (if Nat.even c then sin 1 else cos 1).
Proof.
  intros _ _. split; [reflexivity |].
  intros pos c _ Hc. pose proof (phase_const dim_model pos c Hc) as Hph.
  split; [exact Hph |]. simpl. rewrite Hph. reflexivity.
Qed.

Lemma C10_position_encoding_constant_witness :
  item (position_encoding 3 4) 0 2 0 = sin 1 /\
  item (position_encoding 3 4) 0 0 3 = cos 1.
Proof.
  destruct (C10_position_encoding_constant 3 4 ltac:(lia) ltac:(lia)) as [_ H].
  split.
  - exact (proj2 (H 2%nat 0%nat ltac:(lia) ltac:(lia))).
  - exact (proj2 (H 0%nat 3%nat ltac:(lia) ltac:(lia))).
Defined.

(** C2: at [seq_len = 1], [dim_model = 2] the code's row for position 0
    is [sin 1; cos 1], where the documented formula gives [0; 1]. *)
Theorem C2_position_encoding_row0 :
  item (position_encoding 1 2) 0 0 0 = sin 1 /\
  item (position_encoding 1 2) 0 0 1 = cos 1 /\
  item (position_encoding_spec 1 2) 0 0 0 = 0 /\
  item (position_encoding_spec 1 2) 0 0 1 = 1 /\
  sin 1 <> 0 /\ cos 1 <> 1.
Proof.
  repeat split.
  - simpl. rewrite phase_const by lia. reflexivity.
  - simpl. rewrite phase_const by lia. reflexivity.
  - simpl. unfold Rdiv at 1. rewrite Rmult_0_l. apply sin_0.
  - simpl. unfold Rdiv at 1. rewrite Rmult_0_l. apply cos_0.
  - pose proof sin_1_pos. lra.
  - pose proof cos_1_lt_1. lra.
Qed.

(** ** Sums, softmax and the shapes of the primitives *)

Lemma rsum_ext (n : nat) (f g : nat -> R) :
  (forall k, (k < n)%nat -> f k = g k) -> rsum n f = rsum n g.
Proof.
  induction n as [| n IH]; intros Hfg; simpl; [reflexivity |].
  rewrite IH by (intros k Hk; apply Hfg; lia).
  rewrite Hfg by lia. reflexivity.
Qed.

Lemma rsum_scal_r (n : nat) (f : nat -> R) (s : R) :
  rsum n (fun k => f k * s) = rsum n f * s.
Proof.
  induction n as [| n IH]; simpl; [ring |]. rewrite IH. ring.
Qed.

Lemma rsum_pos (n : nat) (f : nat -> R) :
  (0 < n)%nat -> (forall k, 0 < f k) -> 0 < rsum n f.
Proof.
  intros Hn Hf. destruct n as [| n]; [lia |]. clear Hn.
  induction n as [| n IH]; simpl in *.
  - specialize (Hf 0%nat). lra.
  - specialize (Hf (S n)). lra.
Qed.

Lemma softmax_row_sum (t : Tensor) (i j : nat) :
  (0 < size2 t)%nat -> rsum (size2 t) (item (softmax t) i j) = 1.
Proof.
  intros Hn. simpl. unfold Rdiv.
  rewrite (rsum_scal_r (size2 t) (fun k => exp (item t i j k))).
  apply Rinv_r.
  pose proof (rsum_pos (size2 t) (fun k => exp (item t i j k)) Hn
                (fun k => exp_pos _)) as Hpos.
  lra.
Qed.

Lemma shape_inv (t : Tensor) (a b c : nat) :
  shape t = (a, b, c) -> size0 t = a /\ size1 t = b /\ size2 t = c.
Proof. unfold shape. intros H. inversion H. auto. Qed.

Lemma bmm_ok (a b : Tensor) :
  size0 a = size0 b -> size2 a = size1 b ->
  bmm a b = Ok (mkTensor (size0 a) (size1 a) (size2 b)
                  (fun i j k => rsum (size2 a) (fun m => item a i j m * item b i m k))).
Proof.
  intros H0 H1. unfold bmm.
  rewrite (proj2 (Nat.eqb_eq _ _) H0), (proj2 (Nat.eqb_eq _ _) H1). reflexivity.
Qed.

Lemma bmm_inner_mismatch (a b : Tensor) :
  size2 a <> size1 b -> bmm a b = Raise RuntimeError.
Proof.
  intros H. unfold bmm. rewrite (proj2 (Nat.eqb_neq _ _) H).
  rewrite andb_false_r. reflexivity.
Qed.

(** ** The attention kernel *)

(** C4: on [Q : (b, Lq, dk)], [K : (b, Lk, dk)], [V : (b, Lk, dv)] the
    kernel returns a tensor of shape [(b, Lq, dv)]; for a feature size
    [dk] that is not 0 it is the batched product of the weights
    [softmax(Q.K^T / sqrt dk)] with [V]: the softmax runs along the key
    axis, and each weight row (one per query, over a key axis that is
    not empty) sums to 1. *)
Theorem C4_scaled_dot_product_attention (Q K V : Tensor) (b Lq Lk dk dv : nat) :
  shape Q = (b, Lq, dk) -> shape K = (b, Lk, dk) -> shape V = (b, Lk, dv) ->
  exists out,
    scaled_dot_product_attention Q K V = Ok out /\
    shape out = (b, Lq, dv) /\
    ((0 < dk)%nat ->
     exists scores weights,
       bmm Q (transpose12 K) = Ok scores /\
       shape scores = (b, Lq, Lk) /\
       (forall i j m, item scores i j m = rsum dk (fun c => item Q i j c * item K i m c)) /\
       weights = softmax (div_scalar scores (sqrt (INR dk))) /\
       (forall i j m, item weights i j m =
          exp (item scores i j m / sqrt (INR dk))
          / rsum Lk (fun m' => exp (item scores i j m' / sqrt (INR dk)))) /\
       ((0 < Lk)%nat -> forall i j, rsum Lk (item weights i j) = 1) /\
       bmm weights V = Ok out /\
       (forall i j c, item out i j c = rsum Lk (fun m => item weights i j m * item V i m c))).
Proof.
  intros HQ HK HV.
  apply shape_inv in HQ as (Q0 & Q1 & Q2).
  apply shape_inv in HK as (K0 & K1 & K2).
  apply shape_inv in HV as (V0 & V1 & V2).
  assert (Hs : bmm Q (transpose12 K) =
               Ok (mkTensor b Lq Lk
                     (fun i j m => rsum dk (fun c => item Q i j c * item K i m c)))).
  { rewrite bmm_ok by (simpl; congruence). simpl. rewrite Q0, Q1, Q2, K1. reflexivity. }
  set (scores := mkTensor b Lq Lk _) in Hs.
  set (weights := softmax (div_scalar scores (sqrt (INR dk)))).
  assert (Hout : bmm weights V =
                 Ok (mkTensor b Lq dv
                       (fun i j c => rsum Lk (fun m => item weights i j m * item V i m c)))).
  { rewrite bmm_ok by (simpl; congruence). simpl. rewrite V2. reflexivity. }
  eexists. split.
  { unfold scaled_dot_product_attention. rewrite Hs. simpl rbind.
    rewrite Q2. exact Hout. }
  split; [reflexivity |].
  intros _. exists scores, weights.
  split; [exact Hs |]. split; [reflexivity |]. split; [reflexivity |].
  split; [reflexivity |]. split; [reflexivity |].
  split.
  { intros HLk i j.
    exact (softmax_row_sum (div_scalar scores (sqrt (INR dk))) i j HLk). }
  split; [exact Hout | reflexivity].
Qed.

Lemma C4_scaled_dot_product_attention_witness :
  exists out weights,
    scaled_dot_product_attention (zeros 2 3 4) (zeros 2 5 4) (zeros 2 5 6) = Ok out /\
    shape out = (2%nat, 3%nat, 6%nat) /\
    bmm weights (zeros 2 5 6) = Ok out /\
    rsum 5 (item weights 1 2) = 1.
Proof.
  destruct (C4_scaled_dot_product_attention (zeros 2 3 4) (zeros 2 5 4) (zeros 2 5 6)
              2 3 5 4 6 eq_refl eq_refl eq_refl)
    as (out & Hout & Hshape & Hval).
  destruct (Hval ltac:(lia))
    as (scores & weights & _ & _ & _ & _ & _ & Hsum & Hbmm & _).
  exists out, weights. split; [exact Hout |]. split; [exact Hshape |].
  split; [exact Hbmm |]. apply Hsum. lia.
Defined.

(** ** Running the monad *)

Lemma bind_ok {A B} (c : M A) (k : A -> M B) (st st' : State) (a : A) :
  c st = (Ok a, st') -> bind c k st = k a st'.
Proof. intros H. unfold bind. rewrite H. reflexivity. Qed.

Lemma bind_raise {A B} (c : M A) (k : A -> M B) (st st' : State) (e : Error) :
  c st = (Raise e, st') -> bind c k st = (Raise e, st').
Proof. intros H. unfold bind. rewrite H. reflexivity. Qed.

Lemma bind_lift_ok {A B} (r : result A) (k : A -> M B) (st : State) (a : A) :
  r = Ok a -> bind (lift r) k st = k a st.
Proof. intros ->. reflexivity. Qed.

Lemma bind_lift_raise {A B} (r : result A) (k : A -> M B) (st : State) (e : Error) :
  r = Raise e -> bind (lift r) k st = (Raise e, st).
Proof. intros ->. reflexivity. Qed.

(** ** Shapes through the sublayers *)

Lemma Linear_forward_ok (l : Linear.t) (x : Tensor) (i o : nat) :
  wf_linear i o l -> size2 x = i ->
  exists y, Linear.forward l x = Ok y /\ shape y = (size0 x, size1 x, o).
Proof.
  intros [Hi Ho] Hx. unfold Linear.forward.
  rewrite (proj2 (Nat.eqb_eq _ _)) by congruence.
  eexists. split; [reflexivity |]. unfold shape. simpl. rewrite Ho. reflexivity.
Qed.

Lemma sdpa_ok (Q K V : Tensor) (b Lq Lk dk dv : nat) :
  shape Q = (b, Lq, dk) -> shape K = (b, Lk, dk) -> shape V = (b, Lk, dv) ->
  exists out, scaled_dot_product_attention Q K V = Ok out /\ shape out = (b, Lq, dv).
Proof.
  intros HQ HK HV.
  apply shape_inv in HQ as (Q0 & Q1 & Q2).
  apply shape_inv in HK as (K0 & K1 & K2).
  apply shape_inv in HV as (V0 & V1 & V2).
  unfold scaled_dot_product_attention.
  rewrite bmm_ok by (simpl; congruence). simpl rbind.
  rewrite bmm_ok by (simpl; congruence).
  eexists. split; [reflexivity |]. unfold shape. simpl. congruence.
Qed.

Lemma sdpa_mismatch (Q K V : Tensor) (b Lq Lk Lv dk dv : nat) :
  shape Q = (b, Lq, dk) -> shape K = (b, Lk, dk) -> shape V = (b, Lv, dv) ->
  Lk <> Lv ->
  scaled_dot_product_attention Q K V = Raise RuntimeError.
Proof.
  intros HQ HK HV Hne.
  apply shape_inv in HQ as (Q0 & Q1 & Q2).
  apply shape_inv in HK as (K0 & K1 & K2).
  apply shape_inv in HV as (V0 & V1 & V2).
  unfold scaled_dot_product_attention.
  rewrite bmm_ok by (simpl; congruence). simpl rbind.
  apply bmm_inner_mismatch. simpl. congruence.
Qed.

Lemma AttentionHead_forward_ok (h : AttentionHead.t) (D dk dv B Lq Lk : nat)
    (query key value : Tensor) :
  wf_head D dk dv h ->
  shape query = (B, Lq, D) -> shape key = (B, Lk, D) -> shape value = (B, Lk, D) ->
  exists y, AttentionHead.forward h query key value = Ok y /\ shape y = (B, Lq, dv).
Proof.
  intros (Hq & Hk & Hv) Sq Sk Sv.
  apply shape_inv in Sq as (q0 & q1 & q2).
  apply shape_inv in Sk as (k0 & k1 & k2).
  apply shape_inv in Sv as (v0 & v1 & v2).
  destruct (Linear_forward_ok _ query _ _ Hq q2) as (q' & Eq & Sq').
  destruct (Linear_forward_ok _ key _ _ Hk k2) as (k' & Ek & Sk').
  destruct (Linear_forward_ok _ value _ _ Hv v2) as (v' & Ev & Sv').
  rewrite q0, q1 in Sq'. rewrite k0, k1 in Sk'. rewrite v0, v1 in Sv'.
  destruct (sdpa_ok q' k' v' B Lq Lk dk dv Sq' Sk' Sv') as (y & Ey & Sy).
  exists y. split; [| exact Sy].
  unfold AttentionHead.forward. rewrite Eq, Ek, Ev. exact Ey.
Qed.

Lemma AttentionHead_forward_mismatch (h : AttentionHead.t) (D dk dv B Lq Lk Lv : nat)
    (query key value : Tensor) :
  wf_head D dk dv h ->
  shape query = (B, Lq, D) -> shape key = (B, Lk, D) -> shape value = (B, Lv, D) ->
  Lk <> Lv ->
  AttentionHead.forward h query key value = Raise RuntimeError.
Proof.
  intros (Hq & Hk & Hv) Sq Sk Sv Hne.
  apply shape_inv in Sq as (q0 & q1 & q2).
  apply shape_inv in Sk as (k0 & k1 & k2).
  apply shape_inv in Sv as (v0 & v1 & v2).
  destruct (Linear_forward_ok _ query _ _ Hq q2) as (q' & Eq & Sq').
  destruct (Linear_forward_ok _ key _ _ Hk k2) as (k' & Ek & Sk').
  destruct (Linear_forward_ok _ value _ _ Hv v2) as (v' & Ev & Sv').
  rewrite q0, q1 in Sq'. rewrite k0, k1 in Sk'. rewrite v0, v1 in Sv'.
  unfold AttentionHead.forward. rewrite Eq, Ek, Ev. simpl rbind.
  exact (sdpa_mismatch q' k' v' B Lq Lk Lv dk dv Sq' Sk' Sv' Hne).
Qed.

Lemma mapR_heads_ok (hs : list AttentionHead.t) (D dk dv B Lq Lk : nat)
    (query key value : Tensor) :
  Forall (wf_head D dk dv) hs ->
  shape query = (B, Lq, D) -> shape key = (B, Lk, D) -> shape value = (B, Lk, D) ->
  exists outs,
    mapR (fun h => AttentionHead.forward h query key value) hs = Ok outs /\
    length outs = length hs /\
    Forall (fun y => shape y = (B, Lq, dv)) outs.
Proof.
  intros Hwf Sq Sk Sv. induction Hwf as [| h hs Hh Hhs IH].
  - exists []. repeat split. constructor.
  - destruct IH as (outs & E & Hlen & Hall).
    destruct (AttentionHead_forward_ok h D dk dv B Lq Lk query key value Hh Sq Sk Sv)
      as (y & Ey & Sy).
    exists (y :: outs). simpl. rewrite Ey. simpl. rewrite E. simpl.
    split; [reflexivity |]. split; [congruence |]. constructor; assumption.
Qed.

Lemma cat_ok (ts : list Tensor) (B L d : nat) :
  ts <> [] -> Forall (fun y => shape y = (B, L, d)) ts ->
  exists c, cat ts = Ok c /\ shape c = (B, L, (length ts * d)%nat).
Proof.
  intros Hne Hall. induction Hall as [| t rest Ht Hrest IH]; [contradiction |].
  destruct rest as [| t' rest'].
  - exists t. split; [reflexivity |]. rewrite Ht. simpl. f_equal. lia.
  - destruct IH as (c & Ec & Sc); [discriminate |].
    apply shape_inv in Ht as (t0 & t1 & t2).
    apply shape_inv in Sc as (c0 & c1 & c2).
    change (cat (t :: t' :: rest')) with
      (let? r := cat (t' :: rest') in
       if (size0 t =? size0 r)%nat && (size1 t =? size1 r)%nat
       then Ok (mkTensor (size0 t) (size1 t) (size2 t + size2 r)
                  (fun i j k => if (k <? size2 t)%nat then item t i j k
                                else item r i j (k - size2 t)))
       else Raise RuntimeError).
    rewrite Ec. simpl rbind.
    rewrite (proj2 (Nat.eqb_eq _ _)) by congruence.
    rewrite (proj2 (Nat.eqb_eq _ _)) by congruence.
    eexists. split; [reflexivity |]. unfold shape. simpl size0. simpl size1. simpl size2.
    rewrite t0, t1, t2, c2. reflexivity.
Qed.

Lemma MultiHeadAttention_forward_ok (m : MultiHeadAttention.t) (D B Lq Lk : nat)
    (query key value : Tensor) :
  wf_mha D m ->
  shape query = (B, Lq, D) -> shape key = (B, Lk, D) -> shape value = (B, Lk, D) ->
  exists y, MultiHeadAttention.forward m query key value = Ok y /\ shape y = (B, Lq, D).
Proof.
  intros (dk & dv & Hne & Hheads & Hlin) Sq Sk Sv.
  destruct (mapR_heads_ok _ D dk dv B Lq Lk query key value Hheads Sq Sk Sv)
    as (outs & E & Hlen & Hall).
  assert (Hne' : outs <> []).
  { intros ->. destruct (MultiHeadAttention.heads m); [contradiction | discriminate]. }
  destruct (cat_ok outs B Lq dv Hne' Hall) as (c & Ec & Sc).
  rewrite Hlen in Sc. apply shape_inv in Sc as (c0 & c1 & c2).
  destruct (Linear_forward_ok _ c _ _ Hlin c2) as (y & Ey & Sy).
  exists y. unfold MultiHeadAttention.forward. rewrite E. simpl. rewrite Ec. simpl.
  split; [exact Ey |]. rewrite Sy. congruence.
Qed.

Lemma MultiHeadAttention_forward_mismatch (m : MultiHeadAttention.t)
    (D B Lq Lk Lv : nat) (query key value : Tensor) :
  wf_mha D m ->
  shape query = (B, Lq, D) -> shape key = (B, Lk, D) -> shape value = (B, Lv, D) ->
  Lk <> Lv ->
  MultiHeadAttention.forward m query key value = Raise RuntimeError.
Proof.
  intros (dk & dv & Hne & Hheads & Hlin) Sq Sk Sv Hlen.
  unfold MultiHeadAttention.forward.
  destruct (MultiHeadAttention.heads m) as [| h hs]; [contradiction |].
  inversion Hheads as [| ? ? Hh _]; subst.
  simpl. rewrite (AttentionHead_forward_mismatch h D dk dv B Lq Lk Lv
                    query key value Hh Sq Sk Sv Hlen).
  reflexivity.
Qed.

Lemma Sequential_forward_ok (f : Sequential.t) (D : nat) (x : Tensor) :
  wf_ff D f -> size2 x = D ->
  exists y, Sequential.forward f x = Ok y /\ shape y = shape x.
Proof.
  intros (F & H1 & H2) Hx.
  destruct (Linear_forward_ok _ x _ _ H1 Hx) as (h & Eh & Sh).
  apply shape_inv in Sh as (h0 & h1 & h2).
  destruct (Linear_forward_ok _ (relu h) _ _ H2 h2) as (y & Ey & Sy).
  exists y. unfold Sequential.forward. rewrite Eh. simpl. split; [exact Ey |].
  rewrite Sy. simpl. unfold shape. congruence.
Qed.

Lemma broadcast_dim_refl (n : nat) : broadcast_dim n n = Ok n.
Proof. unfold broadcast_dim. rewrite Nat.eqb_refl. reflexivity. Qed.

Lemma broadcast_dim_1_r (n : nat) : broadcast_dim n 1 = Ok n.
Proof.
  unfold broadcast_dim.
  destruct (Nat.eqb_spec n 1) as [-> | Hne]; [reflexivity |]. reflexivity.
Qed.

Lemma tensor_add_same (a b : Tensor) :
  shape a = shape b ->
  exists y, tensor_add a b = Ok y /\ shape y = shape a /\
            item y = (fun i j k => bitem a i j k + bitem b i j k).
Proof.
  intros H. unfold shape in H. inversion H as [[H0 H1 H2]].
  unfold tensor_add. rewrite <- H0, <- H1, <- H2, !broadcast_dim_refl.
  eexists. split; [reflexivity |]. split; reflexivity.
Qed.

Lemma LayerNorm_forward_ok (n : LayerNorm.t) (x : Tensor) :
  size2 x = LayerNorm.normalized_shape n ->
  exists y, LayerNorm.forward n x = Ok y /\ shape y = shape x.
Proof.
  intros H. unfold LayerNorm.forward. rewrite (proj2 (Nat.eqb_eq _ _) H).
  eexists. split; reflexivity.
Qed.

Lemma Dropout_forward_ok (d : Dropout.t) (x : Tensor) (st : State) :
  exists y st', Dropout.forward d x st = (Ok y, st') /\
                heap st' = heap st /\ shape y = shape x.
Proof.
  unfold Dropout.forward. destruct (Dropout.training d).
  - eexists _, _. split; [reflexivity |]. split; reflexivity.
  - exists x, st. repeat split.
Qed.

Lemma Residual_forward_ok {S} `{Callable S} (r : Residual.t S)
    (tensors : list Tensor) (base out : Tensor) (st : State) :
  last tensors = Some base ->
  call (Residual.sublayer r) tensors = Ok out ->
  shape out = shape base ->
  size2 base = LayerNorm.normalized_shape (Residual.norm r) ->
  exists y st', Residual.forward r tensors st = (Ok y, st') /\
                heap st' = heap st /\ shape y = shape base.
Proof.
  intros Hlast Hcall Hshape Hnorm.
  destruct (Dropout_forward_ok (Residual.dropout r) out st) as (d & st' & Ed & Hheap & Sd).
  destruct (tensor_add_same base d) as (s & Es & Ss & _); [congruence |].
  destruct (LayerNorm_forward_ok (Residual.norm r) s) as (y & Ey & Sy).
  { apply (f_equal (fun p => snd p)) in Ss. simpl in Ss. congruence. }
  exists y, st'. split; [| split; [exact Hheap | congruence]].
  unfold Residual.forward, last_arg. rewrite Hlast.
  rewrite (bind_lift_ok _ _ _ base eq_refl).
  rewrite (bind_lift_ok _ _ _ out Hcall).
  rewrite (bind_ok _ _ _ _ _ Ed).
  rewrite (bind_lift_ok _ _ _ s Es).
  unfold lift. rewrite Ey. reflexivity.
Qed.

Lemma Residual_forward_raise {S} `{Callable S} (r : Residual.t S)
    (tensors : list Tensor) (base : Tensor) (e : Error) (st : State) :
  last tensors = Some base ->
  call (Residual.sublayer r) tensors = Raise e ->
  Residual.forward r tensors st = (Raise e, st).
Proof.
  intros Hlast Hcall. unfold Residual.forward, last_arg. rewrite Hlast.
  rewrite (bind_lift_ok _ _ _ base eq_refl).
  apply bind_lift_raise. exact Hcall.
Qed.

(** ** Encoder and decoder layers *)

Lemma TransformerEncoderLayer_forward_ok (l : TransformerEncoderLayer.t)
    (D B L : nat) (x : Tensor) (st : State) :
  wf_encoder_layer D l -> shape x = (B, L, D) ->
  exists y st', TransformerEncoderLayer.forward l x st = (Ok y, st') /\
                heap st' = heap st /\ shape y = (B, L, D).
Proof.
  intros [[Hmha Hn1] [Hff Hn2]] Sx.
  destruct (MultiHeadAttention_forward_ok _ D B L L x x x Hmha Sx Sx Sx) as (a & Ea & Sa).
  destruct (Residual_forward_ok (TransformerEncoderLayer.attention l) [x; x; x] x a st)
    as (x1 & st1 & E1 & H1 & S1); [reflexivity | exact Ea | congruence | |].
  { apply shape_inv in Sx as (_ & _ & ->). symmetry. exact Hn1. }
  rewrite Sx in S1. pose proof S1 as S1'. apply shape_inv in S1' as (_ & _ & x12).
  destruct (Sequential_forward_ok _ D x1 Hff x12) as (f & Ef & Sf).
  destruct (Residual_forward_ok (TransformerEncoderLayer.feed_forward l) [x1] x1 f st1)
    as (y & st2 & E2 & H2 & S2); [reflexivity | exact Ef | exact Sf | congruence |].
  exists y, st2. split; [| split; congruence].
  unfold TransformerEncoderLayer.forward. rewrite (bind_ok _ _ _ _ _ E1). exact E2.
Qed.

Lemma TransformerDecoderLayer_forward_ok (l : TransformerDecoderLayer.t)
    (D B L : nat) (tgt memory : Tensor) (st : State) :
  wf_decoder_layer D l -> shape tgt = (B, L, D) -> shape memory = (B, L, D) ->
  exists y st', TransformerDecoderLayer.forward l tgt memory st = (Ok y, st') /\
                heap st' = heap st /\ shape y = (B, L, D).
Proof.
  intros ([Hm1 Hn1] & [Hm2 Hn2] & [Hff Hn3]) St Sm.
  assert (HD : forall t, shape t = (B, L, D) -> size2 t = D).
  { intros t Ht. apply shape_inv in Ht as (_ & _ & Ht). exact Ht. }
  destruct (MultiHeadAttention_forward_ok _ D B L L tgt tgt tgt Hm1 St St St)
    as (a1 & Ea1 & Sa1).
  destruct (Residual_forward_ok (TransformerDecoderLayer.attention_1 l)
              [tgt; tgt; tgt] tgt a1 st)
    as (t1 & st1 & E1 & H1 & S1);
    [reflexivity | exact Ea1 | congruence | rewrite (HD _ St); congruence |].
  rewrite St in S1.
  destruct (MultiHeadAttention_forward_ok _ D B L L memory memory t1 Hm2 Sm Sm S1)
    as (a2 & Ea2 & Sa2).
  destruct (Residual_forward_ok (TransformerDecoderLayer.attention_2 l)
              [memory; memory; t1] t1 a2 st1)
    as (t2 & st2 & E2 & H2 & S2);
    [reflexivity | exact Ea2 | congruence | rewrite (HD _ S1); congruence |].
  rewrite S1 in S2.
  destruct (Sequential_forward_ok _ D t2 Hff (HD _ S2)) as (f & Ef & Sf).
  destruct (Residual_forward_ok (TransformerDecoderLayer.feed_forward l) [t2] t2 f st2)
    as (y & st3 & E3 & H3 & S3);
    [reflexivity | exact Ef | exact Sf | rewrite (HD _ S2); congruence |].
  exists y, st3. split; [| split; congruence].
  unfold TransformerDecoderLayer.forward.
  rewrite (bind_ok _ _ _ _ _ E1), (bind_ok _ _ _ _ _ E2). exact E3.
Qed.

(** When the memory and the target differ in length, the cross-attention
    call [attention_2(memory, memory, tgt)] multiplies weights of shape
    (B, Ls, Ls) with values of shape (B, Lt, dim_v). *)
Lemma TransformerDecoderLayer_forward_mismatch (l : TransformerDecoderLayer.t)
    (D B Ls Lt : nat) (tgt memory : Tensor) (st : State) :
  wf_decoder_layer D l -> shape tgt = (B, Lt, D) -> shape memory = (B, Ls, D) ->
  Ls <> Lt ->
  exists st', TransformerDecoderLayer.forward l tgt memory st = (Raise RuntimeError, st') /\
              heap st' = heap st.
Proof.
  intros ([Hm1 Hn1] & [Hm2 Hn2] & [Hff Hn3]) St Sm Hne.
  destruct (MultiHeadAttention_forward_ok _ D B Lt Lt tgt tgt tgt Hm1 St St St)
    as (a1 & Ea1 & Sa1).
  destruct (Residual_forward_ok (TransformerDecoderLayer.attention_1 l)
              [tgt; tgt; tgt] tgt a1 st)
    as (t1 & st1 & E1 & H1 & S1); [reflexivity | exact Ea1 | congruence | |].
  { apply shape_inv in St as (_ & _ & ->). congruence. }
  rewrite St in S1.
  exists st1. split; [| exact H1].
  unfold TransformerDecoderLayer.forward. rewrite (bind_ok _ _ _ _ _ E1).
  apply bind_raise.
  apply (Residual_forward_raise _ _ t1); [reflexivity |].
  exact (MultiHeadAttention_forward_mismatch _ D B Ls Ls Lt memory memory t1
           Hm2 Sm Sm S1 Hne).
Qed.

(** ** The heap: in-place addition of the positional encoding, and the loops *)

Lemma tensor_add_position_encoding (x : Tensor) :
  tensor_add x (position_encoding (size1 x) (size2 x)) = Ok (with_position_encoding x).
Proof.
  unfold tensor_add. simpl size0. simpl size1. simpl size2.
  rewrite broadcast_dim_1_r, !broadcast_dim_refl. reflexivity.
Qed.

Lemma shape_eqb_refl (s : nat * nat * nat) : shape_eqb s s = true.
Proof. destruct s as [[a b] c]. simpl. rewrite !Nat.eqb_refl. reflexivity. Qed.

Lemma load_ok (r : nat) (x : Tensor) (st : State) :
  heap st !! r = Some x -> load r st = (Ok x, st).
Proof. intros H. unfold load. rewrite H. reflexivity. Qed.

Lemma iadd_position_encoding (r : nat) (x : Tensor) (st : State) :
  heap st !! r = Some x ->
  iadd r (position_encoding (size1 x) (size2 x)) st
  = (Ok tt, mkState (<[r := with_position_encoding x]> (heap st)) (rng st)).
Proof.
  intros H. unfold iadd.
  rewrite (bind_ok _ _ _ _ _ (load_ok r x st H)).
  rewrite (bind_lift_ok _ _ _ _ (tensor_add_position_encoding x)).
  change (shape (with_position_encoding x)) with (shape x).
  rewrite shape_eqb_refl. reflexivity.
Qed.

Lemma with_position_encoding_shape (x : Tensor) :
  shape (with_position_encoding x) = shape x.
Proof. reflexivity. Qed.

Lemma TransformerEncoder_loop_ok (D B L : nat) (layers : list TransformerEncoderLayer.t) :
  Forall (wf_encoder_layer D) layers ->
  forall (src : nat) (x : Tensor) (st : State),
  heap st !! src = Some x -> shape x = (B, L, D) ->
  exists r st' y extra,
    TransformerEncoder.loop layers src st = (Ok r, st') /\
    heap st' = heap st ++ extra /\
    heap st' !! r = Some y /\ shape y = (B, L, D) /\
    (layers = [] -> r = src /\ extra = []) /\
    (layers <> [] -> length (heap st) <= r)%nat.
Proof.
  induction 1 as [| l rest Hl Hrest IH]; intros src x st Hsrc Sx.
  - exists src, st, x, []. simpl. rewrite app_nil_r.
    repeat split; try assumption. intros Hc. contradiction.
  - destruct (TransformerEncoderLayer_forward_ok l D B L x st Hl Sx)
      as (y & st1 & Ey & Hh1 & Sy).
    set (st2 := mkState (heap st1 ++ [y]) (rng st1)).
    assert (Hy : heap st2 !! length (heap st1) = Some y).
    { simpl. apply list_lookup_middle. reflexivity. }
    destruct (IH (length (heap st1)) y st2 Hy Sy)
      as (r & st' & z & extra & E & Hheap & Hr & Sz & Hnil & Hcons).
    exists r, st', z, (y :: extra).
    split.
    { simpl. rewrite (bind_ok _ _ _ _ _ (load_ok src x st Hsrc)).
      rewrite (bind_ok _ _ _ _ _ Ey).
      unfold bind at 1. unfold alloc at 1. exact E. }
    split. { rewrite Hheap. simpl. rewrite Hh1, <- app_assoc. reflexivity. }
    split; [exact Hr |]. split; [exact Sz |].
    split; [discriminate |]. intros _.
    destruct rest as [| l' rest'].
    + destruct Hnil as [-> _]; [reflexivity |]. rewrite Hh1. lia.
    + assert (Hle : (length (heap st2) <= r)%nat) by (apply Hcons; discriminate).
      simpl in Hle. rewrite length_app, Hh1 in Hle. lia.
Qed.

Lemma TransformerEncoder_forward_ok (e : TransformerEncoder.t) (D B L : nat)
    (src : nat) (x : Tensor) (st : State) :
  wf_encoder D e -> heap st !! src = Some x -> shape x = (B, L, D) ->
  exists r st' y extra,
    TransformerEncoder.forward e src st = (Ok r, st') /\
    heap st' = <[src := with_position_encoding x]> (heap st) ++ extra /\
    heap st' !! r = Some y /\ shape y = (B, L, D) /\
    (r = src \/ length (heap st) <= r)%nat.
Proof.
  intros Hwf Hsrc Sx.
  set (st1 := mkState (<[src := with_position_encoding x]> (heap st)) (rng st)).
  assert (H1 : heap st1 !! src = Some (with_position_encoding x)).
  { simpl. apply list_lookup_insert_eq. apply lookup_lt_Some in Hsrc. exact Hsrc. }
  destruct (TransformerEncoder_loop_ok D B L _ Hwf src _ st1 H1 Sx)
    as (r & st' & y & extra & E & Hheap & Hr & Sy & Hnil & Hcons).
  exists r, st', y, extra.
  split.
  { unfold TransformerEncoder.forward.
    rewrite (bind_ok _ _ _ _ _ (load_ok src x st Hsrc)).
    rewrite (bind_ok _ _ _ _ _ (iadd_position_encoding src x st Hsrc)). exact E. }
  split; [exact Hheap |]. split; [exact Hr |]. split; [exact Sy |].
  destruct (TransformerEncoder.layers e) as [| l ls].
  - left. apply Hnil. reflexivity.
  - right. specialize (Hcons ltac:(discriminate)). simpl in Hcons.
    rewrite length_insert in Hcons. exact Hcons.
Qed.

Lemma TransformerDecoder_loop_ok (D B L : nat) (layers : list TransformerDecoderLayer.t) :
  Forall (wf_decoder_layer D) layers ->
  forall (tgt memory : nat) (x m : Tensor) (st : State),
  heap st !! tgt = Some x -> shape x = (B, L, D) ->
  heap st !! memory = Some m -> (layers = [] \/ shape m = (B, L, D)) ->
  exists r st' y extra,
    TransformerDecoder.loop layers tgt memory st = (Ok r, st') /\
    heap st' = heap st ++ extra /\
    heap st' !! r = Some y /\ shape y = (B, L, D).
Proof.
  induction 1 as [| l rest Hl Hrest IH]; intros tgt memory x m st Htgt Sx Hmem Sm.
  - exists tgt, st, x, []. simpl. rewrite app_nil_r. repeat split; assumption.
  - destruct Sm as [Hc | Sm]; [discriminate |].
    destruct (TransformerDecoderLayer_forward_ok l D B L x m st Hl Sx Sm)
      as (y & st1 & Ey & Hh1 & Sy).
    set (st2 := mkState (heap st1 ++ [y]) (rng st1)).
    assert (Hy : heap st2 !! length (heap st1) = Some y).
    { simpl. apply list_lookup_middle. reflexivity. }
    assert (Hm2 : heap st2 !! memory = Some m).
    { simpl. rewrite Hh1. apply lookup_app_l_Some. exact Hmem. }
    destruct (IH (length (heap st1)) memory y m st2 Hy Sy Hm2 (or_intror Sm))
      as (r & st' & z & extra & E & Hheap & Hr & Sz).
    exists r, st', z, (y :: extra).
    split.
    { simpl. rewrite (bind_ok _ _ _ _ _ (load_ok tgt x st Htgt)).
      rewrite (bind_ok _ _ _ _ _ (load_ok memory m st Hmem)).
      rewrite (bind_ok _ _ _ _ _ Ey).
      unfold bind at 1. unfold alloc at 1. exact E. }
    split. { rewrite Hheap. simpl. rewrite Hh1, <- app_assoc. reflexivity. }
    split; assumption.
Qed.

Lemma TransformerDecoder_forward_ok (d : TransformerDecoder.t) (D B L : nat)
    (tgt memory : nat) (x m : Tensor) (st : State) :
  wf_decoder D d ->
  heap st !! tgt = Some x -> shape x = (B, L, D) ->
  heap st !! memory = Some m ->
  (TransformerDecoder.layers d = [] \/ shape m = (B, L, D)) ->
  exists r st' out extra,
    TransformerDecoder.forward d tgt memory st = (Ok r, st') /\
    heap st' = <[tgt := with_position_encoding x]> (heap st) ++ extra /\
    heap st' !! r = Some out /\ shape out = (B, L, D) /\
    (length (heap st) <= r)%nat /\
    ((0 < D)%nat -> forall i j, rsum D (item out i j) = 1) /\
    (exists y z, Linear.forward (TransformerDecoder.linear d) y = Ok z /\ out = softmax z).
Proof.
  intros [Hlayers Hlin] Htgt Sx Hmem Sm.
  pose proof (lookup_lt_Some _ _ _ Htgt) as Hlt.
  set (st1 := mkState (<[tgt := with_position_encoding x]> (heap st)) (rng st)).
  assert (H1 : heap st1 !! tgt = Some (with_position_encoding x)).
  { simpl. apply list_lookup_insert_eq. exact Hlt. }
  assert (Hm1 : exists m', heap st1 !! memory = Some m' /\
                 (TransformerDecoder.layers d = [] \/ shape m' = (B, L, D))).
  { destruct (decide (memory = tgt)) as [-> | Hne].
    - exists (with_position_encoding x). split; [exact H1 |].
      destruct Sm as [Hnil | Sm]; [left; exact Hnil | right].
      rewrite with_position_encoding_shape. exact Sx.
    - exists m. split; [| exact Sm]. simpl.
      rewrite list_lookup_insert_ne by congruence. exact Hmem. }
  destruct Hm1 as (m' & Hm1 & Sm').
  destruct (TransformerDecoder_loop_ok D B L _ Hlayers tgt memory _ m' st1 H1 Sx Hm1 Sm')
    as (r2 & st2 & y & extra & E & Hheap & Hr & Sy).
  pose proof Sy as Sy'. apply shape_inv in Sy' as (y0 & y1 & y2).
  destruct (Linear_forward_ok _ y _ _ Hlin y2) as (z & Ez & Sz).
  rewrite y0, y1 in Sz.
  exists (length (heap st2)), (mkState (heap st2 ++ [softmax z]) (rng st2)),
    (softmax z), (extra ++ [softmax z]).
  split.
  { unfold TransformerDecoder.forward.
    rewrite (bind_ok _ _ _ _ _ (load_ok tgt x st Htgt)).
    rewrite (bind_ok _ _ _ _ _ (iadd_position_encoding tgt x st Htgt)).
    rewrite (bind_ok _ _ _ _ _ E).
    rewrite (bind_ok _ _ _ _ _ (load_ok r2 y st2 Hr)).
    rewrite (bind_lift_ok _ _ _ _ Ez). reflexivity. }
  split. { simpl. rewrite Hheap. simpl. rewrite <- app_assoc. reflexivity. }
  split. { simpl. apply list_lookup_middle. reflexivity. }
  split; [exact Sz |].
  split. { rewrite Hheap. simpl. rewrite length_app, length_insert. lia. }
  split; [| exists y, z; split; [exact Ez | reflexivity]].
  intros HD i j. apply shape_inv in Sz as (_ & _ & z2).
  rewrite <- z2. apply softmax_row_sum. lia.
Qed.

(** The whole forward pass: it succeeds when the two lengths agree (or
    the decoder has no layer); the result is a new tensor object of the
    target's shape whose channel vectors sum to 1; the objects [src] and
    [tgt] have had the positional encoding added in place (twice when
    they are one object), and no other existing object has changed. *)
Lemma Transformer_forward_ok (m : Transformer.t) (D B Ls Lt : nat)
    (src tgt : nat) (s t : Tensor) (st : State) :
  wf_transformer D m ->
  heap st !! src = Some s -> shape s = (B, Ls, D) ->
  heap st !! tgt = Some t -> shape t = (B, Lt, D) ->
  (TransformerDecoder.layers (Transformer.decoder m) = [] \/ Ls = Lt) ->
  exists r st' out extra,
    Transformer.forward m src tgt st = (Ok r, st') /\
    heap st' =
      <[tgt := with_position_encoding
                 (if decide (src = tgt) then with_position_encoding s else t)]>
        (<[src := with_position_encoding s]> (heap st)) ++ extra /\
    heap st' !! r = Some out /\ shape out = (B, Lt, D) /\
    (length (heap st) <= r)%nat /\
    ((0 < D)%nat -> forall i j, rsum D (item out i j) = 1) /\
    (exists y z, Linear.forward (TransformerDecoder.linear (Transformer.decoder m)) y = Ok z /\
                 out = softmax z).
Proof.
  intros [Henc Hdec] Hsrc Ss Htgt St HL.
  pose proof (lookup_lt_Some _ _ _ Hsrc) as Hsl.
  pose proof (lookup_lt_Some _ _ _ Htgt) as Htl.
  destruct (TransformerEncoder_forward_ok _ D B Ls src s st Henc Hsrc Ss)
    as (r1 & st1 & mem & extra1 & E1 & Hh1 & Hr1 & Smem & _).
  set (t1 := if decide (src = tgt) then with_position_encoding s else t).
  assert (Ht1 : heap st1 !! tgt = Some t1).
  { rewrite Hh1. apply lookup_app_l_Some. unfold t1.
    destruct (decide (src = tgt)) as [-> | Hne].
    - apply list_lookup_insert_eq. exact Htl.
    - rewrite list_lookup_insert_ne by exact Hne. exact Htgt. }
  assert (St1 : shape t1 = (B, Lt, D)).
  { unfold t1. destruct (decide (src = tgt)) as [-> | Hne]; [| exact St].
    rewrite with_position_encoding_shape. congruence. }
  assert (Smem' : TransformerDecoder.layers (Transformer.decoder m) = []
                  \/ shape mem = (B, Lt, D)).
  { destruct HL as [Hnil | <-]; [left; exact Hnil | right; exact Smem]. }
  destruct (TransformerDecoder_forward_ok _ D B Lt tgt r1 t1 mem st1 Hdec Ht1 St1 Hr1 Smem')
    as (r & st' & out & extra2 & E2 & Hh2 & Hr & Sout & Hlen & Hsum & Hsm).
  exists r, st', out, (extra1 ++ extra2).
  split.
  { unfold Transformer.forward. rewrite (bind_ok _ _ _ _ _ E1). exact E2. }
  split.
  { rewrite Hh2, Hh1. rewrite insert_app_l by (rewrite length_insert; exact Htl).
    rewrite <- app_assoc. reflexivity. }
  split; [exact Hr |]. split; [exact Sout |]. split; [| split; [exact Hsum | exact Hsm]].
  rewrite Hh1, length_app, length_insert in Hlen. lia.
Qed.

(** ** Constructors *)

Lemma Linear_init_ok (i o : nat) (st : State) :
  exists l st', Linear.__init__ i o st = (Ok l, st') /\ wf_linear i o l.
Proof. eexists _, _. split; [reflexivity |]. split; reflexivity. Qed.

Lemma replicateM_ok {A} (P : A -> Prop) (c : M A) :
  (forall st, exists a st', c st = (Ok a, st') /\ P a) ->
  forall n st, exists l st', replicateM n c st = (Ok l, st') /\ Forall P l /\ length l = n.
Proof.
  intros Hc. induction n as [| n IH]; intros st.
  - exists [], st. repeat split. constructor.
  - destruct (Hc st) as (a & st1 & Ea & Pa).
    destruct (IH st1) as (l & st2 & El & Pl & Hlen).
    exists (a :: l), st2. simpl.
    rewrite (bind_ok _ _ _ _ _ Ea), (bind_ok _ _ _ _ _ El).
    split; [reflexivity |]. split; [constructor; assumption | simpl; congruence].
Qed.

Lemma AttentionHead_init_ok (D dk dv : nat) (st : State) :
  exists h st', AttentionHead.__init__ D dk dv st = (Ok h, st') /\ wf_head D dk dv h.
Proof.
  eexists _, _. split; [reflexivity |]. repeat split.
Qed.

Lemma MultiHeadAttention_init_ok (H D dk dv : nat) (st : State) :
  exists m st', MultiHeadAttention.__init__ H D dk dv st = (Ok m, st') /\
                mha_dims H D dk dv m.
Proof.
  destruct (replicateM_ok (wf_head D dk dv) (AttentionHead.__init__ D dk dv)
              (AttentionHead_init_ok D dk dv) H st) as (hs & st1 & E & Hall & Hlen).
  destruct (Linear_init_ok (H * dv) D st1) as (l & st2 & El & Hl).
  exists (MultiHeadAttention.mk hs l), st2.
  unfold MultiHeadAttention.__init__.
  rewrite (bind_ok _ _ _ _ _ E), (bind_ok _ _ _ _ _ El).
  split; [reflexivity |]. repeat split; assumption || apply Hl.
Qed.

Lemma mha_dims_wf (H D dk dv : nat) (m : MultiHeadAttention.t) :
  H <> O -> mha_dims H D dk dv m -> wf_mha D m.
Proof.
  intros HH (Hlen & Hall & Hlin). exists dk, dv.
  split; [| split; [exact Hall | rewrite Hlen; exact Hlin]].
  intros Hnil. rewrite Hnil in Hlen. simpl in Hlen. congruence.
Qed.

Lemma Dropout_init_ok (p : R) (st : State) :
  0 <= p <= 1 -> Dropout.__init__ p st = (Ok (Dropout.mk p true), st).
Proof.
  intros [H0 H1]. unfold Dropout.__init__.
  destruct (Rlt_dec p 0) as [Hlt | _]; [lra |].
  destruct (Rlt_dec 1 p) as [Hlt | _]; [lra |]. reflexivity.
Qed.

Lemma Residual_init_ok {S} (sub : S) (D : nat) (p : R) (st : State) :
  0 <= p <= 1 ->
  exists r, Residual.__init__ sub D p st = (Ok r, st) /\
            Residual.sublayer r = sub /\
            LayerNorm.normalized_shape (Residual.norm r) = D.
Proof.
  intros Hp. eexists. unfold Residual.__init__, LayerNorm.__init__.
  unfold bind, ret. cbv beta iota. rewrite (Dropout_init_ok p st Hp).
  split; [reflexivity |]. split; reflexivity.
Qed.

Lemma feed_forward_ok (D F : nat) (st : State) :
  exists f st', feed_forward D F st = (Ok f, st') /\ wf_ff D f.
Proof.
  eexists _, _. split; [reflexivity |]. exists F. repeat split.
Qed.

Lemma TransformerEncoderLayer_init_ok (D H F : nat) (p : R) (st : State) :
  H <> O -> 0 <= p <= 1 ->
  exists l st', TransformerEncoderLayer.__init__ D H F p st = (Ok l, st') /\
                wf_encoder_layer D l /\
                encoder_layer_dims H D (D / H) (D / H) l.
Proof.
  intros HH Hp.
  destruct (MultiHeadAttention_init_ok H D (D / H) (D / H) st) as (m & st1 & Em & Hm).
  destruct (Residual_init_ok m D p st1 Hp) as (r1 & E1 & Hs1 & Hn1).
  destruct (feed_forward_ok D F st1) as (f & st2 & Ef & Hf).
  destruct (Residual_init_ok f D p st2 Hp) as (r2 & E2 & Hs2 & Hn2).
  exists (TransformerEncoderLayer.mk r1 r2), st2.
  split.
  { unfold TransformerEncoderLayer.__init__, floordiv.
    destruct H as [| H']; [contradiction |].
    rewrite (bind_lift_ok _ _ _ _ eq_refl).
    rewrite (bind_ok _ _ _ _ _ Em), (bind_ok _ _ _ _ _ E1).
    rewrite (bind_ok _ _ _ _ _ Ef), (bind_ok _ _ _ _ _ E2). reflexivity. }
  split.
  - split; split; simpl; try assumption.
    + rewrite Hs1. exact (mha_dims_wf H D _ _ m HH Hm).
    + rewrite Hs2. exact Hf.
  - unfold encoder_layer_dims. simpl. rewrite Hs1. exact Hm.
Qed.

Lemma TransformerEncoderLayer_init_zero_heads (D F : nat) (p : R) (st : State) :
  TransformerEncoderLayer.__init__ D 0 F p st = (Raise ZeroDivisionError, st).
Proof. reflexivity. Qed.

Lemma TransformerDecoderLayer_init_ok (D H F : nat) (p : R) (st : State) :
  H <> O -> 0 <= p <= 1 ->
  exists l st', TransformerDecoderLayer.__init__ D H F p st = (Ok l, st') /\
                wf_decoder_layer D l /\
                decoder_layer_dims H D (D / H) (D / H) l.
Proof.
  intros HH Hp.
  destruct (MultiHeadAttention_init_ok H D (D / H) (D / H) st) as (m1 & st1 & Em1 & Hm1).
  destruct (Residual_init_ok m1 D p st1 Hp) as (r1 & E1 & Hs1 & Hn1).
  destruct (MultiHeadAttention_init_ok H D (D / H) (D / H) st1) as (m2 & st2 & Em2 & Hm2).
  destruct (Residual_init_ok m2 D p st2 Hp) as (r2 & E2 & Hs2 & Hn2).
  destruct (feed_forward_ok D F st2) as (f & st3 & Ef & Hf).
  destruct (Residual_init_ok f D p st3 Hp) as (r3 & E3 & Hs3 & Hn3).
  exists (TransformerDecoderLayer.mk r1 r2 r3), st3.
  split.
  { unfold TransformerDecoderLayer.__init__, floordiv.
    destruct H as [| H']; [contradiction |].
    rewrite (bind_lift_ok _ _ _ _ eq_refl).
    rewrite (bind_ok _ _ _ _ _ Em1), (bind_ok _ _ _ _ _ E1).
    rewrite (bind_ok _ _ _ _ _ Em2), (bind_ok _ _ _ _ _ E2).
    rewrite (bind_ok _ _ _ _ _ Ef), (bind_ok _ _ _ _ _ E3). reflexivity. }
  split.
  - repeat split; simpl; try assumption.
    + rewrite Hs1. exact (mha_dims_wf H D _ _ m1 HH Hm1).
    + rewrite Hs2. exact (mha_dims_wf H D _ _ m2 HH Hm2).
    + rewrite Hs3. exact Hf.
  - unfold decoder_layer_dims. simpl. rewrite Hs1, Hs2. split; assumption.
Qed.

Lemma TransformerDecoderLayer_init_zero_heads (D F : nat) (p : R) (st : State) :
  TransformerDecoderLayer.__init__ D 0 F p st = (Raise ZeroDivisionError, st).
Proof. reflexivity. Qed.

Lemma TransformerEncoder_init_ok (Ne D H F : nat) (p : R) (st : State) :
  H <> O -> 0 <= p <= 1 ->
  exists e st', TransformerEncoder.__init__ Ne D H F p st = (Ok e, st') /\
                wf_encoder D e /\
                length (TransformerEncoder.layers e) = Ne /\
                Forall (encoder_layer_dims H D (D / H) (D / H)) (TransformerEncoder.layers e).
Proof.
  intros HH Hp.
  destruct (replicateM_ok
              (fun l => wf_encoder_layer D l /\ encoder_layer_dims H D (D / H) (D / H) l)
              (TransformerEncoderLayer.__init__ D H F p)
              (fun st => TransformerEncoderLayer_init_ok D H F p st HH Hp) Ne st)
    as (els & st1 & Ee & Hels & Hne).
  exists (TransformerEncoder.mk els), st1.
  unfold TransformerEncoder.__init__. rewrite (bind_ok _ _ _ _ _ Ee).
  apply Forall_and in Hels as [Hel1 Hel2].
  split; [reflexivity |]. repeat split; assumption.
Qed.

Lemma TransformerDecoder_init_ok (Nd D H F : nat) (p : R) (st : State) :
  H <> O -> 0 <= p <= 1 ->
  exists d st', TransformerDecoder.__init__ Nd D H F p st = (Ok d, st') /\
                wf_decoder D d /\
                length (TransformerDecoder.layers d) = Nd /\
                Forall (decoder_layer_dims H D (D / H) (D / H)) (TransformerDecoder.layers d).
Proof.
  intros HH Hp.
  destruct (replicateM_ok
              (fun l => wf_decoder_layer D l /\ decoder_layer_dims H D (D / H) (D / H) l)
              (TransformerDecoderLayer.__init__ D H F p)
              (fun st => TransformerDecoderLayer_init_ok D H F p st HH Hp) Nd st)
    as (dls & st1 & Ed & Hdls & Hnd).
  destruct (Linear_init_ok D D st1) as (lin & st2 & El & Hlin).
  exists (TransformerDecoder.mk dls lin), st2.
  unfold TransformerDecoder.__init__.
  rewrite (bind_ok _ _ _ _ _ Ed), (bind_ok _ _ _ _ _ El).
  apply Forall_and in Hdls as [Hdl1 Hdl2].
  split; [reflexivity |]. repeat split; simpl; assumption || apply Hlin.
Qed.

Lemma Transformer_init_ok (Ne Nd D H F : nat) (p : R) (st : State) :
  H <> O -> 0 <= p <= 1 ->
  exists m st', Transformer.__init__ Ne Nd D H F p st = (Ok m, st') /\
                wf_transformer D m /\
                length (TransformerEncoder.layers (Transformer.encoder m)) = Ne /\
                length (TransformerDecoder.layers (Transformer.decoder m)) = Nd /\
                Forall (encoder_layer_dims H D (D / H) (D / H))
                  (TransformerEncoder.layers (Transformer.encoder m)) /\
                Forall (decoder_layer_dims H D (D / H) (D / H))
                  (TransformerDecoder.layers (Transformer.decoder m)).
Proof.
  intros HH Hp.
  destruct (TransformerEncoder_init_ok Ne D H F p st HH Hp)
    as (e & st1 & Ee & We & Le & De).
  destruct (TransformerDecoder_init_ok Nd D H F p st1 HH Hp)
    as (d & st2 & Ed & Wd & Ld & Dd).
  exists (Transformer.mk e d), st2.
  unfold Transformer.__init__.
  rewrite (bind_ok _ _ _ _ _ Ee), (bind_ok _ _ _ _ _ Ed).
  split; [reflexivity |]. repeat split; simpl; assumption || apply Wd.
Qed.

(** What a constructor that returned has built. *)

Lemma bind_inv {A B} (c : M A) (k : A -> M B) (st st' : State) (b : B) :
  bind c k st = (Ok b, st') ->
  exists a st1, c st = (Ok a, st1) /\ k a st1 = (Ok b, st').
Proof.
  unfold bind. destruct (c st) as [[a | e] st1]; intros H.
  - exists a, st1. split; [reflexivity | exact H].
  - discriminate.
Qed.

Lemma replicateM_inv {A} (P : A -> Prop) (c : M A) :
  (forall st a st', c st = (Ok a, st') -> P a) ->
  forall n st l st', replicateM n c st = (Ok l, st') -> Forall P l /\ length l = n.
Proof.
  intros Hc. induction n as [| n IH]; intros st l st' H.
  - inversion H; subst. split; [constructor | reflexivity].
  - simpl in H. apply bind_inv in H as (a & st1 & Ea & H).
    apply bind_inv in H as (l' & st2 & El & H). inversion H; subst.
    destruct (IH _ _ _ El) as [Hall Hlen].
    split; [constructor; [exact (Hc _ _ _ Ea) | exact Hall] | simpl; congruence].
Qed.

Lemma Residual_init_inv {S} (sub : S) (D : nat) (p : R) (st st' : State)
    (r : Residual.t S) :
  Residual.__init__ sub D p st = (Ok r, st') -> 0 <= p <= 1.
Proof.
  unfold Residual.__init__, LayerNorm.__init__, Dropout.__init__.
  unfold bind, ret, raise. cbv beta iota.
  destruct (Rlt_dec p 0) as [Hlt | Hge]; [discriminate |].
  destruct (Rlt_dec 1 p) as [Hlt | Hle]; [discriminate |].
  intros _. lra.
Qed.

Lemma TransformerEncoderLayer_init_inv (D H F : nat) (p : R) (st st' : State)
    (l : TransformerEncoderLayer.t) :
  TransformerEncoderLayer.__init__ D H F p st = (Ok l, st') ->
  wf_encoder_layer D l /\ encoder_layer_dims H D (D / H) (D / H) l.
Proof.
  intros Hinit.
  assert (HH : H <> O).
  { intros ->. rewrite TransformerEncoderLayer_init_zero_heads in Hinit. discriminate. }
  assert (Hp : 0 <= p <= 1).
  { unfold TransformerEncoderLayer.__init__ in Hinit.
    apply bind_inv in Hinit as (dk & s1 & _ & Hinit).
    apply bind_inv in Hinit as (m & s2 & _ & Hinit).
    apply bind_inv in Hinit as (r & s3 & Hr & _).
    exact (Residual_init_inv _ _ _ _ _ _ Hr). }
  destruct (TransformerEncoderLayer_init_ok D H F p st HH Hp) as (l' & st'' & E & Hwf & Hd).
  rewrite E in Hinit. inversion Hinit; subst. split; assumption.
Qed.

Lemma TransformerDecoderLayer_init_inv (D H F : nat) (p : R) (st st' : State)
    (l : TransformerDecoderLayer.t) :
  TransformerDecoderLayer.__init__ D H F p st = (Ok l, st') ->
  wf_decoder_layer D l /\ decoder_layer_dims H D (D / H) (D / H) l.
Proof.
  intros Hinit.
  assert (HH : H <> O).
  { intros ->. rewrite TransformerDecoderLayer_init_zero_heads in Hinit. discriminate. }
  assert (Hp : 0 <= p <= 1).
  { unfold TransformerDecoderLayer.__init__ in Hinit.
    apply bind_inv in Hinit as (dk & s1 & _ & Hinit).
    apply bind_inv in Hinit as (m & s2 & _ & Hinit).
    apply bind_inv in Hinit as (r & s3 & Hr & _).
    exact (Residual_init_inv _ _ _ _ _ _ Hr). }
  destruct (TransformerDecoderLayer_init_ok D H F p st HH Hp) as (l' & st'' & E & Hwf & Hd).
  rewrite E in Hinit. inversion Hinit; subst. split; assumption.
Qed.

Lemma Transformer_init_inv (Ne Nd D H F : nat) (p : R) (st st' : State)
    (m : Transformer.t) :
  Transformer.__init__ Ne Nd D H F p st = (Ok m, st') ->
  wf_transformer D m /\
  length (TransformerEncoder.layers (Transformer.encoder m)) = Ne /\
  length (TransformerDecoder.layers (Transformer.decoder m)) = Nd.
Proof.
  unfold Transformer.__init__, TransformerEncoder.__init__, TransformerDecoder.__init__.
  intros Hinit.
  apply bind_inv in Hinit as (e & s1 & He & Hinit).
  apply bind_inv in He as (els & s1' & Hels & He). inversion He; subst. clear He.
  apply bind_inv in Hinit as (d & s2 & Hd & Hinit). inversion Hinit; subst. clear Hinit.
  apply bind_inv in Hd as (dls & s2' & Hdls & Hd).
  apply bind_inv in Hd as (lin & s3 & Hlin & Hd). inversion Hd; subst. clear Hd.
  destruct (replicateM_inv (wf_encoder_layer D) _
              (fun st a st' Ha => proj1 (TransformerEncoderLayer_init_inv D H F p st st' a Ha))
              _ _ _ _ Hels) as [We Le].
  destruct (replicateM_inv (wf_decoder_layer D) _
              (fun st a st' Ha => proj1 (TransformerDecoderLayer_init_inv D H F p st st' a Ha))
              _ _ _ _ Hdls) as [Wd Ld].
  destruct (Linear_init_ok D D s2') as (lin' & s3' & El & Wl).
  rewrite El in Hlin. inversion Hlin; subst.
  repeat split; simpl; assumption || apply Wl.
Qed.

(** ** Evaluation mode keeps the parameters *)

Lemma wf_encoder_layer_eval (D : nat) (l : TransformerEncoderLayer.t) :
  wf_encoder_layer D l -> wf_encoder_layer D (TransformerEncoderLayer.eval l).
Proof. intros [[? ?] [? ?]]. repeat split; assumption. Qed.

Lemma wf_decoder_layer_eval (D : nat) (l : TransformerDecoderLayer.t) :
  wf_decoder_layer D l -> wf_decoder_layer D (TransformerDecoderLayer.eval l).
Proof. intros ([? ?] & [? ?] & [? ?]). repeat split; assumption. Qed.

Lemma wf_transformer_eval (D : nat) (m : Transformer.t) :
  wf_transformer D m -> wf_transformer D (Transformer.eval m).
Proof.
  intros [He [Hd Hl]]. split; [| split; [| exact Hl]].
  - unfold wf_encoder. simpl. apply Forall_map.
    eapply Forall_impl; [exact He |]. intros l. apply wf_encoder_layer_eval.
  - simpl. apply Forall_map.
    eapply Forall_impl; [exact Hd |]. intros l. apply wf_decoder_layer_eval.
Qed.

(** ** Source and target of different lengths *)

Lemma Transformer_forward_mismatch (m : Transformer.t) (D B Ls Lt : nat)
    (src tgt : nat) (s t : Tensor) (st : State) :
  wf_transformer D m ->
  heap st !! src = Some s -> shape s = (B, Ls, D) ->
  heap st !! tgt = Some t -> shape t = (B, Lt, D) ->
  TransformerDecoder.layers (Transformer.decoder m) <> [] -> Ls <> Lt ->
  exists st', Transformer.forward m src tgt st = (Raise RuntimeError, st').
Proof.
  intros [Henc [Hdl Hlin]] Hsrc Ss Htgt St Hlayers Hne.
  assert (Hst : src <> tgt).
  { intros ->. rewrite Hsrc in Htgt. inversion Htgt; subst. rewrite Ss in St.
    inversion St. contradiction. }
  pose proof (lookup_lt_Some _ _ _ Htgt) as Htl.
  destruct (TransformerEncoder_forward_ok _ D B Ls src s st Henc Hsrc Ss)
    as (r1 & st1 & mem & extra1 & E1 & Hh1 & Hr1 & Smem & _).
  assert (Ht1 : heap st1 !! tgt = Some t).
  { rewrite Hh1. apply lookup_app_l_Some.
    rewrite list_lookup_insert_ne by exact Hst. exact Htgt. }
  assert (Hrt : r1 <> tgt).
  { intros ->. rewrite Ht1 in Hr1. inversion Hr1; subst. rewrite Smem in St.
    inversion St. contradiction. }
  set (st2 := mkState (<[tgt := with_position_encoding t]> (heap st1)) (rng st1)).
  assert (Ht2 : heap st2 !! tgt = Some (with_position_encoding t)).
  { simpl. apply list_lookup_insert_eq. apply lookup_lt_Some in Ht1. exact Ht1. }
  assert (Hm2 : heap st2 !! r1 = Some mem).
  { simpl. rewrite list_lookup_insert_ne by congruence. exact Hr1. }
  destruct (TransformerDecoder.layers (Transformer.decoder m)) as [| l rest] eqn:El;
    [contradiction |].
  inversion Hdl as [| ? ? Hl _]; subst.
  destruct (TransformerDecoderLayer_forward_mismatch l D B Ls Lt
              (with_position_encoding t) mem st2 Hl St Smem Hne) as (st3 & E3 & _).
  exists st3.
  unfold Transformer.forward. rewrite (bind_ok _ _ _ _ _ E1).
  unfold TransformerDecoder.forward.
  rewrite (bind_ok _ _ _ _ _ (load_ok tgt t st1 Ht1)).
  rewrite (bind_ok _ _ _ _ _ (iadd_position_encoding tgt t st1 Ht1)).
  apply bind_raise. rewrite El. simpl.
  rewrite (bind_ok _ _ _ _ _ (load_ok tgt _ st2 Ht2)).
  rewrite (bind_ok _ _ _ _ _ (load_ok r1 _ st2 Hm2)).
  apply bind_raise. exact E3.
Qed.

(** ** Construction and the head count *)

(** C7 fails on the code: the constructors with their own default
    arguments ([dim_model = 512], [num_heads = 6]) return a model, and 6
    does not divide 512. *)
Lemma C7_counterexample :
  (512 mod 6 <> 0)%nat /\
  (exists l st', TransformerEncoderLayer.__init__ 512 6 2048 0.1 st_empty = (Ok l, st')) /\
  (exists l st', TransformerDecoderLayer.__init__ 512 6 2048 0.1 st_empty = (Ok l, st')) /\
  (exists m st', Transformer.__init__ 6 6 512 6 2048 0.1 st_empty = (Ok m, st')).
Proof.
  assert (Hp : 0 <= 0.1 <= 1) by lra.
  split; [vm_compute; discriminate |].
  split; [| split].
  - destruct (TransformerEncoderLayer_init_ok 512 6 2048 0.1 st_empty ltac:(lia) Hp)
      as (l & st' & E & _).
    exists l, st'. exact E.
  - destruct (TransformerDecoderLayer_init_ok 512 6 2048 0.1 st_empty ltac:(lia) Hp)
      as (l & st' & E & _).
    exists l, st'. exact E.
  - destruct (Transformer_init_ok 6 6 512 6 2048 0.1 st_empty ltac:(lia) Hp)
      as (m & st' & E & _).
    exists m, st'. exact E.
Qed.

(** C7 as the code has it: no constructor checks divisibility.  With at
    least one head and a dropout rate in [0, 1], whether or not
    [num_heads] divides [dim_model], the encoder layer, the decoder layer
    and the transformer are constructed, every attention having
    [num_heads] heads that project to [dim_model // num_heads] (the floor
    of the quotient).  A layer constructor raises on the head count only
    when it is 0, by the division. *)
Theorem C7_construction_floor_division (D H F : nat) (p : R) (st : State) :
  (H <> O -> 0 <= p <= 1 ->
   (exists l st', TransformerEncoderLayer.__init__ D H F p st = (Ok l, st') /\
                  encoder_layer_dims H D (D / H) (D / H) l) /\
   (exists l st', TransformerDecoderLayer.__init__ D H F p st = (Ok l, st') /\
                  decoder_layer_dims H D (D / H) (D / H) l) /\
   (forall Ne Nd, exists m st',
      Transformer.__init__ Ne Nd D H F p st = (Ok m, st') /\
      length (TransformerEncoder.layers (Transformer.encoder m)) = Ne /\
      length (TransformerDecoder.layers (Transformer.decoder m)) = Nd /\
      Forall (encoder_layer_dims H D (D / H) (D / H))
        (TransformerEncoder.layers (Transformer.encoder m)) /\
      Forall (decoder_layer_dims H D (D / H) (D / H))
        (TransformerDecoder.layers (Transformer.decoder m)))) /\
  TransformerEncoderLayer.__init__ D 0 F p st = (Raise ZeroDivisionError, st) /\
  TransformerDecoderLayer.__init__ D 0 F p st = (Raise ZeroDivisionError, st).
Proof.
  split; [| split; reflexivity].
  intros HH Hp. split; [| split].
  - destruct (TransformerEncoderLayer_init_ok D H F p st HH Hp) as (l & st' & E & _ & Hd).
    exists l, st'. split; assumption.
  - destruct (TransformerDecoderLayer_init_ok D H F p st HH Hp) as (l & st' & E & _ & Hd).
    exists l, st'. split; assumption.
  - intros Ne Nd.
    destruct (Transformer_init_ok Ne Nd D H F p st HH Hp)
      as (m & st' & E & _ & Le & Ld & De & Dd).
    exists m, st'. repeat split; assumption.
Qed.

Lemma C7_construction_floor_division_witness :
  exists l st', TransformerEncoderLayer.__init__ 512 6 2048 0.1 st_empty = (Ok l, st') /\
                encoder_layer_dims 6 512 85 85 l.
Proof.
  destruct (C7_construction_floor_division 512 6 2048 0.1 st_empty) as [Hc _].
  destruct (Hc ltac:(lia) ltac:(lra)) as [(l & st' & E & Hd) _].
  exists l, st'. split; [exact E | exact Hd].
Defined.

(** ** The forward pass: success, shape, and the caller's tensors *)

(** C3 fails on the code: a source of length 2 and a target of length 1
    that share batch size 1 and [dim_model = 2], given to a transformer
    with one decoder layer, raise a [RuntimeError]. *)
Lemma C3_counterexample :
  exists m st1,
    Transformer.__init__ 1 1 2 1 4 0.1 st_empty = (Ok m, st1) /\
    let st := mkState [zeros 1 2 2; zeros 1 1 2] (rng st1) in
    heap st !! 0%nat = Some (zeros 1 2 2) /\ shape (zeros 1 2 2) = (1, 2, 2)%nat /\
    heap st !! 1%nat = Some (zeros 1 1 2) /\ shape (zeros 1 1 2) = (1, 1, 2)%nat /\
    exists st', Transformer.forward m 0 1 st = (Raise RuntimeError, st').
Proof.
  destruct (Transformer_init_ok 1 1 2 1 4 0.1 st_empty ltac:(lia) ltac:(lra))
    as (m & st1 & E & Hwf & _ & Ld & _).
  exists m, st1. split; [exact E |]. cbv zeta.
  repeat (split; [reflexivity |]).
  apply (Transformer_forward_mismatch m 2 1 2 1 0 1 (zeros 1 2 2) (zeros 1 1 2));
    try reflexivity; try exact Hwf.
  - intros Hnil. rewrite Hnil in Ld. discriminate.
  - lia.
Qed.

(** C3 as the code has it: for a constructed transformer and source and
    target tensors of shapes (batch, Ls, dim_model) and
    (batch, Lt, dim_model), the forward pass succeeds and returns a tensor
    of shape (batch, Lt, dim_model) when [Ls = Lt]; when the lengths
    differ and the decoder has a layer, it raises. *)
Theorem C3_forward_shape (Ne Nd D H F : nat) (p : R) (st0 st1 : State)
    (m : Transformer.t) (src tgt : nat) (s t : Tensor) (B Ls Lt : nat) (st : State) :
  Transformer.__init__ Ne Nd D H F p st0 = (Ok m, st1) ->
  heap st !! src = Some s -> shape s = (B, Ls, D) ->
  heap st !! tgt = Some t -> shape t = (B, Lt, D) ->
  (Ls = Lt ->
   exists r st' out,
     Transformer.forward m src tgt st = (Ok r, st') /\
     heap st' !! r = Some out /\ shape out = (B, Lt, D)) /\
  (Ls <> Lt -> Nd <> O ->
   exists st', Transformer.forward m src tgt st = (Raise RuntimeError, st')).
Proof.
  intros Hinit Hsrc Ss Htgt St.
  destruct (Transformer_init_inv _ _ _ _ _ _ _ _ _ Hinit) as (Hwf & Le & Ld).
  split.
  - intros HL.
    destruct (Transformer_forward_ok m D B Ls Lt src tgt s t st Hwf Hsrc Ss Htgt St
                (or_intror HL)) as (r & st' & out & extra & E & _ & Hr & So & _).
    exists r, st', out. repeat split; assumption.
  - intros Hne HNd.
    apply (Transformer_forward_mismatch m D B Ls Lt src tgt s t st Hwf Hsrc Ss Htgt St);
      [| exact Hne].
    intros Hnil. rewrite Hnil in Ld. simpl in Ld. congruence.
Qed.

Lemma C3_forward_shape_witness :
  exists m st1,
    Transformer.__init__ 2 2 4 2 8 0.1 st_empty = (Ok m, st1) /\
    exists r st' out,
      Transformer.forward m 0 1 (mkState [zeros 3 5 4; zeros 3 5 4] (rng st1)) = (Ok r, st') /\
      heap st' !! r = Some out /\ shape out = (3, 5, 4)%nat.
Proof.
  destruct (Transformer_init_ok 2 2 4 2 8 0.1 st_empty ltac:(lia) ltac:(lra))
    as (m & st1 & E & _).
  exists m, st1. split; [exact E |].
  exact (proj1 (C3_forward_shape 2 2 4 2 8 0.1 st_empty st1 m 0 1
                  (zeros 3 5 4) (zeros 3 5 4) 3 5 5
                  (mkState [zeros 3 5 4; zeros 3 5 4] (rng st1))
                  E eq_refl eq_refl eq_refl eq_refl) eq_refl).
Defined.

(** C5: the transformer constructed with 6 encoder layers, 6 decoder
    layers, [dim_model = 512] and 8 heads, put in evaluation mode and run
    on any source and target of shape (64, 16, 512), returns a tensor of
    shape (64, 16, 512) whose channel vector at every position sums to 1;
    the output is the softmax over the channels of the decoder's final
    linear projection. *)
Theorem C5_end_to_end (F : nat) (p : R) (st0 : State) :
  0 <= p <= 1 ->
  exists m st1,
    Transformer.__init__ 6 6 512 8 F p st0 = (Ok m, st1) /\
    forall (st : State) (src tgt : nat) (s t : Tensor),
      heap st !! src = Some s -> shape s = (64, 16, 512)%nat ->
      heap st !! tgt = Some t -> shape t = (64, 16, 512)%nat ->
      exists r st' out,
        Transformer.forward (Transformer.eval m) src tgt st = (Ok r, st') /\
        heap st' !! r = Some out /\ shape out = (64, 16, 512)%nat /\
        (forall i j, (i < 64)%nat -> (j < 16)%nat -> rsum 512 (item out i j) = 1) /\
        (exists y z,
           Linear.forward
             (TransformerDecoder.linear (Transformer.decoder (Transformer.eval m))) y = Ok z /\
           out = softmax z).
Proof.
  intros Hp.
  destruct (Transformer_init_ok 6 6 512 8 F p st0 ltac:(lia) Hp) as (m & st1 & E & Hwf & _).
  exists m, st1. split; [exact E |].
  intros st src tgt s t Hsrc Ss Htgt St.
  destruct (Transformer_forward_ok (Transformer.eval m) 512 64 16 16 src tgt s t st
              (wf_transformer_eval _ _ Hwf) Hsrc Ss Htgt St (or_intror eq_refl))
    as (r & st' & out & extra & Efw & _ & Hr & So & _ & Hsum & Hsm).
  exists r, st', out.
  split; [exact Efw |]. split; [exact Hr |]. split; [exact So |].
  split; [| exact Hsm].
  intros i j _ _. apply Hsum. lia.
Qed.

Lemma C5_end_to_end_witness :
  exists m st1,
    Transformer.__init__ 6 6 512 8 2048 0.1 st_empty = (Ok m, st1) /\
    exists r st' out,
      Transformer.forward (Transformer.eval m) 0 1
        (mkState [zeros 64 16 512; zeros 64 16 512] (rng st1)) = (Ok r, st') /\
      heap st' !! r = Some out /\ shape out = (64, 16, 512)%nat.
Proof.
  destruct (C5_end_to_end 2048 0.1 st_empty ltac:(lra)) as (m & st1 & E & Hfw).
  exists m, st1. split; [exact E |].
  destruct (Hfw (mkState [zeros 64 16 512; zeros 64 16 512] (rng st1)) 0%nat 1%nat
              (zeros 64 16 512) (zeros 64 16 512) eq_refl eq_refl eq_refl eq_refl)
    as (r & st' & out & Efw & Hr & So & _).
  exists r, st', out. repeat split; assumption.
Defined.

Lemma bidx_lt (n i : nat) : (i < n)%nat -> bidx n i = i.
Proof.
  intros Hi. unfold bidx. destruct (Nat.eqb_spec n 1) as [-> | _]; [lia | reflexivity].
Qed.

Lemma with_position_encoding_item (x : Tensor) (i j k : nat) :
  (i < size0 x)%nat -> (j < size1 x)%nat -> (k < size2 x)%nat ->
  item (with_position_encoding x) i j k
  = item x i j k + (if Nat.even k then sin 1 else cos 1).
Proof.
  intros Hi Hj Hk. simpl. unfold bitem. simpl size0. simpl size1. simpl size2.
  rewrite !bidx_lt by assumption. simpl item.
  rewrite phase_const by exact Hk. reflexivity.
Qed.

Lemma with_position_encoding_entry (x : Tensor) (i j k : nat) :
  (i < size0 x)%nat -> (j < size1 x)%nat -> (k < size2 x)%nat ->
  item (with_position_encoding x) i j k
  = item x i j k + item (position_encoding (size1 x) (size2 x)) 0 j k.
Proof.
  intros Hi Hj Hk. simpl item at 1. unfold bitem.
  rewrite !bidx_lt by assumption.
  change (size0 (position_encoding (size1 x) (size2 x))) with 1%nat.
  change (size1 (position_encoding (size1 x) (size2 x))) with (size1 x).
  change (size2 (position_encoding (size1 x) (size2 x))) with (size2 x).
  change (bidx 1 i) with O. rewrite ?bidx_lt by assumption. reflexivity.
Qed.

(** C6 fails on the code: after the forward pass of a one-layer
    transformer on two all-zero tensors of shape (1, 1, 2), the caller's
    source and target tensors hold sin(1) at entry (0, 0, 0). *)
Lemma C6_counterexample :
  exists m st1,
    Transformer.__init__ 1 1 2 1 4 0.1 st_empty = (Ok m, st1) /\
    let st := mkState [zeros 1 1 2; zeros 1 1 2] (rng st1) in
    exists r st' s' t',
      Transformer.forward m 0 1 st = (Ok r, st') /\
      heap st !! 0%nat = Some (zeros 1 1 2) /\ heap st !! 1%nat = Some (zeros 1 1 2) /\
      item (zeros 1 1 2) 0 0 0 = 0 /\
      heap st' !! 0%nat = Some s' /\ item s' 0 0 0 = sin 1 /\
      heap st' !! 1%nat = Some t' /\ item t' 0 0 0 = sin 1 /\
      sin 1 <> 0.
Proof.
  destruct (Transformer_init_ok 1 1 2 1 4 0.1 st_empty ltac:(lia) ltac:(lra))
    as (m & st1 & E & Hwf & _).
  exists m, st1. split; [exact E |]. cbv zeta.
  destruct (Transformer_forward_ok m 2 1 1 1 0 1 (zeros 1 1 2) (zeros 1 1 2)
              (mkState [zeros 1 1 2; zeros 1 1 2] (rng st1))
              Hwf eq_refl eq_refl eq_refl eq_refl (or_intror eq_refl))
    as (r & st' & out & extra & Efw & Hheap & _).
  simpl in Hheap.
  exists r, st', (with_position_encoding (zeros 1 1 2)),
    (with_position_encoding (zeros 1 1 2)).
  split; [exact Efw |]. split; [reflexivity |]. split; [reflexivity |].
  split; [reflexivity |].
  assert (Hitem : item (with_position_encoding (zeros 1 1 2)) 0 0 0 = sin 1).
  { rewrite with_position_encoding_item by (simpl; lia). simpl. lra. }
  split; [rewrite Hheap; reflexivity |]. split; [exact Hitem |].
  split; [rewrite Hheap; reflexivity |]. split; [exact Hitem |].
  pose proof sin_1_pos. lra.
Qed.

(** C6 as the code has it: when the forward pass returns, the encoder
    and the decoder have added [position_encoding(seq_len, dimension)],
    in place, to the caller's source and target tensors (distinct
    objects): every entry is its previous value plus the entry of the
    encoding at its position and channel.  Every other tensor that
    existed before the call is unchanged, and the result is a new
    object. *)
Theorem C6_forward_updates_inputs (Ne Nd D H F : nat) (p : R) (st0 st1 : State)
    (m : Transformer.t) (src tgt : nat) (s t : Tensor) (B Ls Lt : nat)
    (st st' : State) (r : nat) :
  Transformer.__init__ Ne Nd D H F p st0 = (Ok m, st1) ->
  heap st !! src = Some s -> shape s = (B, Ls, D) ->
  heap st !! tgt = Some t -> shape t = (B, Lt, D) ->
  src <> tgt ->
  Transformer.forward m src tgt st = (Ok r, st') ->
  heap st' !! src = Some (with_position_encoding s) /\
  heap st' !! tgt = Some (with_position_encoding t) /\
  (forall s', heap st' !! src = Some s' ->
     shape s' = (B, Ls, D) /\
     forall i j k, (i < B)%nat -> (j < Ls)%nat -> (k < D)%nat ->
       item s' i j k = item s i j k + item (position_encoding Ls D) 0 j k) /\
  (forall t', heap st' !! tgt = Some t' ->
     shape t' = (B, Lt, D) /\
     forall i j k, (i < B)%nat -> (j < Lt)%nat -> (k < D)%nat ->
       item t' i j k = item t i j k + item (position_encoding Lt D) 0 j k) /\
  (forall r', r' <> src -> r' <> tgt -> (r' < length (heap st))%nat ->
     heap st' !! r' = heap st !! r') /\
  (length (heap st) <= r)%nat.
Proof.
  intros Hinit Hsrc Ss Htgt St Hne Hfw.
  destruct (Transformer_init_inv _ _ _ _ _ _ _ _ _ Hinit) as (Hwf & _ & _).
  assert (HL : TransformerDecoder.layers (Transformer.decoder m) = [] \/ Ls = Lt).
  { destruct (TransformerDecoder.layers (Transformer.decoder m)) as [| l ls] eqn:El;
      [left; reflexivity | right].
    destruct (decide (Ls = Lt)) as [Heq | Hneq]; [exact Heq | exfalso].
    destruct (Transformer_forward_mismatch m D B Ls Lt src tgt s t st
                Hwf Hsrc Ss Htgt St) as (st'' & Eraise); [rewrite El; discriminate | exact Hneq |].
    rewrite Eraise in Hfw. discriminate. }
  destruct (Transformer_forward_ok m D B Ls Lt src tgt s t st Hwf Hsrc Ss Htgt St HL)
    as (r2 & st2 & out & extra & E & Hheap & _ & _ & Hlen & _).
  rewrite E in Hfw. inversion Hfw; subst r2 st2. clear Hfw.
  destruct (decide (src = tgt)) as [Heq | _]; [contradiction |].
  pose proof (lookup_lt_Some _ _ _ Hsrc) as Hsl.
  pose proof (lookup_lt_Some _ _ _ Htgt) as Htl.
  apply shape_inv in Ss as (s0 & s1 & s2). apply shape_inv in St as (t0 & t1 & t2).
  assert (Hs' : heap st' !! src = Some (with_position_encoding s)).
  { rewrite Hheap. apply lookup_app_l_Some.
    rewrite list_lookup_insert_ne by congruence.
    apply list_lookup_insert_eq. exact Hsl. }
  assert (Ht' : heap st' !! tgt = Some (with_position_encoding t)).
  { rewrite Hheap. apply lookup_app_l_Some.
    apply list_lookup_insert_eq. rewrite length_insert. exact Htl. }
  split; [exact Hs' |]. split; [exact Ht' |].
  split.
  { intros s' Es'. rewrite Hs' in Es'. inversion Es'; subst s'. clear Es'.
    split; [unfold shape; simpl; congruence |].
    intros i j k Hi Hj Hk. rewrite <- s1, <- s2.
    apply with_position_encoding_entry; congruence. }
  split.
  { intros t' Et'. rewrite Ht' in Et'. inversion Et'; subst t'. clear Et'.
    split; [unfold shape; simpl; congruence |].
    intros i j k Hi Hj Hk. rewrite <- t1, <- t2.
    apply with_position_encoding_entry; congruence. }
  split; [| exact Hlen].
  intros r' Hrs Hrt Hr'. rewrite Hheap.
  rewrite lookup_app_l by (rewrite !length_insert; exact Hr').
  rewrite !list_lookup_insert_ne by congruence. reflexivity.
Qed.

Lemma C6_forward_updates_inputs_witness :
  exists m st1 r st',
    Transformer.__init__ 1 1 2 1 4 0.1 st_empty = (Ok m, st1) /\
    Transformer.forward m 0 1 (mkState [zeros 1 1 2; zeros 1 1 2] (rng st1)) = (Ok r, st') /\
    heap st' !! 0%nat = Some (with_position_encoding (zeros 1 1 2)) /\
    heap st' !! 1%nat = Some (with_position_encoding (zeros 1 1 2)).
Proof.
  destruct (Transformer_init_ok 1 1 2 1 4 0.1 st_empty ltac:(lia) ltac:(lra))
    as (m & st1 & E & Hwf & _).
  destruct (Transformer_forward_ok m 2 1 1 1 0 1 (zeros 1 1 2) (zeros 1 1 2)
              (mkState [zeros 1 1 2; zeros 1 1 2] (rng st1))
              Hwf eq_refl eq_refl eq_refl eq_refl (or_intror eq_refl))
    as (r & st' & out & extra & Efw & _).
  exists m, st1, r, st'. split; [exact E |]. split; [exact Efw |].
  destruct (C6_forward_updates_inputs 1 1 2 1 4 0.1 st_empty st1 m 0 1
              (zeros 1 1 2) (zeros 1 1 2) 1 1 1
              (mkState [zeros 1 1 2; zeros 1 1 2] (rng st1)) st' r
              E eq_refl eq_refl eq_refl eq_refl ltac:(lia) Efw) as (Hs & Ht & _).
  split; [exact Hs | exact Ht].
Defined.

(** ** The residual wrapper *)

Lemma mean_ext (d : nat) (f g : nat -> R) :
  (forall c, (c < d)%nat -> f c = g c) -> LayerNorm.mean d f = LayerNorm.mean d g.
Proof. intros H. unfold LayerNorm.mean. rewrite (rsum_ext d f g H). reflexivity. Qed.

Lemma var_ext (d : nat) (f g : nat -> R) :
  (forall c, (c < d)%nat -> f c = g c) -> LayerNorm.var d f = LayerNorm.var d g.
Proof.
  intros H. unfold LayerNorm.var. rewrite (mean_ext d f g H).
  rewrite (rsum_ext d _ (fun c => (g c - LayerNorm.mean d g) ^ 2)); [reflexivity |].
  intros c Hc. rewrite (H c Hc). reflexivity.
Qed.

Lemma Dropout_forward_eval (d : Dropout.t) (x : Tensor) (st : State) :
  Dropout.forward (Dropout.eval d) x st = (Ok x, st).
Proof. reflexivity. Qed.

(** C8 fails on the code: the attention of [residual0] returns an
    all-zero tensor of the query's shape (1, 3, 2); the sum with the last
    argument, of shape (1, 1, 2), is broadcast, so the result has shape
    (1, 3, 2) and is not the layer normalisation of the last argument,
    whose shape is (1, 1, 2). *)
Lemma C8_counterexample :
  exists zero y n,
    call (Residual.sublayer residual0) [query0; memory0; memory0] = Ok zero /\
    (forall i j k, item zero i j k = 0) /\
    Residual.forward (Residual.eval residual0) [query0; memory0; memory0] st_empty
    = (Ok y, st_empty) /\
    LayerNorm.forward (Residual.norm residual0) memory0 = Ok n /\
    shape y = (1, 3, 2)%nat /\ shape n = (1, 1, 2)%nat /\
    ~ tensor_eq y n.
Proof.
  eexists _, _, _.
  split; [reflexivity |].
  split; [intros i j k; simpl; lra |].
  split; [reflexivity |].
  split; [reflexivity |].
  split; [reflexivity |].
  split; [reflexivity |].
  intros [Hshape _]. discriminate Hshape.
Qed.

(** C8 as the code has it: on a tuple of tensors whose last element is
    [base], [Residual.forward] is
    [norm(base + dropout(sublayer( *tensors)))], the sum being broadcast:
    every entry of a result is the normalisation, over the channels of
    its position, of the entries of [base] plus those of the dropped-out
    sublayer output.  In evaluation mode, when the sublayer returns an
    all-zero tensor of the shape of [base], the result is the layer
    normalisation of [base] (the same tensor, or the same exception).
    The normalisation's [eps] is positive, as [nn.LayerNorm]'s is, so
    that no divisor is 0. *)
Theorem C8_residual_forward {S} `{Callable S} (r : Residual.t S)
    (tensors : list Tensor) (base : Tensor) (st : State) :
  last tensors = Some base ->
  Residual.forward r tensors st
  = (let! out := lift (call (Residual.sublayer r) tensors) in
     let! dropped := Dropout.forward (Residual.dropout r) out in
     lift (let? sum := tensor_add base dropped in
           LayerNorm.forward (Residual.norm r) sum)) st
  /\
  (forall y st',
     0 < LayerNorm.eps (Residual.norm r) ->
     Residual.forward r tensors st = (Ok y, st') ->
     exists out dropped,
       call (Residual.sublayer r) tensors = Ok out /\
       Dropout.forward (Residual.dropout r) out st = (Ok dropped, st') /\
       broadcast_dim (size0 base) (size0 dropped) = Ok (size0 y) /\
       broadcast_dim (size1 base) (size1 dropped) = Ok (size1 y) /\
       broadcast_dim (size2 base) (size2 dropped) = Ok (size2 y) /\
       size2 y = LayerNorm.normalized_shape (Residual.norm r) /\
       forall i j k, (i < size0 y)%nat -> (j < size1 y)%nat -> (k < size2 y)%nat ->
         let v := fun c => bitem base i j c + bitem dropped i j c in
         let mu := rsum (size2 y) v / INR (size2 y) in
         let sigma2 := rsum (size2 y) (fun c => (v c - mu) ^ 2) / INR (size2 y) in
         item y i j k
         = (v k - mu) / sqrt (sigma2 + LayerNorm.eps (Residual.norm r))
           * LayerNorm.weight (Residual.norm r) k
           + LayerNorm.bias (Residual.norm r) k)
  /\
  (forall zero,
     0 < LayerNorm.eps (Residual.norm r) ->
     call (Residual.sublayer r) tensors = Ok zero ->
     shape zero = shape base ->
     (forall i j k, (i < size0 zero)%nat -> (j < size1 zero)%nat -> (k < size2 zero)%nat ->
        item zero i j k = 0) ->
     (forall n, LayerNorm.forward (Residual.norm r) base = Ok n ->
        exists y, Residual.forward (Residual.eval r) tensors st = (Ok y, st) /\
                  tensor_eq y n) /\
     (forall e, LayerNorm.forward (Residual.norm r) base = Raise e ->
        Residual.forward (Residual.eval r) tensors st = (Raise e, st))).
Proof.
  intros Hlast. split; [| split].
  - unfold Residual.forward, last_arg. rewrite Hlast.
    rewrite (bind_lift_ok _ _ _ base eq_refl).
    unfold bind, lift.
    destruct (call (Residual.sublayer r) tensors) as [out | e]; [| reflexivity].
    destruct (Dropout.forward (Residual.dropout r) out st) as [[dropped | e] st1];
      [| reflexivity].
    destruct (tensor_add base dropped) as [sum | e]; reflexivity.
  - intros y st' _ Hfw. unfold Residual.forward, last_arg in Hfw. rewrite Hlast in Hfw.
    rewrite (bind_lift_ok _ _ _ base eq_refl) in Hfw.
    apply bind_inv in Hfw as (out & s1 & Hcall & Hfw).
    unfold lift in Hcall.
    destruct (call (Residual.sublayer r) tensors) as [out' | e] eqn:Ec; [| discriminate].
    inversion Hcall; subst out' s1. clear Hcall.
    apply bind_inv in Hfw as (dropped & s2 & Hdrop & Hfw).
    apply bind_inv in Hfw as (sum & s3 & Hsum & Hfw).
    unfold lift in Hsum, Hfw.
    destruct (tensor_add base dropped) as [sum' | e] eqn:Ea; [| discriminate].
    inversion Hsum; subst sum' s3. clear Hsum.
    destruct (LayerNorm.forward (Residual.norm r) sum) as [y' | e] eqn:En; [| discriminate].
    inversion Hfw; subst y' s2. clear Hfw.
    exists out, dropped. split; [reflexivity |]. split; [exact Hdrop |].
    unfold tensor_add in Ea.
    destruct (broadcast_dim (size0 base) (size0 dropped)) as [d0 | e]; [| discriminate].
    destruct (broadcast_dim (size1 base) (size1 dropped)) as [d1 | e]; [| discriminate].
    destruct (broadcast_dim (size2 base) (size2 dropped)) as [d2 | e]; [| discriminate].
    simpl in Ea. inversion Ea; subst sum. clear Ea.
    unfold LayerNorm.forward in En. simpl size2 in En.
    destruct (Nat.eqb_spec d2 (LayerNorm.normalized_shape (Residual.norm r)))
      as [Hd | Hd]; [| discriminate].
    inversion En; subst y. clear En. simpl.
    split; [reflexivity |]. split; [reflexivity |]. split; [reflexivity |].
    split; [exact Hd |]. intros i j k _ _ _. reflexivity.
  - intros zero _ Hcall Hshape Hzero.
    destruct (tensor_add_same base zero) as (sum & Es & Ss & Is); [congruence |].
    assert (Hsum2 : size2 sum = size2 base).
    { apply (f_equal (fun q => snd q)) in Ss. exact Ss. }
    assert (Hfw : Residual.forward (Residual.eval r) tensors st
                  = (LayerNorm.forward (Residual.norm r) sum, st)).
    { unfold Residual.forward, last_arg. rewrite Hlast.
      rewrite (bind_lift_ok _ _ _ base eq_refl).
      simpl Residual.sublayer. rewrite (bind_lift_ok _ _ _ zero Hcall).
      simpl Residual.dropout.
      rewrite (bind_ok _ _ _ _ _ (Dropout_forward_eval _ zero st)).
      rewrite (bind_lift_ok _ _ _ sum Es). reflexivity. }
    rewrite Hfw. unfold LayerNorm.forward. rewrite Hsum2.
    destruct (Nat.eqb_spec (size2 base) (LayerNorm.normalized_shape (Residual.norm r)))
      as [Hnorm | Hnorm].
    + split; [| intros e He; discriminate].
      intros n En. inversion En; subst n. clear En.
      eexists. split; [reflexivity |].
      unfold shape in Ss, Hshape. inversion Ss as [[Hs0 Hs1 Hs2]].
      inversion Hshape as [[Hz0 Hz1 Hz2]].
      split; [unfold shape; simpl; congruence |].
      simpl size0. simpl size1. simpl size2. intros i j k Hi Hj Hk. simpl item.
      assert (Hrow : forall c, (c < size2 base)%nat -> item sum i j c = item base i j c).
      { intros c Hc. rewrite Is. unfold bitem.
        rewrite !bidx_lt by congruence. rewrite Hzero by congruence. lra. }
      rewrite Hs2.
      rewrite (mean_ext _ _ _ Hrow), (var_ext _ _ _ Hrow), (Hrow k) by congruence.
      reflexivity.
    + split; [intros n En; discriminate |].
      intros e He. inversion He; subst e. reflexivity.
Qed.

Lemma C8_residual_forward_witness :
  let r := Residual.mk tt (LayerNorm.mk 2 (fun _ => 1) (fun _ => 0) 1e-5)
             (Dropout.mk 0.1 true) in
  let x := mkTensor 1 1 2 (fun _ _ c => INR c) in
  exists y n,
    @Residual.forward unit zero_sublayer (Residual.eval r) [x; x; x] st_empty
    = (Ok y, st_empty) /\
    LayerNorm.forward (Residual.norm r) x = Ok n /\ tensor_eq y n.
Proof.
  intros r x.
  destruct (@C8_residual_forward unit zero_sublayer r [x; x; x] x st_empty eq_refl)
    as (_ & _ & Hzero).
  destruct (Hzero (zeros 1 1 2) ltac:(simpl; lra) eq_refl eq_refl
              (fun _ _ _ _ _ _ => eq_refl))
    as [Hok _].
  edestruct Hok as (y & Ey & Hy); [reflexivity |].
  exists y. eexists. split; [exact Ey |]. split; [reflexivity | exact Hy].
Defined.

(** ** Evaluation mode: the layers are pure *)

Lemma pure_comp_ret {A} (a : A) : pure_comp (ret a).
Proof. exists (Ok a). reflexivity. Qed.

Lemma pure_comp_lift {A} (r : result A) : pure_comp (lift r).
Proof. exists r. reflexivity. Qed.

Lemma pure_comp_bind {A B} (c : M A) (k : A -> M B) :
  pure_comp c -> (forall a, pure_comp (k a)) -> pure_comp (bind c k).
Proof.
  intros [r Hr] Hk. destruct r as [a | e].
  - destruct (Hk a) as [r' Hr']. exists r'. intros st.
    rewrite (bind_ok _ _ _ _ _ (Hr st)). apply Hr'.
  - exists (Raise e). intros st. apply bind_raise. apply Hr.
Qed.

Lemma Residual_forward_eval_pure {S} `{Callable S} (r : Residual.t S)
    (tensors : list Tensor) :
  pure_comp (Residual.forward (Residual.eval r) tensors).
Proof.
  unfold Residual.forward.
  apply pure_comp_bind; [apply pure_comp_lift | intros base].
  apply pure_comp_bind; [apply pure_comp_lift | intros out].
  apply pure_comp_bind; [apply pure_comp_ret | intros dropped].
  apply pure_comp_bind; [apply pure_comp_lift | intros sum].
  apply pure_comp_lift.
Qed.

Lemma TransformerEncoderLayer_eval_pure (l : TransformerEncoderLayer.t) (x : Tensor) :
  pure_comp (TransformerEncoderLayer.forward (TransformerEncoderLayer.eval l) x).
Proof.
  unfold TransformerEncoderLayer.forward. simpl.
  apply pure_comp_bind; [apply Residual_forward_eval_pure | intros y].
  apply Residual_forward_eval_pure.
Qed.

Lemma TransformerDecoderLayer_eval_pure (l : TransformerDecoderLayer.t)
    (x m : Tensor) :
  pure_comp (TransformerDecoderLayer.forward (TransformerDecoderLayer.eval l) x m).
Proof.
  unfold TransformerDecoderLayer.forward. simpl.
  apply pure_comp_bind; [apply Residual_forward_eval_pure | intros y].
  apply pure_comp_bind; [apply Residual_forward_eval_pure | intros z].
  apply Residual_forward_eval_pure.
Qed.

(** ** Evaluation mode: the result is a function of the input tensors *)

Lemma TransformerEncoder_loop_det (layers : list TransformerEncoderLayer.t) :
  Forall (fun l => forall x, pure_comp (TransformerEncoderLayer.forward l x)) layers ->
  forall x, exists v : result Tensor, forall src st,
    heap st !! src = Some x ->
    exists res st',
      TransformerEncoder.loop layers src st = (res, st') /\
      match v with
      | Ok y =>
          exists r extra,
            res = Ok r /\ heap st' = heap st ++ extra /\ heap st' !! r = Some y /\
            (layers = [] -> r = src) /\
            (layers <> [] -> length (heap st) <= r)%nat
      | Raise e => res = Raise e
      end.
Proof.
  induction 1 as [| l rest Hl Hrest IH]; intros x.
  - exists (Ok x). intros src st Hsrc. exists (Ok src), st. split; [reflexivity |].
    exists src, []. rewrite app_nil_r. repeat split; try assumption.
    intros Hc. contradiction.
  - destruct (Hl x) as [[y | e] Hy].
    + destruct (IH y) as [v Hv]. exists v. intros src st Hsrc.
      set (st2 := mkState (heap st ++ [y]) (rng st)).
      assert (H2 : heap st2 !! length (heap st) = Some y).
      { simpl. apply list_lookup_middle. reflexivity. }
      destruct (Hv _ _ H2) as (res & st' & E & Hpost).
      exists res, st'. split.
      { simpl. rewrite (bind_ok _ _ _ _ _ (load_ok src x st Hsrc)).
        rewrite (bind_ok _ _ _ _ _ (Hy st)).
        unfold bind at 1. unfold alloc at 1. exact E. }
      destruct v as [z | e]; [| exact Hpost].
      destruct Hpost as (r & extra & -> & Hheap & Hr & Hnil & Hcons).
      exists r, (y :: extra). split; [reflexivity |].
      split. { rewrite Hheap. simpl. rewrite <- app_assoc. reflexivity. }
      split; [exact Hr |]. split; [discriminate |]. intros _.
      destruct rest as [| l' rest'].
      * rewrite Hnil by reflexivity. lia.
      * assert (Hle : (length (heap st2) <= r)%nat) by (apply Hcons; discriminate).
        simpl in Hle. rewrite length_app in Hle. lia.
    + exists (Raise e). intros src st Hsrc. exists (Raise e), st. split; [| reflexivity].
      simpl. rewrite (bind_ok _ _ _ _ _ (load_ok src x st Hsrc)).
      apply bind_raise. apply Hy.
Qed.

Lemma TransformerDecoder_loop_det (layers : list TransformerDecoderLayer.t) :
  Forall (fun l => forall x m, pure_comp (TransformerDecoderLayer.forward l x m)) layers ->
  forall x m, exists v : result Tensor, forall tgt memory st,
    heap st !! tgt = Some x -> heap st !! memory = Some m ->
    exists res st',
      TransformerDecoder.loop layers tgt memory st = (res, st') /\
      match v with
      | Ok y =>
          exists r extra,
            res = Ok r /\ heap st' = heap st ++ extra /\ heap st' !! r = Some y
      | Raise e => res = Raise e
      end.
Proof.
  induction 1 as [| l rest Hl Hrest IH]; intros x m.
  - exists (Ok x). intros tgt memory st Htgt Hmem. exists (Ok tgt), st.
    split; [reflexivity |]. exists tgt, []. rewrite app_nil_r. repeat split; assumption.
  - destruct (Hl x m) as [[y | e] Hy].
    + destruct (IH y m) as [v Hv]. exists v. intros tgt memory st Htgt Hmem.
      set (st2 := mkState (heap st ++ [y]) (rng st)).
      assert (H2 : heap st2 !! length (heap st) = Some y).
      { simpl. apply list_lookup_middle. reflexivity. }
      assert (Hm2 : heap st2 !! memory = Some m).
      { simpl. apply lookup_app_l_Some. exact Hmem. }
      destruct (Hv _ _ _ H2 Hm2) as (res & st' & E & Hpost).
      exists res, st'. split.
      { simpl. rewrite (bind_ok _ _ _ _ _ (load_ok tgt x st Htgt)).
        rewrite (bind_ok _ _ _ _ _ (load_ok memory m st Hmem)).
        rewrite (bind_ok _ _ _ _ _ (Hy st)).
        unfold bind at 1. unfold alloc at 1. exact E. }
      destruct v as [z | e]; [| exact Hpost].
      destruct Hpost as (r & extra & -> & Hheap & Hr).
      exists r, (y :: extra). split; [reflexivity |].
      split; [| exact Hr]. rewrite Hheap. simpl. rewrite <- app_assoc. reflexivity.
    + exists (Raise e). intros tgt memory st Htgt Hmem. exists (Raise e), st.
      split; [| reflexivity].
      simpl. rewrite (bind_ok _ _ _ _ _ (load_ok tgt x st Htgt)).
      rewrite (bind_ok _ _ _ _ _ (load_ok memory m st Hmem)).
      apply bind_raise. apply Hy.
Qed.

Lemma TransformerDecoder_forward_det (d : TransformerDecoder.t) :
  Forall (fun l => forall x m, pure_comp (TransformerDecoderLayer.forward l x m))
    (TransformerDecoder.layers d) ->
  forall x m, exists v : result Tensor, forall tgt memory st,
    heap st !! tgt = Some x ->
    <[tgt := with_position_encoding x]> (heap st) !! memory = Some m ->
    outcome (TransformerDecoder.forward d tgt memory st) = v.
Proof.
  intros Hpure x m.
  destruct (TransformerDecoder_loop_det _ Hpure (with_position_encoding x) m) as [vl Hvl].
  assert (Hstep : forall tgt memory st,
            heap st !! tgt = Some x ->
            <[tgt := with_position_encoding x]> (heap st) !! memory = Some m ->
            exists res st',
              TransformerDecoder.loop (TransformerDecoder.layers d) tgt memory
                (mkState (<[tgt := with_position_encoding x]> (heap st)) (rng st))
              = (res, st') /\
              match vl with
              | Ok y => exists r, res = Ok r /\ heap st' !! r = Some y
              | Raise e => res = Raise e
              end).
  { intros tgt memory st Htgt Hmem.
    destruct (Hvl tgt memory
                (mkState (<[tgt := with_position_encoding x]> (heap st)) (rng st)))
      as (res & st' & E & Hpost); [| exact Hmem |].
    { simpl. apply list_lookup_insert_eq. apply lookup_lt_Some in Htgt. exact Htgt. }
    exists res, st'. split; [exact E |].
    destruct vl as [y | e]; [| exact Hpost].
    destruct Hpost as (r & extra & Hres & _ & Hr). exists r. split; assumption. }
  assert (Hrun : forall tgt st k,
            heap st !! tgt = Some x ->
            TransformerDecoder.forward d tgt k st
            = (let! tgt' := TransformerDecoder.loop (TransformerDecoder.layers d) tgt k in
               let! x' := load tgt' in
               let! y := lift (Linear.forward (TransformerDecoder.linear d) x') in
               alloc (softmax y))
                (mkState (<[tgt := with_position_encoding x]> (heap st)) (rng st))).
  { intros tgt st k Htgt. unfold TransformerDecoder.forward.
    rewrite (bind_ok _ _ _ _ _ (load_ok tgt x st Htgt)).
    rewrite (bind_ok _ _ _ _ _ (iadd_position_encoding tgt x st Htgt)). reflexivity. }
  destruct vl as [y | e].
  - destruct (Linear.forward (TransformerDecoder.linear d) y) as [z | e'] eqn:Ez.
    + exists (Ok (softmax z)). intros tgt memory st Htgt Hmem.
      destruct (Hstep tgt memory st Htgt Hmem) as (res & st' & E & r & -> & Hr).
      rewrite (Hrun tgt st memory Htgt).
      rewrite (bind_ok _ _ _ _ _ E), (bind_ok _ _ _ _ _ (load_ok r y st' Hr)).
      rewrite (bind_lift_ok _ _ _ _ Ez).
      unfold alloc, outcome. simpl.
      rewrite list_lookup_middle by reflexivity. reflexivity.
    + exists (Raise e'). intros tgt memory st Htgt Hmem.
      destruct (Hstep tgt memory st Htgt Hmem) as (res & st' & E & r & -> & Hr).
      rewrite (Hrun tgt st memory Htgt).
      rewrite (bind_ok _ _ _ _ _ E), (bind_ok _ _ _ _ _ (load_ok r y st' Hr)).
      rewrite (bind_lift_raise _ _ _ _ Ez). reflexivity.
  - exists (Raise e). intros tgt memory st Htgt Hmem.
    destruct (Hstep tgt memory st Htgt Hmem) as (res & st' & E & ->).
    rewrite (Hrun tgt st memory Htgt).
    rewrite (bind_raise _ _ _ _ _ E). reflexivity.
Qed.

Lemma Transformer_forward_det (m : Transformer.t) :
  Forall (fun l => forall x, pure_comp (TransformerEncoderLayer.forward l x))
    (TransformerEncoder.layers (Transformer.encoder m)) ->
  Forall (fun l => forall x mem, pure_comp (TransformerDecoderLayer.forward l x mem))
    (TransformerDecoder.layers (Transformer.decoder m)) ->
  forall (src tgt : nat) (s t : Tensor), exists v : result Tensor, forall st,
    heap st !! src = Some s -> heap st !! tgt = Some t ->
    outcome (Transformer.forward m src tgt st) = v.
Proof.
  intros Henc Hdec src tgt s t.
  destruct (TransformerEncoder_loop_det _ Henc (with_position_encoding s)) as [ve Hve].
  assert (Hrun : forall st, heap st !! src = Some s ->
            Transformer.forward m src tgt st
            = (let! memory :=
                 TransformerEncoder.loop
                   (TransformerEncoder.layers (Transformer.encoder m)) src in
               TransformerDecoder.forward (Transformer.decoder m) tgt memory)
                (mkState (<[src := with_position_encoding s]> (heap st)) (rng st))).
  { intros st Hsrc. unfold Transformer.forward, TransformerEncoder.forward.
    unfold bind at 1.
    rewrite (bind_ok _ _ _ _ _ (load_ok src s st Hsrc)).
    rewrite (bind_ok _ _ _ _ _ (iadd_position_encoding src s st Hsrc)). reflexivity. }
  destruct ve as [y | e].
  - set (t1 := if decide (src = tgt) then with_position_encoding s else t).
    set (m' := match TransformerEncoder.layers (Transformer.encoder m) with
               | [] => if decide (src = tgt) then with_position_encoding t1 else y
               | _ :: _ => y
               end).
    destruct (TransformerDecoder_forward_det _ Hdec t1 m') as [v Hv].
    exists v. intros st Hsrc Htgt.
    pose proof (lookup_lt_Some _ _ _ Hsrc) as Hsl.
    pose proof (lookup_lt_Some _ _ _ Htgt) as Htl.
    set (st1 := mkState (<[src := with_position_encoding s]> (heap st)) (rng st)).
    assert (H1 : heap st1 !! src = Some (with_position_encoding s)).
    { simpl. apply list_lookup_insert_eq. exact Hsl. }
    destruct (Hve src st1 H1) as (res & st2 & E & r & extra & -> & Hheap & Hr & Hnil & Hcons).
    rewrite (Hrun st Hsrc). fold st1. rewrite (bind_ok _ _ _ _ _ E).
    assert (Ht2 : heap st2 !! tgt = Some t1).
    { rewrite Hheap. apply lookup_app_l_Some. simpl. unfold t1.
      destruct (decide (src = tgt)) as [<- | Hne].
      - apply list_lookup_insert_eq. exact Hsl.
      - rewrite list_lookup_insert_ne by exact Hne. exact Htgt. }
    apply Hv; [exact Ht2 |].
    unfold m'. destruct (TransformerEncoder.layers (Transformer.encoder m)) as [| l ls].
    + rewrite (Hnil eq_refl) in *. destruct (decide (src = tgt)) as [<- | Hne].
      * apply list_lookup_insert_eq. apply lookup_lt_Some in Ht2. exact Ht2.
      * rewrite list_lookup_insert_ne by congruence. exact Hr.
    + assert (Hle : (length (heap st1) <= r)%nat) by (apply Hcons; discriminate).
      simpl in Hle. rewrite length_insert in Hle.
      rewrite list_lookup_insert_ne by lia. exact Hr.
  - exists (Raise e). intros st Hsrc Htgt.
    pose proof (lookup_lt_Some _ _ _ Hsrc) as Hsl.
    set (st1 := mkState (<[src := with_position_encoding s]> (heap st)) (rng st)).
    assert (H1 : heap st1 !! src = Some (with_position_encoding s)).
    { simpl. apply list_lookup_insert_eq. exact Hsl. }
    destruct (Hve src st1 H1) as (res & st2 & E & ->).
    rewrite (Hrun st Hsrc). fold st1. rewrite (bind_raise _ _ _ _ _ E). reflexivity.
Qed.

(** ** Construction reads the generator only *)

Lemma rng_only_ret {A} (a : A) : rng_only (ret a).
Proof. intros st1 st2 H. split; [reflexivity | exact H]. Qed.

Lemma rng_only_raise {A} (e : Error) : rng_only (@raise A e).
Proof. intros st1 st2 H. split; [reflexivity | exact H]. Qed.

Lemma rng_only_lift {A} (r : result A) : rng_only (lift r).
Proof. intros st1 st2 H. split; [reflexivity | exact H]. Qed.

Lemma rng_only_draw : rng_only draw.
Proof. intros st1 st2 H. unfold draw. simpl. rewrite H. split; reflexivity. Qed.

Lemma rng_only_bind {A B} (c : M A) (k : A -> M B) :
  rng_only c -> (forall a, rng_only (k a)) -> rng_only (bind c k).
Proof.
  intros Hc Hk st1 st2 H. unfold bind.
  destruct (Hc st1 st2 H) as [Hfst Hrng].
  destruct (c st1) as [r1 s1], (c st2) as [r2 s2]. simpl in Hfst, Hrng. subst r2.
  destruct r1 as [a | e].
  - apply Hk. exact Hrng.
  - split; [reflexivity | exact Hrng].
Qed.

Lemma rng_only_replicateM {A} (c : M A) (n : nat) :
  rng_only c -> rng_only (replicateM n c).
Proof.
  intros Hc. induction n as [| n IH]; simpl.
  - apply rng_only_ret.
  - apply rng_only_bind; [exact Hc | intros x].
    apply rng_only_bind; [exact IH | intros xs]. apply rng_only_ret.
Qed.

Lemma rng_only_Dropout_init (p : R) : rng_only (Dropout.__init__ p).
Proof.
  unfold Dropout.__init__.
  destruct (Rlt_dec p 0); [apply rng_only_raise |].
  destruct (Rlt_dec 1 p); [apply rng_only_raise | apply rng_only_ret].
Qed.

Ltac rng_only_step :=
  first
    [ apply rng_only_ret
    | apply rng_only_raise
    | apply rng_only_lift
    | apply rng_only_draw
    | apply rng_only_Dropout_init
    | apply rng_only_replicateM
    | apply rng_only_bind; [| intro] ].

Lemma rng_only_Linear_init (i o : nat) : rng_only (Linear.__init__ i o).
Proof. unfold Linear.__init__. repeat rng_only_step. Qed.

Lemma rng_only_MultiHeadAttention_init (H D dk dv : nat) :
  rng_only (MultiHeadAttention.__init__ H D dk dv).
Proof.
  unfold MultiHeadAttention.__init__, AttentionHead.__init__.
  repeat first [apply rng_only_Linear_init | rng_only_step].
Qed.

Lemma rng_only_Residual_init {S} (sub : S) (D : nat) (p : R) :
  rng_only (Residual.__init__ sub D p).
Proof. unfold Residual.__init__, LayerNorm.__init__. repeat rng_only_step. Qed.

Lemma rng_only_feed_forward (D F : nat) : rng_only (feed_forward D F).
Proof. unfold feed_forward. repeat first [apply rng_only_Linear_init | rng_only_step]. Qed.

Lemma rng_only_TransformerEncoderLayer_init (D H F : nat) (p : R) :
  rng_only (TransformerEncoderLayer.__init__ D H F p).
Proof.
  unfold TransformerEncoderLayer.__init__.
  repeat first [apply rng_only_MultiHeadAttention_init | apply rng_only_Residual_init
               | apply rng_only_feed_forward | rng_only_step].
Qed.

Lemma rng_only_TransformerDecoderLayer_init (D H F : nat) (p : R) :
  rng_only (TransformerDecoderLayer.__init__ D H F p).
Proof.
  unfold TransformerDecoderLayer.__init__.
  repeat first [apply rng_only_MultiHeadAttention_init | apply rng_only_Residual_init
               | apply rng_only_feed_forward | rng_only_step].
Qed.

Lemma rng_only_Transformer_init (Ne Nd D H F : nat) (p : R) :
  rng_only (Transformer.__init__ Ne Nd D H F p).
Proof.
  unfold Transformer.__init__, TransformerEncoder.__init__, TransformerDecoder.__init__.
  repeat first [apply rng_only_TransformerEncoderLayer_init
               | apply rng_only_TransformerDecoderLayer_init
               | apply rng_only_Linear_init | rng_only_step].
Qed.

(** ** Determinism *)

(** C9: two transformers constructed with the same configuration from
    the same generator state have the same parameters, and in evaluation
    mode their forward passes on the same source and target tensors hand
    back the same result (the same tensor, or the same exception),
    whatever else the two states hold and whatever their generators
    are. *)
Theorem C9_forward_deterministic (Ne Nd D H F : nat) (p : R)
    (sa sb sa' sb' : State) (m1 m2 : Transformer.t)
    (src tgt : nat) (s t : Tensor) (st1 st2 : State) :
  rng sa = rng sb ->
  Transformer.__init__ Ne Nd D H F p sa = (Ok m1, sa') ->
  Transformer.__init__ Ne Nd D H F p sb = (Ok m2, sb') ->
  heap st1 !! src = Some s -> heap st1 !! tgt = Some t ->
  heap st2 !! src = Some s -> heap st2 !! tgt = Some t ->
  m1 = m2 /\
  outcome (Transformer.forward (Transformer.eval m1) src tgt st1)
  = outcome (Transformer.forward (Transformer.eval m2) src tgt st2).
Proof.
  intros Hrng H1 H2 Hs1 Ht1 Hs2 Ht2.
  assert (Hm : m1 = m2).
  { destruct (rng_only_Transformer_init Ne Nd D H F p sa sb Hrng) as [Hfst _].
    rewrite H1, H2 in Hfst. simpl in Hfst. inversion Hfst. reflexivity. }
  split; [exact Hm |]. subst m2.
  destruct (Transformer_forward_det (Transformer.eval m1)) with (src := src) (tgt := tgt)
    (s := s) (t := t) as [v Hv].
  - simpl. apply Forall_map. apply Forall_forall. intros l _ x.
    apply TransformerEncoderLayer_eval_pure.
  - simpl. apply Forall_map. apply Forall_forall. intros l _ x mem.
    apply TransformerDecoderLayer_eval_pure.
  - rewrite (Hv st1 Hs1 Ht1), (Hv st2 Hs2 Ht2). reflexivity.
Qed.

(** ** The decoder layer's cross-attention *)

Lemma mha2_forward (q k v : Tensor) :
  size2 q = 2%nat -> size2 k = 2%nat -> size2 v = 2%nat ->
  size0 q = size0 k -> size0 k = size0 v -> size1 k = 1%nat -> size1 v = 1%nat ->
  exists a, MultiHeadAttention.forward mha2 q k v = Ok a /\
            shape a = (size0 q, size1 q, 2%nat) /\
            forall i j c, (c < 2)%nat -> item a i j c = - item v i 0 c.
Proof.
  intros Hq2 Hk2 Hv2 Hqk Hkv Hk1 Hv1.
  unfold mha2, MultiHeadAttention.forward. simpl.
  unfold AttentionHead.forward, Linear.forward. simpl.
  rewrite Hq2, Hk2, Hv2. simpl.
  unfold scaled_dot_product_attention, bmm. simpl.
  rewrite Hqk, Nat.eqb_refl. simpl.
  rewrite Hk1, Hkv, Nat.eqb_refl. simpl. rewrite Hv1. simpl.
  eexists. split; [reflexivity|]. split; [unfold shape; simpl; congruence |].
  intros i j c Hc. simpl.
  match goal with |- context [exp ?a] => set (E := exp a); assert (HE : 0 < E) by apply exp_pos end.
  destruct c as [| [| c]]; [| | lia]; simpl; field; lra.
Qed.

Lemma mha2_forward_raise (q k v : Tensor) :
  size2 q <> 2%nat \/ (size2 k = 2%nat /\ size2 v = 2%nat /\ size0 q <> size0 k) ->
  exists e, MultiHeadAttention.forward mha2 q k v = Raise e.
Proof.
  intros H.
  unfold mha2, MultiHeadAttention.forward. simpl.
  unfold AttentionHead.forward, Linear.forward. simpl.
  destruct H as [H | (Hk & Hv & H)].
  - apply Nat.eqb_neq in H. rewrite H. simpl. eexists. reflexivity.
  - destruct (Nat.eqb_spec (size2 q) 2) as [Hq | Hq]; [| eexists; reflexivity].
    rewrite Hk, Hv. simpl. unfold scaled_dot_product_attention, bmm. simpl.
    apply Nat.eqb_neq in H. rewrite H. simpl. eexists. reflexivity.
Qed.

Lemma ln_std_forward (x : Tensor) :
  size2 x = 2%nat ->
  exists y, LayerNorm.forward ln_std x = Ok y /\ shape y = shape x /\
    forall i j,
      (item x i j 0 = item x i j 1 -> item y i j 0 = 0 /\ item y i j 1 = 0) /\
      (item x i j 0 <> item x i j 1 -> item y i j 0 <> item y i j 1 /\ item y i j 0 <> 0).
Proof.
  intros Hx. unfold LayerNorm.forward, ln_std. simpl. rewrite Hx. simpl.
  eexists. split; [reflexivity |]. split; [unfold shape; simpl; congruence |].
  intros i j. simpl. unfold LayerNorm.var, LayerNorm.mean. simpl.
  set (a := item x i j 0). set (b := item x i j 1).
  match goal with |- context [sqrt ?v] => set (V := v) end.
  assert (HV : 0 < sqrt V).
  { apply sqrt_lt_R0. unfold V.
    assert (0 <= (0 + (a - (0 + a + b) / (1 + 1)) * ((a - (0 + a + b) / (1 + 1)) * 1) +
       (b - (0 + a + b) / (1 + 1)) * ((b - (0 + a + b) / (1 + 1)) * 1)) / (1 + 1)); [| lra].
    apply Rmult_le_pos; [| lra].
    pose proof (Rle_0_sqr (a - (0 + a + b) / (1 + 1))) as H1.
    pose proof (Rle_0_sqr (b - (0 + a + b) / (1 + 1))) as H2.
    unfold Rsqr in H1, H2. lra. }
  split.
  - intros Hab. rewrite <- Hab. split; field; lra.
  - intros Hab.
    assert (H0 : (a - (0 + a + b) / (1 + 1)) / sqrt V * 1 + 0 = (a - b) / 2 * / sqrt V)
      by (field; lra).
    assert (H1 : (b - (0 + a + b) / (1 + 1)) / sqrt V * 1 + 0 = - ((a - b) / 2 * / sqrt V))
      by (field; lra).
    rewrite H0, H1.
    assert (Hnz : (a - b) / 2 * / sqrt V <> 0).
    { apply Rmult_integral_contrapositive_currified; [lra |].
      apply Rinv_neq_0_compat. lra. }
    split; lra.
Qed.

Lemma bidx_0 (n : nat) : bidx n 0 = 0%nat.
Proof. unfold bidx. destruct (n =? 1)%nat; reflexivity. Qed.

Lemma broadcast_dim_1_l (n : nat) : broadcast_dim 1 n = Ok n.
Proof.
  unfold broadcast_dim. destruct (Nat.eqb_spec 1 n) as [<- | Hne]; reflexivity.
Qed.

Lemma attention_1_layer0 (st : State) :
  exists t1,
    Residual.forward (TransformerDecoderLayer.attention_1 layer0) [tgt0; tgt0; tgt0] st
    = (Ok t1, st) /\
    shape t1 = (1, 1, 2)%nat /\
    forall i j, item t1 i j 0 = 1 /\ item t1 i j 1 = 0.
Proof.
  eexists. split; [reflexivity |]. split; [reflexivity |].
  intros i j. simpl. split; lra.
Qed.

Lemma feed_forward_layer0 (x : Tensor) :
  size2 x = 2%nat ->
  exists f,
    Sequential.forward
      (Residual.sublayer (TransformerDecoderLayer.feed_forward layer0)) x = Ok f /\
    shape f = shape x /\
    forall i j c, item f i j c = 0.
Proof.
  intros Hx. unfold Sequential.forward, Linear.forward. simpl. rewrite Hx. simpl.
  eexists. split; [reflexivity |]. split; [unfold shape; simpl; congruence |].
  intros i j c. simpl. lra.
Qed.

Lemma Residual_forward_steps {S} `{Callable S} (r : Residual.t S)
    (tensors : list Tensor) (base out : Tensor) (st : State) :
  last tensors = Some base ->
  call (Residual.sublayer r) tensors = Ok out ->
  Dropout.training (Residual.dropout r) = false ->
  Residual.forward r tensors st
  = (let? sum := tensor_add base out in LayerNorm.forward (Residual.norm r) sum, st).
Proof.
  intros Hlast Hcall Hdrop. unfold Residual.forward, last_arg. rewrite Hlast.
  rewrite (bind_lift_ok _ _ _ base eq_refl), (bind_lift_ok _ _ _ out Hcall).
  unfold Dropout.forward. rewrite Hdrop.
  unfold bind, ret, lift.
  destruct (tensor_add base out); reflexivity.
Qed.

(** The last residual block of [layer0] keeps apart rows whose two
    channels differ from rows whose two channels agree. *)
Lemma feed_forward_residual_layer0 (x : Tensor) (st : State) :
  size2 x = 2%nat ->
  exists y,
    Residual.forward (TransformerDecoderLayer.feed_forward layer0) [x] st = (Ok y, st) /\
    shape y = shape x /\
    (item x 0 0 0 = item x 0 0 1 -> item y 0 0 0 = 0) /\
    (item x 0 0 0 <> item x 0 0 1 -> item y 0 0 0 <> 0).
Proof.
  intros Hx.
  destruct (feed_forward_layer0 x Hx) as (f & Ef & Sf & If).
  destruct (tensor_add_same x f) as (sum & Es & Ss & Is); [congruence |].
  assert (Hs2 : size2 sum = 2%nat).
  { apply (f_equal (fun q => snd q)) in Ss. simpl in Ss. congruence. }
  destruct (ln_std_forward sum Hs2) as (y & Ey & Sy & Iy).
  exists y.
  assert (Ec : call (Residual.sublayer (TransformerDecoderLayer.feed_forward layer0)) [x]
               = Ok f) by exact Ef.
  rewrite (Residual_forward_steps (TransformerDecoderLayer.feed_forward layer0)
             [x] x f st eq_refl Ec eq_refl).
  rewrite Es. simpl rbind. change (Residual.norm _) with ln_std. rewrite Ey.
  split; [reflexivity |]. split; [congruence |].
  assert (Hc : forall c, (c < 2)%nat -> item sum 0 0 c = item x 0 0 c).
  { intros c Hc. rewrite Is. unfold bitem. rewrite !bidx_0, If.
    unfold bidx. rewrite Hx. simpl. lra. }
  rewrite <- (Hc 0%nat), <- (Hc 1%nat) by lia.
  destruct (Iy 0%nat 0%nat) as [Hsame Hdiff].
  split; [intros E; exact (proj1 (Hsame E)) | intros E; exact (proj2 (Hdiff E))].
Qed.

Lemma layer0_code :
  exists y0,
    TransformerDecoderLayer.forward layer0 tgt0 memory0 st_empty = (Ok y0, st_empty) /\
    shape y0 = (1, 1, 2)%nat /\ item y0 0 0 0 = 0.
Proof.
  destruct (attention_1_layer0 st_empty) as (t1 & E1 & S1 & I1).
  pose proof S1 as S1'. apply shape_inv in S1' as (t10 & t11 & t12).
  destruct (mha2_forward memory0 memory0 t1 eq_refl eq_refl t12 eq_refl (eq_sym t10)
              eq_refl t11) as (a & Ea & Sa & Ia).
  simpl in Sa.
  destruct (tensor_add_same t1 a) as (sum & Es & Ss & Is); [congruence |].
  assert (Hs2 : size2 sum = 2%nat).
  { apply (f_equal (fun q => snd q)) in Ss. simpl in Ss. congruence. }
  destruct (ln_std_forward sum Hs2) as (t2 & E2 & S2 & I2).
  assert (Ht22 : size2 t2 = 2%nat).
  { apply (f_equal (fun q => snd q)) in S2. simpl in S2. congruence. }
  destruct (feed_forward_residual_layer0 t2 st_empty Ht22) as (y0 & E3 & S3 & Hsame & _).
  exists y0. split; [| split].
  - unfold TransformerDecoderLayer.forward. rewrite (bind_ok _ _ _ _ _ E1).
    assert (Ec : call (Residual.sublayer (TransformerDecoderLayer.attention_2 layer0))
                   [memory0; memory0; t1] = Ok a) by exact Ea.
    rewrite (bind_ok _ _ _ _ t2
               (eq_trans
                  (Residual_forward_steps (TransformerDecoderLayer.attention_2 layer0)
                     [memory0; memory0; t1] t1 a st_empty eq_refl Ec eq_refl)
                  ltac:(rewrite Es; simpl rbind; change (Residual.norm _) with ln_std;
                        rewrite E2; reflexivity))).
    exact E3.
  - congruence.
  - apply Hsame.
    assert (Hc : forall c, (c < 2)%nat -> item sum 0 0 c = 0).
    { intros c Hc. rewrite Is. unfold bitem. rewrite !bidx_0.
      apply shape_inv in Sa as (_ & _ & Sa2).
      unfold bidx. rewrite t12, Sa2. simpl. rewrite Ia by exact Hc.
      destruct (I1 0%nat 0%nat) as [H0 H1].
      destruct c as [| [| c]]; [rewrite H0 | rewrite H1 | lia]; lra. }
    destruct (I2 0%nat 0%nat) as [Hz _].
    destruct Hz as [Hz0 Hz1]; [rewrite !Hc by lia; reflexivity |].
    congruence.
Qed.

Lemma cross_attention_spec_eval (r : Residual.t MultiHeadAttention.t)
    (query memory tgt : Tensor) (st : State) :
  Dropout.training (Residual.dropout r) = false ->
  cross_attention_spec r query memory tgt st
  = (let? out := MultiHeadAttention.forward (Residual.sublayer r) query memory memory in
     let? sum := tensor_add tgt out in
     LayerNorm.forward (Residual.norm r) sum, st).
Proof.
  intros Hdrop. unfold cross_attention_spec, Dropout.forward. rewrite Hdrop.
  unfold bind, lift, ret.
  destruct (MultiHeadAttention.forward _ query memory memory) as [out | e];
    [| reflexivity].
  simpl. destruct (tensor_add tgt out); reflexivity.
Qed.

Lemma layer0_spec (query y' : Tensor) :
  fst (TransformerDecoderLayer_forward_spec layer0 query tgt0 memory0 st_empty) = Ok y' ->
  item y' 0 0 0 <> 0.
Proof.
  destruct (attention_1_layer0 st_empty) as (t1 & E1 & S1 & I1).
  apply shape_inv in S1 as (t10 & t11 & t12).
  unfold TransformerDecoderLayer_forward_spec.
  rewrite (bind_ok _ _ _ _ _ E1).
  unfold bind at 1.
  rewrite (cross_attention_spec_eval (TransformerDecoderLayer.attention_2 layer0)
             query memory0 t1 st_empty eq_refl).
  change (Residual.sublayer (TransformerDecoderLayer.attention_2 layer0)) with mha2.
  change (Residual.norm (TransformerDecoderLayer.attention_2 layer0)) with ln_std.
  destruct (Nat.eq_dec (size2 query) 2%nat) as [Hq2 | Hq2];
    [| destruct (mha2_forward_raise query memory0 memory0 (or_introl Hq2)) as [e ->];
       simpl; discriminate].
  destruct (Nat.eq_dec (size0 query) 1%nat) as [Hq0 | Hq0];
    [| destruct (mha2_forward_raise query memory0 memory0
                   (or_intror (conj eq_refl (conj eq_refl Hq0)))) as [e ->];
       simpl; discriminate].
  destruct (mha2_forward query memory0 memory0 Hq2 eq_refl eq_refl Hq0 eq_refl
              eq_refl eq_refl) as (a & -> & Sa & Ia).
  apply shape_inv in Sa as (a0 & a1 & a2).
  simpl rbind. unfold tensor_add.
  rewrite t10, t11, t12, a0, a2, Hq0, !broadcast_dim_1_l, ?broadcast_dim_refl.
  simpl rbind.
  match goal with |- context [LayerNorm.forward ln_std ?s] => set (sum := s) end.
  destruct (ln_std_forward sum eq_refl) as (t2 & -> & S2 & I2).
  assert (Ht22 : size2 t2 = 2%nat).
  { apply (f_equal (fun q => snd q)) in S2. exact S2. }
  destruct (feed_forward_residual_layer0 t2 st_empty Ht22) as (y & E3 & _ & _ & Hdiff).
  rewrite E3. simpl. intros Hy. inversion Hy; subst y'. apply Hdiff.
  destruct (I2 0%nat 0%nat) as [_ Hd]. apply Hd.
  unfold sum. simpl. unfold bitem. rewrite !bidx_0.
  unfold bidx. rewrite t12, a2. simpl. rewrite !Ia by lia. simpl.
  destruct (I1 0%nat 0%nat) as [H0 H1]. rewrite H0, H1. lra.
Qed.

(** C1 fails on the code: on [layer0] and two inputs of shape (1, 1, 2)
    the layer returns a tensor whose entry (0, 0, 0) is 0, and the layer
    whose cross-attention takes keys and values from the memory returns,
    whatever it is queried with, either an exception or a tensor whose
    entry (0, 0, 0) is not 0. *)
Lemma C1_counterexample :
  (exists y0,
     TransformerDecoderLayer.forward layer0 tgt0 memory0 st_empty = (Ok y0, st_empty) /\
     shape y0 = (1, 1, 2)%nat /\ item y0 0 0 0 = 0) /\
  (forall query y',
     fst (TransformerDecoderLayer_forward_spec layer0 query tgt0 memory0 st_empty) = Ok y' ->
     item y' 0 0 0 <> 0) /\
  ~ (exists query,
       TransformerDecoderLayer.forward layer0 tgt0 memory0 st_empty
       = TransformerDecoderLayer_forward_spec layer0 query tgt0 memory0 st_empty).
Proof.
  split; [exact layer0_code |]. split; [exact layer0_spec |].
  intros [query Heq].
  destruct layer0_code as (y0 & E & _ & H0).
  rewrite E in Heq. apply (layer0_spec query y0); [rewrite <- Heq; reflexivity | exact H0].
Qed.

Lemma bind_ext {A B} (c : M A) (k k' : A -> M B) (st : State) :
  (forall a st', k a st' = k' a st') -> bind c k st = bind c k' st.
Proof.
  intros Hk. unfold bind. destruct (c st) as [[a | e] st']; [apply Hk | reflexivity].
Qed.

(** C1 as the code has it: the second Residual Wrapper is called on
    [(memory, memory, tgt)], so it invokes multi-head attention with the
    query and the key taken from the encoder memory and the value taken
    from the self-attended target, and the self-attended target, being
    the last argument, is also the residual base. *)
Theorem C1_cross_attention_arguments (l : TransformerDecoderLayer.t)
    (tgt memory : Tensor) (st : State) :
  TransformerDecoderLayer.forward l tgt memory st
  = (let! tgt1 := Residual.forward (TransformerDecoderLayer.attention_1 l) [tgt; tgt; tgt] in
     let! out :=
       lift (MultiHeadAttention.forward
               (Residual.sublayer (TransformerDecoderLayer.attention_2 l))
               memory memory tgt1) in
     let! dropped :=
       Dropout.forward (Residual.dropout (TransformerDecoderLayer.attention_2 l)) out in
     let! sum := lift (tensor_add tgt1 dropped) in
     let! tgt2 :=
       lift (LayerNorm.forward (Residual.norm (TransformerDecoderLayer.attention_2 l)) sum) in
     Residual.forward (TransformerDecoderLayer.feed_forward l) [tgt2]) st.
Proof.
  unfold TransformerDecoderLayer.forward. apply bind_ext. intros tgt1 st1.
  unfold Residual.forward at 1. unfold last_arg. simpl last. simpl call.
  unfold bind, lift.
  destruct (MultiHeadAttention.forward _ memory memory tgt1) as [out | e]; [| reflexivity].
  destruct (Dropout.forward _ out st1) as [[dropped | e] st2]; [| reflexivity].
  destruct (tensor_add tgt1 dropped) as [sum | e]; [| reflexivity].
  destruct (LayerNorm.forward _ sum) as [tgt2 | e]; reflexivity.
Qed.

Lemma C9_forward_deterministic_witness :
  exists m sa',
    Transformer.__init__ 2 2 4 2 8 0.1 st_empty = (Ok m, sa') /\
    outcome (Transformer.forward (Transformer.eval m) 0 1
               (mkState [zeros 3 5 4; zeros 3 5 4] (fun _ _ _ _ => 0)))
    = outcome (Transformer.forward (Transformer.eval m) 0 1
                 (mkState [zeros 3 5 4; zeros 3 5 4; zeros 1 1 1] (fun _ _ _ _ => 1))).
Proof.
  destruct (Transformer_init_ok 2 2 4 2 8 0.1 st_empty ltac:(lia) ltac:(lra))
    as (m & sa' & E & _).
  exists m, sa'. split; [exact E |].
  exact (proj2 (C9_forward_deterministic 2 2 4 2 8 0.1 st_empty st_empty sa' sa' m m
                  0 1 (zeros 3 5 4) (zeros 3 5 4)
                  (mkState [zeros 3 5 4; zeros 3 5 4] (fun _ _ _ _ => 0))
                  (mkState [zeros 3 5 4; zeros 3 5 4; zeros 1 1 1] (fun _ _ _ _ => 1))
                  eq_refl E E eq_refl eq_refl eq_refl eq_refl)).
Defined.

(** ** More on the attention kernel *)

Lemma rsum_plus (n : nat) (f g : nat -> R) :
  rsum n (fun k => f k + g k) = rsum n f + rsum n g.
Proof. induction n as [| n IH]; simpl; [ring |]. rewrite IH. ring. Qed.

Lemma rsum_scal_l (n : nat) (f : nat -> R) (s : R) :
  rsum n (fun k => s * f k) = s * rsum n f.
Proof. induction n as [| n IH]; simpl; [ring |]. rewrite IH. ring. Qed.

Lemma rsum_nonneg (n : nat) (f : nat -> R) :
  (forall k, (k < n)%nat -> 0 <= f k) -> 0 <= rsum n f.
Proof.
  induction n as [| n IH]; intros Hf; simpl; [lra |].
  assert (0 <= rsum n f) by (apply IH; intros k Hk; apply Hf; lia).
  assert (0 <= f n) by (apply Hf; lia). lra.
Qed.

Lemma softmax_item_pos (t : Tensor) (i j k : nat) :
  (0 < size2 t)%nat -> 0 < item (softmax t) i j k.
Proof.
  intros Hn. simpl. apply Rdiv_lt_0_compat; [apply exp_pos |].
  apply rsum_pos; [exact Hn | intros c; apply exp_pos].
Qed.

Lemma rsum_ge_term (n : nat) (f : nat -> R) (k : nat) :
  (k < n)%nat -> (forall c, 0 <= f c) -> f k <= rsum n f.
Proof.
  intros Hk Hf. induction n as [| n IH]; [lia |]. simpl.
  destruct (decide (k = n)) as [-> | Hne].
  - assert (0 <= rsum n f) by (apply rsum_nonneg; intros; apply Hf). lra.
  - assert (f k <= rsum n f) by (apply IH; lia). specialize (Hf n). lra.
Qed.

Lemma softmax_item_le_1 (t : Tensor) (i j k : nat) :
  (k < size2 t)%nat -> item (softmax t) i j k <= 1.
Proof.
  intros Hk. simpl.
  assert (Hs : 0 < rsum (size2 t) (fun c => exp (item t i j c))).
  { apply rsum_pos; [lia | intros c; apply exp_pos]. }
  apply (Rmult_le_reg_r (rsum (size2 t) (fun c => exp (item t i j c)))); [exact Hs |].
  unfold Rdiv. rewrite Rmult_assoc, Rinv_l, Rmult_1_r, Rmult_1_l by lra.
  apply (rsum_ge_term _ (fun c => exp (item t i j c)) k Hk).
  intros c. left. apply exp_pos.
Qed.

(** A sum weighted by non-negative weights that add up to 1 stays
    between the bounds of its terms. *)
Lemma rsum_convex (n : nat) (w v : nat -> R) (lo hi : R) :
  (forall m, (m < n)%nat -> 0 <= w m) -> rsum n w = 1 ->
  (forall m, (m < n)%nat -> lo <= v m <= hi) ->
  lo <= rsum n (fun m => w m * v m) <= hi.
Proof.
  intros Hw Hsum Hv.
  assert (Hlo : 0 <= rsum n (fun m => w m * (v m - lo))).
  { apply rsum_nonneg. intros m Hm. apply Rmult_le_pos; [apply Hw; exact Hm |].
    specialize (Hv m Hm). lra. }
  assert (Hhi : 0 <= rsum n (fun m => w m * (hi - v m))).
  { apply rsum_nonneg. intros m Hm. apply Rmult_le_pos; [apply Hw; exact Hm |].
    specialize (Hv m Hm). lra. }
  rewrite (rsum_ext n _ (fun m => w m * v m + (- lo) * w m)) in Hlo
    by (intros; ring).
  rewrite (rsum_ext n _ (fun m => hi * w m + (-1) * (w m * v m))) in Hhi
    by (intros; ring).
  rewrite rsum_plus, rsum_scal_l, Hsum in Hlo.
  rewrite rsum_plus, !rsum_scal_l, Hsum in Hhi.
  lra.
Qed.

(** X1: the kernel returns a tensor exactly when the three batch sizes
    agree, the query and the key have the same feature size and the key
    and the value have the same length; the result then has the query's
    length and the value's feature size.  In every other case it raises
    a [RuntimeError]. *)
Theorem X1_attention_kernel_shape_check (Q K V : Tensor) :
  let ok := size0 Q = size0 K /\ size2 Q = size2 K /\
            size0 Q = size0 V /\ size1 K = size1 V in
  (ok -> exists out, scaled_dot_product_attention Q K V = Ok out /\
                     shape out = (size0 Q, size1 Q, size2 V)) /\
  (~ ok -> scaled_dot_product_attention Q K V = Raise RuntimeError).
Proof.
  cbv zeta. unfold scaled_dot_product_attention, bmm. simpl.
  destruct (Nat.eqb_spec (size0 Q) (size0 K)) as [H0 | H0];
    destruct (Nat.eqb_spec (size2 Q) (size2 K)) as [H1 | H1]; simpl;
    try (split; [intros (? & ? & ? & ?); contradiction | intros _; reflexivity]).
  destruct (Nat.eqb_spec (size0 Q) (size0 V)) as [H2 | H2];
    destruct (Nat.eqb_spec (size1 K) (size1 V)) as [H3 | H3]; simpl;
    try (split; [intros (? & ? & ? & ?); contradiction | intros _; reflexivity]).
  split.
  - intros _. eexists. split; reflexivity.
  - intros Hn. exfalso. apply Hn. repeat split; assumption.
Qed.

Lemma X1_attention_kernel_shape_check_witness :
  (exists out, scaled_dot_product_attention (zeros 2 3 4) (zeros 2 5 4) (zeros 2 5 6) = Ok out)
  /\ scaled_dot_product_attention (zeros 2 3 4) (zeros 2 5 4) (zeros 2 7 6)
     = Raise RuntimeError.
Proof.
  split.
  - destruct (proj1 (X1_attention_kernel_shape_check (zeros 2 3 4) (zeros 2 5 4) (zeros 2 5 6)))
      as (out & E & _); [repeat split |].
    exists out. exact E.
  - apply (proj2 (X1_attention_kernel_shape_check (zeros 2 3 4) (zeros 2 5 4) (zeros 2 7 6))).
    simpl. intros (_ & _ & _ & H). discriminate.
Defined.

(** X2: for a feature size [dk] that is not 0, every entry of the
    kernel's output is a convex combination of the value entries of its
    batch and channel: it lies between any two bounds that hold for
    them. *)
Theorem X2_attention_output_within_values (Q K V out : Tensor) (i j c : nat) (lo hi : R) :
  scaled_dot_product_attention Q K V = Ok out ->
  (0 < size2 Q)%nat ->
  (0 < size1 V)%nat ->
  (forall m, (m < size1 V)%nat -> lo <= item V i m c <= hi) ->
  lo <= item out i j c <= hi.
Proof.
  unfold scaled_dot_product_attention, bmm. simpl.
  destruct ((size0 Q =? size0 K)%nat && (size2 Q =? size2 K)%nat); [| discriminate].
  simpl.
  destruct (Nat.eqb_spec (size0 Q) (size0 V)) as [H2 | H2]; [| discriminate].
  destruct (Nat.eqb_spec (size1 K) (size1 V)) as [H3 | H3]; [| discriminate].
  simpl. intros Hout _ HLk Hv. inversion Hout; subst out. clear Hout. simpl.
  rewrite H3.
  set (t := div_scalar
              (mkTensor (size0 Q) (size1 Q) (size1 V)
                 (fun i j k => rsum (size2 Q) (fun m => item Q i j m * item K i k m)))
              (sqrt (INR (size2 Q)))).
  apply (rsum_convex (size1 V) (item (softmax t) i j) (fun m => item V i m c)).
  - intros m Hm. left. apply softmax_item_pos. exact HLk.
  - apply (softmax_row_sum t i j). exact HLk.
  - exact Hv.
Qed.

Lemma X2_attention_output_within_values_witness :
  exists out,
    scaled_dot_product_attention (zeros 1 2 3) (zeros 1 4 3)
      (mkTensor 1 4 2 (fun _ m _ => INR m)) = Ok out /\
    0 <= item out 0 1 0 <= 3.
Proof.
  eexists. split; [reflexivity |].
  apply (X2_attention_output_within_values (zeros 1 2 3) (zeros 1 4 3)
           (mkTensor 1 4 2 (fun _ m _ => INR m)) _ 0 1 0 0 3 eq_refl).
  - simpl. lia.
  - simpl. lia.
  - intros m Hm. simpl in Hm. simpl item.
    destruct m as [| [| [| [| m]]]]; simpl; try lra. lia.
Defined.

(** X3: with a single key (and a feature size [dk] that is not 0) the
    weights are 1, so every output row is the one value row, whatever
    the query and the key hold. *)
Theorem X3_attention_single_key (Q K V out : Tensor) (i j c : nat) :
  scaled_dot_product_attention Q K V = Ok out ->
  (0 < size2 Q)%nat ->
  size1 K = 1%nat ->
  item out i j c = item V i 0 c.
Proof.
  unfold scaled_dot_product_attention, bmm. simpl.
  destruct ((size0 Q =? size0 K)%nat && (size2 Q =? size2 K)%nat); [| discriminate].
  simpl.
  destruct ((size0 Q =? size0 V)%nat && (size1 K =? size1 V)%nat); [| discriminate].
  intros Hout _ HK. inversion Hout; subst out. clear Hout. simpl. rewrite HK. simpl.
  match goal with |- context [exp ?a] => set (E := exp a); assert (HE : 0 < E) by apply exp_pos end.
  field. lra.
Qed.

Lemma X3_attention_single_key_witness :
  exists out,
    scaled_dot_product_attention (mkTensor 1 2 3 (fun _ j c => INR (j + c)))
      (mkTensor 1 1 3 (fun _ _ c => INR c)) (mkTensor 1 1 2 (fun _ _ c => INR c + 5)) = Ok out /\
    item out 0 1 1 = INR 1 + 5.
Proof.
  eexists. split; [reflexivity |].
  refine (X3_attention_single_key (mkTensor 1 2 3 (fun _ j c => INR (j + c)))
            (mkTensor 1 1 3 (fun _ _ c => INR c))
            (mkTensor 1 1 2 (fun _ _ c => INR c + 5)) _ 0 1 1 _ ltac:(simpl; lia) _);
    reflexivity.
Defined.

(** ** More on multi-head attention and the feed-forward network *)

(** X4: a multi-head attention constructed with at least one head
    returns, for a query of shape (B, Lq, dim_in) and a key and a value
    of shape (B, Lk, dim_in), a tensor of shape (B, Lq, dim_in), whatever
    [num_heads], [dim_k] and [dim_v] are. *)
Theorem X4_multi_head_attention_shape (H D dk dv : nat) (st0 st1 : State)
    (m : MultiHeadAttention.t) (query key value : Tensor) (B Lq Lk : nat) :
  MultiHeadAttention.__init__ H D dk dv st0 = (Ok m, st1) ->
  H <> O ->
  shape query = (B, Lq, D) -> shape key = (B, Lk, D) -> shape value = (B, Lk, D) ->
  exists y, MultiHeadAttention.forward m query key value = Ok y /\ shape y = (B, Lq, D).
Proof.
  intros Hinit HH Sq Sk Sv.
  destruct (MultiHeadAttention_init_ok H D dk dv st0) as (m' & st' & E & Hd).
  rewrite E in Hinit. inversion Hinit; subst m' st'.
  exact (MultiHeadAttention_forward_ok m D B Lq Lk query key value
           (mha_dims_wf H D dk dv m HH Hd) Sq Sk Sv).
Qed.

Lemma X4_multi_head_attention_shape_witness :
  exists m st1 y,
    MultiHeadAttention.__init__ 3 4 5 7 st_empty = (Ok m, st1) /\
    MultiHeadAttention.forward m (zeros 2 3 4) (zeros 2 6 4) (zeros 2 6 4) = Ok y /\
    shape y = (2, 3, 4)%nat.
Proof.
  destruct (MultiHeadAttention_init_ok 3 4 5 7 st_empty) as (m & st1 & E & _).
  destruct (X4_multi_head_attention_shape 3 4 5 7 st_empty st1 m
              (zeros 2 3 4) (zeros 2 6 4) (zeros 2 6 4) 2 3 6
              E ltac:(lia) eq_refl eq_refl eq_refl) as (y & Ey & Sy).
  exists m, st1, y. repeat split; assumption.
Defined.

(** X6: the feed-forward network works on each position by itself: two
    positions (of the same or of different inputs) that hold the same
    feature vector get the same output vector. *)
Theorem X6_feed_forward_per_position (f : Sequential.t) (x x' y y' : Tensor)
    (i j i' j' : nat) :
  Sequential.forward f x = Ok y ->
  Sequential.forward f x' = Ok y' ->
  (forall c, (c < Linear.in_features (Sequential.fc1 f))%nat ->
     item x i j c = item x' i' j' c) ->
  forall o, item y i j o = item y' i' j' o.
Proof.
  unfold Sequential.forward, Linear.forward.
  destruct (size2 x =? Linear.in_features (Sequential.fc1 f))%nat; [| discriminate].
  destruct (size2 x' =? Linear.in_features (Sequential.fc1 f))%nat; [| discriminate].
  simpl.
  destruct (Linear.out_features (Sequential.fc1 f)
            =? Linear.in_features (Sequential.fc2 f))%nat; [| discriminate].
  intros Hy Hy' Hrow o. inversion Hy; subst y. inversion Hy'; subst y'. simpl.
  f_equal. apply rsum_ext. intros c _. f_equal. f_equal. f_equal.
  apply rsum_ext. intros c' Hc'. rewrite (Hrow c' Hc'). reflexivity.
Qed.

Lemma X6_feed_forward_per_position_witness :
  let f := Sequential.mk (Linear.mk 2 3 (fun o c => INR (o + c)) (fun o => INR o))
             (Linear.mk 3 2 (fun o c => INR (o * c)) (fun _ => 1)) in
  let x := mkTensor 1 2 2 (fun _ _ c => INR c) in
  exists y, Sequential.forward f x = Ok y /\ item y 0 0 1 = item y 0 1 1.
Proof.
  intros f x. eexists. split; [reflexivity |].
  refine (X6_feed_forward_per_position f x x _ _ 0 0 0 1 _ _ (fun c _ => eq_refl) 1%nat);
    reflexivity.
Defined.

(** ** More on the positional encoding *)

(** X7: every entry of the positional encoding lies in [-1, 1]. *)
Theorem X7_position_encoding_bounded (seq_len dim_model i pos c : nat) :
  -1 <= item (position_encoding seq_len dim_model) i pos c <= 1.
Proof.
  simpl. destruct (Nat.even c); [apply SIN_bound | apply COS_bound].
Qed.

(** ** The objects a forward pass writes to *)

Lemma writes_only_ret {A} (P : nat -> Prop) (a : A) : writes_only P (ret a).
Proof. intros st. split; [reflexivity | intros; reflexivity]. Qed.

Lemma writes_only_raise {A} (P : nat -> Prop) (e : Error) : writes_only P (@raise A e).
Proof. intros st. split; [reflexivity | intros; reflexivity]. Qed.

Lemma writes_only_lift {A} (P : nat -> Prop) (r : result A) : writes_only P (lift r).
Proof. intros st. split; [reflexivity | intros; reflexivity]. Qed.

Lemma writes_only_draw (P : nat -> Prop) : writes_only P draw.
Proof. intros st. split; [reflexivity | intros; reflexivity]. Qed.

Lemma writes_only_load (P : nat -> Prop) (r : nat) : writes_only P (load r).
Proof.
  intros st. unfold load. destruct (heap st !! r); (split; [reflexivity | intros; reflexivity]).
Qed.

Lemma writes_only_alloc (P : nat -> Prop) (t : Tensor) : writes_only P (alloc t).
Proof.
  intros st. simpl. split; [rewrite length_app; lia |].
  intros r Hr _. apply lookup_app_l. exact Hr.
Qed.

Lemma writes_only_store (P : nat -> Prop) (r : nat) (t : Tensor) :
  P r -> writes_only P (store r t).
Proof.
  intros HP st. simpl. split; [rewrite length_insert; lia |].
  intros r' _ Hr'. apply list_lookup_insert_ne. intros ->. contradiction.
Qed.

Lemma writes_only_bind {A B} (P : nat -> Prop) (c : M A) (k : A -> M B) :
  writes_only P c -> (forall a, writes_only P (k a)) -> writes_only P (bind c k).
Proof.
  intros Hc Hk st. unfold bind. specialize (Hc st).
  destruct (c st) as [[a | e] st1]; simpl in Hc; [| exact Hc].
  destruct Hc as [Hlen Hsame]. destruct (Hk a st1) as [Hlen' Hsame'].
  split; [lia |]. intros r Hr HP.
  rewrite Hsame' by (try lia; exact HP). apply Hsame; assumption.
Qed.

Lemma writes_only_iadd (P : nat -> Prop) (r : nat) (b : Tensor) :
  P r -> writes_only P (iadd r b).
Proof.
  intros HP. unfold iadd.
  apply writes_only_bind; [apply writes_only_load | intros a].
  apply writes_only_bind; [apply writes_only_lift | intros s].
  destruct (shape_eqb (shape s) (shape a));
    [apply writes_only_store; exact HP | apply writes_only_raise].
Qed.

Lemma writes_only_Residual_forward {S} `{Callable S} (P : nat -> Prop)
    (r : Residual.t S) (tensors : list Tensor) :
  writes_only P (Residual.forward r tensors).
Proof.
  unfold Residual.forward.
  apply writes_only_bind; [apply writes_only_lift | intros base].
  apply writes_only_bind; [apply writes_only_lift | intros out].
  apply writes_only_bind; [| intros dropped].
  { unfold Dropout.forward. destruct (Dropout.training (Residual.dropout r));
      [| apply writes_only_ret].
    apply writes_only_bind; [apply writes_only_draw | intros u; apply writes_only_ret]. }
  apply writes_only_bind; [apply writes_only_lift | intros sum].
  apply writes_only_lift.
Qed.

Lemma writes_only_TransformerEncoder_loop (P : nat -> Prop)
    (layers : list TransformerEncoderLayer.t) (src : nat) :
  writes_only P (TransformerEncoder.loop layers src).
Proof.
  revert src. induction layers as [| l rest IH]; intros src; simpl.
  - apply writes_only_ret.
  - apply writes_only_bind; [apply writes_only_load | intros x].
    apply writes_only_bind; [| intros y].
    { unfold TransformerEncoderLayer.forward.
      apply writes_only_bind; [apply writes_only_Residual_forward | intros z].
      apply writes_only_Residual_forward. }
    apply writes_only_bind; [apply writes_only_alloc | intros r]. apply IH.
Qed.

Lemma writes_only_TransformerEncoder_forward (P : nat -> Prop)
    (e : TransformerEncoder.t) (src : nat) :
  P src -> writes_only P (TransformerEncoder.forward e src).
Proof.
  intros HP. unfold TransformerEncoder.forward.
  apply writes_only_bind; [apply writes_only_load | intros x].
  apply writes_only_bind; [apply writes_only_iadd; exact HP | intros _].
  apply writes_only_TransformerEncoder_loop.
Qed.

Lemma writes_only_TransformerDecoder_loop (P : nat -> Prop)
    (layers : list TransformerDecoderLayer.t) (tgt memory : nat) :
  writes_only P (TransformerDecoder.loop layers tgt memory).
Proof.
  revert tgt. induction layers as [| l rest IH]; intros tgt; simpl.
  - apply writes_only_ret.
  - apply writes_only_bind; [apply writes_only_load | intros x].
    apply writes_only_bind; [apply writes_only_load | intros m].
    apply writes_only_bind; [| intros y].
    { unfold TransformerDecoderLayer.forward.
      apply writes_only_bind; [apply writes_only_Residual_forward | intros z].
      apply writes_only_bind; [apply writes_only_Residual_forward | intros z'].
      apply writes_only_Residual_forward. }
    apply writes_only_bind; [apply writes_only_alloc | intros r]. apply IH.
Qed.

Lemma writes_only_TransformerDecoder_forward (P : nat -> Prop)
    (d : TransformerDecoder.t) (tgt memory : nat) :
  P tgt -> writes_only P (TransformerDecoder.forward d tgt memory).
Proof.
  intros HP. unfold TransformerDecoder.forward.
  apply writes_only_bind; [apply writes_only_load | intros x].
  apply writes_only_bind; [apply writes_only_iadd; exact HP | intros _].
  apply writes_only_bind; [apply writes_only_TransformerDecoder_loop | intros r].
  apply writes_only_bind; [apply writes_only_load | intros y].
  apply writes_only_bind; [apply writes_only_lift | intros z].
  apply writes_only_alloc.
Qed.

(** X8: whatever the decoder is, whatever the mode and whether its
    forward pass returns or raises, the encoder memory object is left as
    it was, unless it is the very object passed as the target. *)
Theorem X8_decoder_does_not_write_memory (d : TransformerDecoder.t)
    (tgt memory : nat) (m : Tensor) (st : State) :
  heap st !! memory = Some m -> memory <> tgt ->
  heap (snd (TransformerDecoder.forward d tgt memory st)) !! memory = Some m.
Proof.
  intros Hm Hne.
  destruct (writes_only_TransformerDecoder_forward (fun r => r = tgt) d tgt memory
              eq_refl st) as [_ Hsame].
  rewrite Hsame; [exact Hm | apply lookup_lt_Some in Hm; exact Hm | exact Hne].
Qed.

Lemma X8_decoder_does_not_write_memory_witness :
  let d := TransformerDecoder.mk [] (Linear.mk 2 2 (fun _ _ => 1) (fun _ => 0)) in
  let st := mkState [zeros 1 1 2; zeros 1 3 2] (fun _ _ _ _ => 0) in
  heap (snd (TransformerDecoder.forward d 0 1 st)) !! 1%nat = Some (zeros 1 3 2).
Proof.
  intros d st.
  exact (X8_decoder_does_not_write_memory d 0 1 (zeros 1 3 2) st eq_refl ltac:(lia)).
Defined.

(** X9: the transformer's forward pass, in any mode and whether it
    returns or raises, never removes a tensor object and never changes
    an existing one other than the two it is given. *)
Theorem X9_forward_writes_only_its_arguments (m : Transformer.t)
    (src tgt : nat) (st : State) (r : nat) (x : Tensor) :
  heap st !! r = Some x -> r <> src -> r <> tgt ->
  heap (snd (Transformer.forward m src tgt st)) !! r = Some x.
Proof.
  intros Hr Hs Ht.
  assert (Hw : writes_only (fun r => r = src \/ r = tgt) (Transformer.forward m src tgt)).
  { unfold Transformer.forward. apply writes_only_bind.
    - apply writes_only_TransformerEncoder_forward. left. reflexivity.
    - intros memory. apply writes_only_TransformerDecoder_forward. right. reflexivity. }
  destruct (Hw st) as [_ Hsame].
  rewrite Hsame; [exact Hr | apply lookup_lt_Some in Hr; exact Hr |].
  intros [-> | ->]; contradiction.
Qed.

Lemma X9_forward_writes_only_its_arguments_witness :
  let m := Transformer.mk (TransformerEncoder.mk [])
             (TransformerDecoder.mk [] (Linear.mk 2 2 (fun _ _ => 1) (fun _ => 0))) in
  let st := mkState [zeros 1 1 2; zeros 1 1 2; zeros 4 4 4] (fun _ _ _ _ => 0) in
  heap (snd (Transformer.forward m 0 1 st)) !! 2%nat = Some (zeros 4 4 4).
Proof.
  intros m st.
  exact (X9_forward_writes_only_its_arguments m 0 1 st 2 (zeros 4 4 4) eq_refl
           ltac:(lia) ltac:(lia)).
Defined.

(** ** More on the encoder *)

Lemma TransformerEncoder_init_inv (N D H F : nat) (p : R) (st st' : State)
    (e : TransformerEncoder.t) :
  TransformerEncoder.__init__ N D H F p st = (Ok e, st') ->
  wf_encoder D e /\ length (TransformerEncoder.layers e) = N.
Proof.
  unfold TransformerEncoder.__init__. intros Hinit.
  apply bind_inv in Hinit as (els & s1 & Hels & He). inversion He; subst. clear He.
  exact (replicateM_inv (wf_encoder_layer D) _
           (fun st a st' Ha => proj1 (TransformerEncoderLayer_init_inv D H F p st st' a Ha))
           _ _ _ _ Hels).
Qed.

(** X10: a constructed encoder, of any depth, returns for a source of
    shape (B, L, dim_model) a tensor of the same shape.  With no layer
    the tensor it returns is the caller's source object itself, now
    holding the positional encoding; with at least one layer it is a new
    object. *)
Theorem X10_encoder_output (N D H F : nat) (p : R) (st0 st1 : State)
    (e : TransformerEncoder.t) (src : nat) (x : Tensor) (B L : nat) (st : State) :
  TransformerEncoder.__init__ N D H F p st0 = (Ok e, st1) ->
  heap st !! src = Some x -> shape x = (B, L, D) ->
  exists r st' y,
    TransformerEncoder.forward e src st = (Ok r, st') /\
    heap st' !! r = Some y /\ shape y = (B, L, D) /\
    heap st' !! src = Some (with_position_encoding x) /\
    (N = O -> r = src) /\
    (N <> O -> (length (heap st) <= r)%nat).
Proof.
  intros Hinit Hsrc Sx.
  destruct (TransformerEncoder_init_inv _ _ _ _ _ _ _ _ Hinit) as [Hwf Hlen].
  pose proof (lookup_lt_Some _ _ _ Hsrc) as Hsl.
  set (stp := mkState (<[src := with_position_encoding x]> (heap st)) (rng st)).
  assert (H1 : heap stp !! src = Some (with_position_encoding x)).
  { simpl. apply list_lookup_insert_eq. exact Hsl. }
  destruct (TransformerEncoder_loop_ok D B L _ Hwf src _ stp H1 Sx)
    as (r & st' & y & extra & E & Hheap & Hr & Sy & Hnil & Hcons).
  exists r, st', y.
  split.
  { unfold TransformerEncoder.forward.
    rewrite (bind_ok _ _ _ _ _ (load_ok src x st Hsrc)).
    rewrite (bind_ok _ _ _ _ _ (iadd_position_encoding src x st Hsrc)). exact E. }
  split; [exact Hr |]. split; [exact Sy |].
  split. { rewrite Hheap. apply lookup_app_l_Some. exact H1. }
  split.
  - intros HN. apply Hnil. rewrite HN in Hlen.
    destruct (TransformerEncoder.layers e); [reflexivity | discriminate].
  - intros HN. assert (Hle : (length (heap stp) <= r)%nat).
    { apply Hcons. intros Hnil'. rewrite Hnil' in Hlen. simpl in Hlen. congruence. }
    simpl in Hle. rewrite length_insert in Hle. exact Hle.
Qed.

Lemma X10_encoder_output_witness :
  exists e st1 r st' y,
    TransformerEncoder.__init__ 3 4 2 8 0.1 st_empty = (Ok e, st1) /\
    TransformerEncoder.forward e 0 (mkState [zeros 2 5 4] (rng st1)) = (Ok r, st') /\
    heap st' !! r = Some y /\ shape y = (2, 5, 4)%nat /\ (1 <= r)%nat.
Proof.
  destruct (TransformerEncoder_init_ok 3 4 2 8 0.1 st_empty ltac:(lia) ltac:(lra))
    as (e & st1 & E & _).
  destruct (X10_encoder_output 3 4 2 8 0.1 st_empty st1 e 0 (zeros 2 5 4) 2 5
              (mkState [zeros 2 5 4] (rng st1)) E eq_refl eq_refl)
    as (r & st' & y & Efw & Hr & Sy & _ & _ & Hfresh).
  exists e, st1, r, st', y. repeat split; try assumption.
  apply Hfresh. lia.
Defined.

(** ** More on the whole forward pass *)

(** X11: when one tensor object is passed as both the source and the
    target, the positional encoding is added to it twice: after the call
    every entry is larger by 2 sin(1) on an even channel and by 2 cos(1)
    on an odd one. *)
Theorem X11_forward_on_one_object (Ne Nd D H F : nat) (p : R) (st0 st1 : State)
    (m : Transformer.t) (x : nat) (s : Tensor) (B L : nat) (st : State) :
  Transformer.__init__ Ne Nd D H F p st0 = (Ok m, st1) ->
  heap st !! x = Some s -> shape s = (B, L, D) ->
  exists r st' out s',
    Transformer.forward m x x st = (Ok r, st') /\
    heap st' !! r = Some out /\ shape out = (B, L, D) /\ r <> x /\
    heap st' !! x = Some s' /\ shape s' = (B, L, D) /\
    forall i j k, (i < B)%nat -> (j < L)%nat -> (k < D)%nat ->
      item s' i j k = item s i j k + 2 * (if Nat.even k then sin 1 else cos 1).
Proof.
  intros Hinit Hx Ss.
  destruct (Transformer_init_inv _ _ _ _ _ _ _ _ _ Hinit) as (Hwf & _ & _).
  destruct (Transformer_forward_ok m D B L L x x s s st Hwf Hx Ss Hx Ss (or_intror eq_refl))
    as (r & st' & out & extra & E & Hheap & Hr & So & Hlen & _).
  pose proof (lookup_lt_Some _ _ _ Hx) as Hxl.
  destruct (decide (x = x)) as [_ | Hne]; [| contradiction].
  exists r, st', out, (with_position_encoding (with_position_encoding s)).
  split; [exact E |]. split; [exact Hr |]. split; [exact So |].
  split; [lia |].
  split. { rewrite Hheap. apply lookup_app_l_Some. apply list_lookup_insert_eq.
           rewrite length_insert. exact Hxl. }
  split; [exact Ss |].
  intros i j k Hi Hj Hk. apply shape_inv in Ss as (s0 & s1 & s2).
  rewrite with_position_encoding_item by (simpl; congruence).
  rewrite with_position_encoding_item by congruence. lra.
Qed.

Lemma X11_forward_on_one_object_witness :
  exists m st1 r st' s',
    Transformer.__init__ 1 1 2 1 4 0.1 st_empty = (Ok m, st1) /\
    Transformer.forward m 0 0 (mkState [zeros 1 1 2] (rng st1)) = (Ok r, st') /\
    heap st' !! 0%nat = Some s' /\ item s' 0 0 0 = 0 + 2 * sin 1.
Proof.
  destruct (Transformer_init_ok 1 1 2 1 4 0.1 st_empty ltac:(lia) ltac:(lra))
    as (m & st1 & E & _).
  destruct (X11_forward_on_one_object 1 1 2 1 4 0.1 st_empty st1 m 0 (zeros 1 1 2) 1 1
              (mkState [zeros 1 1 2] (rng st1)) E eq_refl eq_refl)
    as (r & st' & out & s' & Efw & _ & _ & _ & Hs' & _ & Hitem).
  exists m, st1, r, st', s'. split; [exact E |]. split; [exact Efw |].
  split; [exact Hs' |]. exact (Hitem 0%nat 0%nat 0%nat ltac:(lia) ltac:(lia) ltac:(lia)).
Defined.

(** X12: every entry of the tensor a successful forward pass returns is
    a probability: greater than 0 and at most 1. *)
Theorem X12_forward_output_is_probability (Ne Nd D H F : nat) (p : R)
    (st0 st1 : State) (m : Transformer.t) (src tgt : nat) (s t : Tensor)
    (B L : nat) (st : State) :
  Transformer.__init__ Ne Nd D H F p st0 = (Ok m, st1) ->
  heap st !! src = Some s -> shape s = (B, L, D) ->
  heap st !! tgt = Some t -> shape t = (B, L, D) ->
  exists r st' out,
    Transformer.forward m src tgt st = (Ok r, st') /\
    heap st' !! r = Some out /\
    forall i j k, (k < D)%nat -> 0 < item out i j k <= 1.
Proof.
  intros Hinit Hsrc Ss Htgt St.
  destruct (Transformer_init_inv _ _ _ _ _ _ _ _ _ Hinit) as (Hwf & _ & _).
  destruct (Transformer_forward_ok m D B L L src tgt s t st Hwf Hsrc Ss Htgt St
              (or_intror eq_refl))
    as (r & st' & out & extra & E & _ & Hr & So & _ & _ & y & z & _ & ->).
  exists r, st', (softmax z). split; [exact E |]. split; [exact Hr |].
  apply shape_inv in So as (_ & _ & z2). simpl in z2.
  intros i j k Hk. split.
  - apply softmax_item_pos. lia.
  - apply softmax_item_le_1. lia.
Qed.

Lemma X12_forward_output_is_probability_witness :
  exists m st1 r st' out,
    Transformer.__init__ 1 1 2 1 4 0.1 st_empty = (Ok m, st1) /\
    Transformer.forward m 0 1 (mkState [zeros 1 1 2; zeros 1 1 2] (rng st1)) = (Ok r, st') /\
    heap st' !! r = Some out /\ 0 < item out 0 0 1 <= 1.
Proof.
  destruct (Transformer_init_ok 1 1 2 1 4 0.1 st_empty ltac:(lia) ltac:(lra))
    as (m & st1 & E & _).
  destruct (X12_forward_output_is_probability 1 1 2 1 4 0.1 st_empty st1 m 0 1
              (zeros 1 1 2) (zeros 1 1 2) 1 1
              (mkState [zeros 1 1 2; zeros 1 1 2] (rng st1)) E eq_refl eq_refl eq_refl eq_refl)
    as (r & st' & out & Efw & Hr & Hp).
  exists m, st1, r, st', out. repeat split; try assumption; apply Hp; lia.
Defined.

(** ** A failing forward pass *)

Lemma sdpa_value_mismatch (Q K V : Tensor) (b Lq Lk dk bv Lv dv : nat) :
  shape Q = (b, Lq, dk) -> shape K = (b, Lk, dk) -> shape V = (bv, Lv, dv) ->
  b <> bv \/ Lk <> Lv ->
  scaled_dot_product_attention Q K V = Raise RuntimeError.
Proof.
  intros HQ HK HV Hne.
  apply shape_inv in HQ as (Q0 & Q1 & Q2).
  apply shape_inv in HK as (K0 & K1 & K2).
  apply shape_inv in HV as (V0 & V1 & V2).
  unfold scaled_dot_product_attention.
  rewrite bmm_ok by (simpl; congruence). simpl rbind.
  unfold bmm. simpl. rewrite Q0, K1, V0, V1.
  destruct Hne as [Hne | Hne]; apply Nat.eqb_neq in Hne; rewrite Hne;
    [reflexivity | rewrite andb_false_r; reflexivity].
Qed.

Lemma AttentionHead_forward_value_mismatch (h : AttentionHead.t)
    (D dk dv B Lq Lk Bv Lv : nat) (query key value : Tensor) :
  wf_head D dk dv h ->
  shape query = (B, Lq, D) -> shape key = (B, Lk, D) -> shape value = (Bv, Lv, D) ->
  B <> Bv \/ Lk <> Lv ->
  AttentionHead.forward h query key value = Raise RuntimeError.
Proof.
  intros (Hq & Hk & Hv) Sq Sk Sv Hne.
  apply shape_inv in Sq as (q0 & q1 & q2).
  apply shape_inv in Sk as (k0 & k1 & k2).
  apply shape_inv in Sv as (v0 & v1 & v2).
  destruct (Linear_forward_ok _ query _ _ Hq q2) as (q' & Eq & Sq').
  destruct (Linear_forward_ok _ key _ _ Hk k2) as (k' & Ek & Sk').
  destruct (Linear_forward_ok _ value _ _ Hv v2) as (v' & Ev & Sv').
  rewrite q0, q1 in Sq'. rewrite k0, k1 in Sk'. rewrite v0, v1 in Sv'.
  unfold AttentionHead.forward. rewrite Eq, Ek, Ev. simpl rbind.
  exact (sdpa_value_mismatch q' k' v' B Lq Lk dk Bv Lv dv Sq' Sk' Sv' Hne).
Qed.

Lemma MultiHeadAttention_forward_value_mismatch (m : MultiHeadAttention.t)
    (D B Lq Lk Bv Lv : nat) (query key value : Tensor) :
  wf_mha D m ->
  shape query = (B, Lq, D) -> shape key = (B, Lk, D) -> shape value = (Bv, Lv, D) ->
  B <> Bv \/ Lk <> Lv ->
  MultiHeadAttention.forward m query key value = Raise RuntimeError.
Proof.
  intros (dk & dv & Hne & Hheads & Hlin) Sq Sk Sv Hmis.
  unfold MultiHeadAttention.forward.
  destruct (MultiHeadAttention.heads m) as [| h hs]; [contradiction |].
  inversion Hheads as [| ? ? Hh _]; subst.
  simpl. rewrite (AttentionHead_forward_value_mismatch h D dk dv B Lq Lk Bv Lv
                    query key value Hh Sq Sk Sv Hmis).
  reflexivity.
Qed.

Lemma TransformerDecoderLayer_forward_value_mismatch (l : TransformerDecoderLayer.t)
    (D Bs Ls Bt Lt : nat) (tgt memory : Tensor) (st : State) :
  wf_decoder_layer D l -> shape tgt = (Bt, Lt, D) -> shape memory = (Bs, Ls, D) ->
  Bs <> Bt \/ Ls <> Lt ->
  exists st', TransformerDecoderLayer.forward l tgt memory st = (Raise RuntimeError, st') /\
              heap st' = heap st.
Proof.
  intros ([Hm1 Hn1] & [Hm2 Hn2] & [Hff Hn3]) St Sm Hne.
  destruct (MultiHeadAttention_forward_ok _ D Bt Lt Lt tgt tgt tgt Hm1 St St St)
    as (a1 & Ea1 & Sa1).
  destruct (Residual_forward_ok (TransformerDecoderLayer.attention_1 l)
              [tgt; tgt; tgt] tgt a1 st)
    as (t1 & st1 & E1 & H1 & S1); [reflexivity | exact Ea1 | congruence | |].
  { apply shape_inv in St as (_ & _ & ->). congruence. }
  rewrite St in S1.
  exists st1. split; [| exact H1].
  unfold TransformerDecoderLayer.forward. rewrite (bind_ok _ _ _ _ _ E1).
  apply bind_raise.
  apply (Residual_forward_raise _ _ t1); [reflexivity |].
  exact (MultiHeadAttention_forward_value_mismatch _ D Bs Ls Ls Bt Lt memory memory t1
           Hm2 Sm Sm S1 Hne).
Qed.

(** X13: for a constructed transformer with at least one decoder layer,
    a source and a target of width [dim_model] that differ in batch size
    or in length make the forward pass raise a [RuntimeError]; and by
    then both tensors have already been changed: the positional encoding
    stays added to the caller's source and target. *)
Theorem X13_failed_forward_has_updated_inputs (Ne Nd D H F : nat) (p : R)
    (st0 st1 : State) (m : Transformer.t) (src tgt : nat) (s t : Tensor)
    (Bs Ls Bt Lt : nat) (st : State) :
  Transformer.__init__ Ne Nd D H F p st0 = (Ok m, st1) ->
  Nd <> O ->
  heap st !! src = Some s -> shape s = (Bs, Ls, D) ->
  heap st !! tgt = Some t -> shape t = (Bt, Lt, D) ->
  Bs <> Bt \/ Ls <> Lt ->
  exists st',
    Transformer.forward m src tgt st = (Raise RuntimeError, st') /\
    heap st' !! src = Some (with_position_encoding s) /\
    heap st' !! tgt = Some (with_position_encoding t).
Proof.
  intros Hinit HNd Hsrc Ss Htgt St Hne.
  destruct (Transformer_init_inv _ _ _ _ _ _ _ _ _ Hinit) as ([Henc [Hdl Hlin]] & _ & Ld).
  assert (Hst : src <> tgt).
  { intros ->. rewrite Hsrc in Htgt. inversion Htgt; subst. rewrite Ss in St.
    inversion St. destruct Hne; contradiction. }
  pose proof (lookup_lt_Some _ _ _ Hsrc) as Hsl.
  pose proof (lookup_lt_Some _ _ _ Htgt) as Htl.
  destruct (TransformerEncoder_forward_ok _ D Bs Ls src s st Henc Hsrc Ss)
    as (r1 & stp & mem & extra1 & E1 & Hh1 & Hr1 & Smem & _).
  assert (Ht1 : heap stp !! tgt = Some t).
  { rewrite Hh1. apply lookup_app_l_Some.
    rewrite list_lookup_insert_ne by exact Hst. exact Htgt. }
  assert (Hs1 : heap stp !! src = Some (with_position_encoding s)).
  { rewrite Hh1. apply lookup_app_l_Some. apply list_lookup_insert_eq. exact Hsl. }
  assert (Hrt : r1 <> tgt).
  { intros ->. rewrite Ht1 in Hr1. inversion Hr1; subst. rewrite Smem in St.
    inversion St. destruct Hne; contradiction. }
  set (st2 := mkState (<[tgt := with_position_encoding t]> (heap stp)) (rng stp)).
  assert (Ht2 : heap st2 !! tgt = Some (with_position_encoding t)).
  { simpl. apply list_lookup_insert_eq. apply lookup_lt_Some in Ht1. exact Ht1. }
  assert (Hm2 : heap st2 !! r1 = Some mem).
  { simpl. rewrite list_lookup_insert_ne by congruence. exact Hr1. }
  destruct (TransformerDecoder.layers (Transformer.decoder m)) as [| l rest] eqn:El;
    [simpl in Ld; congruence |].
  inversion Hdl as [| ? ? Hl _]; subst.
  destruct (TransformerDecoderLayer_forward_value_mismatch l D Bs Ls Bt Lt
              (with_position_encoding t) mem st2 Hl St Smem Hne) as (st3 & E3 & Hh3).
  exists st3. split.
  { unfold Transformer.forward. rewrite (bind_ok _ _ _ _ _ E1).
    unfold TransformerDecoder.forward.
    rewrite (bind_ok _ _ _ _ _ (load_ok tgt t stp Ht1)).
    rewrite (bind_ok _ _ _ _ _ (iadd_position_encoding tgt t stp Ht1)).
    apply bind_raise. rewrite El. simpl.
    rewrite (bind_ok _ _ _ _ _ (load_ok tgt _ st2 Ht2)).
    rewrite (bind_ok _ _ _ _ _ (load_ok r1 _ st2 Hm2)).
    apply bind_raise. exact E3. }
  rewrite Hh3. simpl. split; [| exact Ht2].
  rewrite list_lookup_insert_ne by congruence. exact Hs1.
Qed.

Lemma X13_failed_forward_has_updated_inputs_witness :
  exists m st1 st',
    Transformer.__init__ 1 1 2 1 4 0.1 st_empty = (Ok m, st1) /\
    Transformer.forward m 0 1 (mkState [zeros 3 1 2; zeros 1 1 2] (rng st1))
    = (Raise RuntimeError, st') /\
    heap st' !! 0%nat = Some (with_position_encoding (zeros 3 1 2)).
Proof.
  destruct (Transformer_init_ok 1 1 2 1 4 0.1 st_empty ltac:(lia) ltac:(lra))
    as (m & st1 & E & _).
  destruct (X13_failed_forward_has_updated_inputs 1 1 2 1 4 0.1 st_empty st1 m 0 1
              (zeros 3 1 2) (zeros 1 1 2) 3 1 1 1
              (mkState [zeros 3 1 2; zeros 1 1 2] (rng st1))
              E ltac:(lia) eq_refl eq_refl eq_refl eq_refl ltac:(left; lia))
    as (st' & Efw & Hs & _).
  exists m, st1, st'. repeat split; assumption.
Defined.

(** X14: in evaluation mode, calling a constructed transformer a second
    time on the same two tensor objects does not repeat the first call:
    it computes the forward pass of the source and the target with the
    positional encoding already added to them. *)
Theorem X14_second_call_runs_on_updated_inputs (Ne Nd D H F : nat) (p : R)
    (st0 st1 : State) (m : Transformer.t) (src tgt : nat) (s t : Tensor)
    (B L : nat) (st : State) :
  Transformer.__init__ Ne Nd D H F p st0 = (Ok m, st1) ->
  src <> tgt ->
  heap st !! src = Some s -> shape s = (B, L, D) ->
  heap st !! tgt = Some t -> shape t = (B, L, D) ->
  exists r st',
    Transformer.forward (Transformer.eval m) src tgt st = (Ok r, st') /\
    forall st2,
      heap st2 !! src = Some (with_position_encoding s) ->
      heap st2 !! tgt = Some (with_position_encoding t) ->
      outcome (Transformer.forward (Transformer.eval m) src tgt st')
      = outcome (Transformer.forward (Transformer.eval m) src tgt st2).
Proof.
  intros Hinit Hne Hsrc Ss Htgt St.
  destruct (Transformer_init_inv _ _ _ _ _ _ _ _ _ Hinit) as (Hwf & _ & _).
  destruct (Transformer_forward_ok (Transformer.eval m) D B L L src tgt s t st
              (wf_transformer_eval _ _ Hwf) Hsrc Ss Htgt St (or_intror eq_refl))
    as (r & st' & out & extra & E & Hheap & _).
  pose proof (lookup_lt_Some _ _ _ Hsrc) as Hsl.
  pose proof (lookup_lt_Some _ _ _ Htgt) as Htl.
  destruct (decide (src = tgt)) as [Heq | _]; [contradiction |].
  exists r, st'. split; [exact E |]. intros st2 Hs2 Ht2.
  destruct (Transformer_forward_det (Transformer.eval m)) with (src := src) (tgt := tgt)
    (s := with_position_encoding s) (t := with_position_encoding t) as [v Hv].
  - simpl. apply Forall_map. apply Forall_forall. intros l _ x.
    apply TransformerEncoderLayer_eval_pure.
  - simpl. apply Forall_map. apply Forall_forall. intros l _ x mem.
    apply TransformerDecoderLayer_eval_pure.
  - rewrite (Hv st2 Hs2 Ht2). apply Hv.
    + rewrite Hheap. apply lookup_app_l_Some.
      rewrite list_lookup_insert_ne by congruence.
      apply list_lookup_insert_eq. exact Hsl.
    + rewrite Hheap. apply lookup_app_l_Some.
      apply list_lookup_insert_eq. rewrite length_insert. exact Htl.
Qed.

Lemma X14_second_call_runs_on_updated_inputs_witness :
  exists m st1 r st',
    Transformer.__init__ 1 1 2 1 4 0.1 st_empty = (Ok m, st1) /\
    Transformer.forward (Transformer.eval m) 0 1
      (mkState [zeros 1 1 2; zeros 1 1 2] (rng st1)) = (Ok r, st') /\
    outcome (Transformer.forward (Transformer.eval m) 0 1 st')
    = outcome (Transformer.forward (Transformer.eval m) 0 1
                 (mkState [with_position_encoding (zeros 1 1 2);
                           with_position_encoding (zeros 1 1 2)] (fun _ _ _ _ => 0))).
Proof.
  destruct (Transformer_init_ok 1 1 2 1 4 0.1 st_empty ltac:(lia) ltac:(lra))
    as (m & st1 & E & _).
  destruct (X14_second_call_runs_on_updated_inputs 1 1 2 1 4 0.1 st_empty st1 m 0 1
              (zeros 1 1 2) (zeros 1 1 2) 1 1
              (mkState [zeros 1 1 2; zeros 1 1 2] (rng st1))
              E ltac:(lia) eq_refl eq_refl eq_refl eq_refl)
    as (r & st' & Efw & Hsecond).
  exists m, st1, r, st'. split; [exact E |]. split; [exact Efw |].
  apply Hsecond; reflexivity.
Defined.

(** ** Normalisation in a constructed layer *)

Lemma rsum_const (n : nat) (a : R) : rsum n (fun _ => a) = INR n * a.
Proof.
  induction n as [| n IH]; [simpl; ring |].
  change (rsum (S n) (fun _ => a)) with (rsum n (fun _ => a) + a).
  rewrite IH, S_INR. ring.
Qed.

Lemma Residual_init_norm {S} (sub : S) (D : nat) (p : R) (st st' : State)
    (r : Residual.t S) :
  Residual.__init__ sub D p st = (Ok r, st') ->
  Residual.norm r = LayerNorm.mk D (fun _ => 1) (fun _ => 0) 1e-5.
Proof.
  unfold Residual.__init__, LayerNorm.__init__, Dropout.__init__.
  unfold bind, ret, raise. cbv beta iota.
  destruct (Rlt_dec p 0) as [Hlt | Hge]; [discriminate |].
  destruct (Rlt_dec 1 p) as [Hlt | Hle]; [discriminate |].
  intros Heq. inversion Heq. reflexivity.
Qed.

Lemma LayerNorm_initial_zero_mean (D : nat) (e : R) (x y : Tensor) (i j : nat) :
  LayerNorm.forward (LayerNorm.mk D (fun _ => 1) (fun _ => 0) e) x = Ok y ->
  (0 < D)%nat ->
  size2 y = D /\ rsum D (item y i j) = 0.
Proof.
  unfold LayerNorm.forward. simpl.
  destruct (Nat.eqb_spec (size2 x) D) as [Hx | Hx]; [| discriminate].
  intros Hy HD. inversion Hy; subst y. clear Hy. simpl. split; [exact Hx |].
  rewrite Hx.
  set (sq := sqrt _). set (mu := LayerNorm.mean D (item x i j)).
  rewrite (rsum_ext D _ (fun c => item x i j c * / sq + (- (mu * / sq))))
    by (intros c _; unfold Rdiv; ring).
  rewrite rsum_plus, rsum_scal_r, rsum_const.
  assert (HDR : INR D <> 0) by (apply not_0_INR; lia).
  assert (Hmu : INR D * mu = rsum D (item x i j)).
  { unfold mu, LayerNorm.mean. field. exact HDR. }
  transitivity ((rsum D (item x i j) - INR D * mu) * / sq); [ring |].
  rewrite Hmu. ring.
Qed.

Lemma Residual_forward_norm_inv {S} `{Callable S} (r : Residual.t S)
    (tensors : list Tensor) (y : Tensor) (st st' : State) :
  Residual.forward r tensors st = (Ok y, st') ->
  exists sum, LayerNorm.forward (Residual.norm r) sum = Ok y.
Proof.
  unfold Residual.forward. intros Hfw.
  apply bind_inv in Hfw as (base & s1 & _ & Hfw).
  apply bind_inv in Hfw as (out & s2 & _ & Hfw).
  apply bind_inv in Hfw as (dropped & s3 & _ & Hfw).
  apply bind_inv in Hfw as (sum & s4 & _ & Hfw).
  exists sum. unfold lift in Hfw. inversion Hfw. reflexivity.
Qed.

(** X15: every position of the output of a constructed encoder layer or
    decoder layer has mean 0 over its [dim_model] channels: the layer
    ends in a layer normalisation whose weight is 1 and whose bias is 0
    at construction. *)
Theorem X15_constructed_layer_output_zero_mean (D H F : nat) (p : R) :
  (0 < D)%nat ->
  (forall st0 st1 l x y st st',
     TransformerEncoderLayer.__init__ D H F p st0 = (Ok l, st1) ->
     TransformerEncoderLayer.forward l x st = (Ok y, st') ->
     size2 y = D /\ forall i j, rsum D (item y i j) = 0) /\
  (forall st0 st1 l tgt memory y st st',
     TransformerDecoderLayer.__init__ D H F p st0 = (Ok l, st1) ->
     TransformerDecoderLayer.forward l tgt memory st = (Ok y, st') ->
     size2 y = D /\ forall i j, rsum D (item y i j) = 0).
Proof.
  intros HD. split.
  - intros st0 st1 l x y st st' Hinit Hfw.
    unfold TransformerEncoderLayer.__init__ in Hinit.
    apply bind_inv in Hinit as (dk & s1 & _ & Hinit).
    apply bind_inv in Hinit as (mha & s2 & _ & Hinit).
    apply bind_inv in Hinit as (att & s3 & _ & Hinit).
    apply bind_inv in Hinit as (ff & s4 & _ & Hinit).
    apply bind_inv in Hinit as (res & s5 & Hres & Hinit).
    inversion Hinit; subst l. clear Hinit.
    apply Residual_init_norm in Hres.
    unfold TransformerEncoderLayer.forward in Hfw.
    apply bind_inv in Hfw as (x1 & t1 & _ & Hfw). simpl in Hfw.
    apply Residual_forward_norm_inv in Hfw as (sum & Hln). rewrite Hres in Hln.
    split; [| intros i j];
      apply (LayerNorm_initial_zero_mean D _ sum y 0 0 Hln HD)
      || apply (LayerNorm_initial_zero_mean D _ sum y i j Hln HD).
  - intros st0 st1 l tgt memory y st st' Hinit Hfw.
    unfold TransformerDecoderLayer.__init__ in Hinit.
    apply bind_inv in Hinit as (dk & s1 & _ & Hinit).
    apply bind_inv in Hinit as (mha1 & s2 & _ & Hinit).
    apply bind_inv in Hinit as (att1 & s3 & _ & Hinit).
    apply bind_inv in Hinit as (mha2 & s4 & _ & Hinit).
    apply bind_inv in Hinit as (att2 & s5 & _ & Hinit).
    apply bind_inv in Hinit as (ff & s6 & _ & Hinit).
    apply bind_inv in Hinit as (res & s7 & Hres & Hinit).
    inversion Hinit; subst l. clear Hinit.
    apply Residual_init_norm in Hres.
    unfold TransformerDecoderLayer.forward in Hfw.
    apply bind_inv in Hfw as (x1 & t1 & _ & Hfw).
    apply bind_inv in Hfw as (x2 & t2 & _ & Hfw). simpl in Hfw.
    apply Residual_forward_norm_inv in Hfw as (sum & Hln). rewrite Hres in Hln.
    split; [| intros i j];
      apply (LayerNorm_initial_zero_mean D _ sum y 0 0 Hln HD)
      || apply (LayerNorm_initial_zero_mean D _ sum y i j Hln HD).
Qed.

Lemma X15_constructed_layer_output_zero_mean_witness :
  exists l st1 y st',
    TransformerEncoderLayer.__init__ 4 2 8 0.1 st_empty = (Ok l, st1) /\
    TransformerEncoderLayer.forward l (zeros 2 3 4) st_empty = (Ok y, st') /\
    rsum 4 (item y 1 2) = 0.
Proof.
  destruct (TransformerEncoderLayer_init_ok 4 2 8 0.1 st_empty ltac:(lia) ltac:(lra))
    as (l & st1 & E & Hwf & _).
  destruct (TransformerEncoderLayer_forward_ok l 4 2 3 (zeros 2 3 4) st_empty Hwf eq_refl)
    as (y & st' & Efw & _).
  exists l, st1, y, st'. split; [exact E |]. split; [exact Efw |].
  destruct (X15_constructed_layer_output_zero_mean 4 2 8 0.1 ltac:(lia)) as [Henc _].
  exact (proj2 (Henc st_empty st1 l (zeros 2 3 4) y st_empty st' E Efw) 1%nat 2%nat).
Defined.

(** ** A target of the wrong width, and a wrong number of arguments *)

Lemma Linear_forward_raise (l : Linear.t) (x : Tensor) :
  size2 x <> Linear.in_features l -> Linear.forward l x = Raise RuntimeError.
Proof.
  intros H. unfold Linear.forward. rewrite (proj2 (Nat.eqb_neq _ _) H). reflexivity.
Qed.

Lemma MultiHeadAttention_forward_query_width (m : MultiHeadAttention.t) (D : nat)
    (query key value : Tensor) :
  wf_mha D m -> size2 query <> D ->
  MultiHeadAttention.forward m query key value = Raise RuntimeError.
Proof.
  intros (dk & dv & Hne & Hheads & _) Hq.
  unfold MultiHeadAttention.forward.
  destruct (MultiHeadAttention.heads m) as [| h hs]; [contradiction |].
  inversion Hheads as [| ? ? ([Hin _] & _) _]; subst.
  simpl. unfold AttentionHead.forward.
  rewrite Linear_forward_raise by congruence. reflexivity.
Qed.

(** X16: for a constructed transformer, a target tensor whose width is
    not [dim_model] makes the forward pass raise a [RuntimeError],
    whatever the numbers of layers are. *)
Theorem X16_target_width_mismatch (Ne Nd D H F : nat) (p : R) (st0 st1 : State)
    (m : Transformer.t) (src tgt : nat) (s t : Tensor) (Bs Ls Bt Lt D' : nat)
    (st : State) :
  Transformer.__init__ Ne Nd D H F p st0 = (Ok m, st1) ->
  heap st !! src = Some s -> shape s = (Bs, Ls, D) ->
  heap st !! tgt = Some t -> shape t = (Bt, Lt, D') ->
  D' <> D ->
  exists st', Transformer.forward m src tgt st = (Raise RuntimeError, st').
Proof.
  intros Hinit Hsrc Ss Htgt St HD.
  destruct (Transformer_init_inv _ _ _ _ _ _ _ _ _ Hinit) as ([Henc [Hdl Hlin]] & _ & _).
  assert (Hst : src <> tgt).
  { intros ->. rewrite Hsrc in Htgt. inversion Htgt; subst. rewrite Ss in St.
    inversion St. congruence. }
  destruct (TransformerEncoder_forward_ok _ D Bs Ls src s st Henc Hsrc Ss)
    as (r1 & stp & mem & extra1 & E1 & Hh1 & Hr1 & Smem & _).
  assert (Ht1 : heap stp !! tgt = Some t).
  { rewrite Hh1. apply lookup_app_l_Some.
    rewrite list_lookup_insert_ne by exact Hst. exact Htgt. }
  assert (Hrt : r1 <> tgt).
  { intros ->. rewrite Ht1 in Hr1. inversion Hr1; subst. rewrite Smem in St.
    inversion St. congruence. }
  set (st2 := mkState (<[tgt := with_position_encoding t]> (heap stp)) (rng stp)).
  assert (Ht2 : heap st2 !! tgt = Some (with_position_encoding t)).
  { simpl. apply list_lookup_insert_eq. apply lookup_lt_Some in Ht1. exact Ht1. }
  assert (Hm2 : heap st2 !! r1 = Some mem).
  { simpl. rewrite list_lookup_insert_ne by congruence. exact Hr1. }
  assert (Hw : size2 (with_position_encoding t) <> D).
  { apply shape_inv in St as (_ & _ & St). simpl. congruence. }
  assert (Hrun : Transformer.forward m src tgt st
                 = (let! r := TransformerDecoder.loop
                                (TransformerDecoder.layers (Transformer.decoder m)) tgt r1 in
                    let! x := load r in
                    let! y := lift (Linear.forward
                                      (TransformerDecoder.linear (Transformer.decoder m)) x) in
                    alloc (softmax y)) st2).
  { unfold Transformer.forward. rewrite (bind_ok _ _ _ _ _ E1).
    unfold TransformerDecoder.forward.
    rewrite (bind_ok _ _ _ _ _ (load_ok tgt t stp Ht1)).
    rewrite (bind_ok _ _ _ _ _ (iadd_position_encoding tgt t stp Ht1)). reflexivity. }
  rewrite Hrun.
  destruct (TransformerDecoder.layers (Transformer.decoder m)) as [| l rest] eqn:El.
  - exists st2. simpl TransformerDecoder.loop.
    rewrite (bind_ok _ _ st2 st2 tgt eq_refl).
    rewrite (bind_ok _ _ _ _ _ (load_ok tgt _ st2 Ht2)).
    apply bind_lift_raise. apply Linear_forward_raise.
    destruct Hlin as [Hin _]. congruence.
  - inversion Hdl as [| ? ? ([Hm1 _] & _) _]; subst.
    exists st2. apply bind_raise. simpl.
    rewrite (bind_ok _ _ _ _ _ (load_ok tgt _ st2 Ht2)).
    rewrite (bind_ok _ _ _ _ _ (load_ok r1 _ st2 Hm2)).
    apply bind_raise. unfold TransformerDecoderLayer.forward. apply bind_raise.
    apply (Residual_forward_raise _ _ (with_position_encoding t)); [reflexivity |].
    exact (MultiHeadAttention_forward_query_width _ D _ _ _ Hm1 Hw).
Qed.

Lemma X16_target_width_mismatch_witness :
  exists m st1 st',
    Transformer.__init__ 1 1 2 1 4 0.1 st_empty = (Ok m, st1) /\
    Transformer.forward m 0 1 (mkState [zeros 1 1 2; zeros 1 1 3] (rng st1))
    = (Raise RuntimeError, st').
Proof.
  destruct (Transformer_init_ok 1 1 2 1 4 0.1 st_empty ltac:(lia) ltac:(lra))
    as (m & st1 & E & _).
  destruct (X16_target_width_mismatch 1 1 2 1 4 0.1 st_empty st1 m 0 1
              (zeros 1 1 2) (zeros 1 1 3) 1 1 1 1 3
              (mkState [zeros 1 1 2; zeros 1 1 3] (rng st1))
              E eq_refl eq_refl eq_refl eq_refl ltac:(lia)) as (st' & Efw).
  exists m, st1, st'. split; assumption.
Defined.

(** X17: a residual wrapper around a multi-head attention needs exactly
    three tensors: on an empty tuple it raises an [IndexError] (there is
    no last argument), on any other number a [TypeError], and in both
    cases nothing has been drawn from the generator. *)
Theorem X17_residual_attention_arity (r : Residual.t MultiHeadAttention.t)
    (tensors : list Tensor) (st : State) :
  length tensors <> 3%nat ->
  Residual.forward r tensors st
  = (Raise (if decide (tensors = []) then IndexError else TypeError), st).
Proof.
  intros Hlen. unfold Residual.forward, last_arg.
  destruct tensors as [| a [| b [| c [| d rest]]]]; try reflexivity.
  - simpl in Hlen. congruence.
  - destruct (last (a :: b :: c :: d :: rest)) as [base |] eqn:El.
    + reflexivity.
    + apply last_None in El. discriminate.
Qed.

Lemma X17_residual_attention_arity_witness :
  Residual.forward
    (Residual.mk
       (MultiHeadAttention.mk [] (Linear.mk 0 2 (fun _ _ => 0) (fun _ => 0)))
       (LayerNorm.mk 2 (fun _ => 1) (fun _ => 0) 1e-5) (Dropout.mk 0.1 false))
    [zeros 1 1 2; zeros 1 1 2] st_empty
  = (Raise TypeError, st_empty).
Proof.
  exact (X17_residual_attention_arity
           (Residual.mk
              (MultiHeadAttention.mk [] (Linear.mk 0 2 (fun _ _ => 0) (fun _ => 0)))
              (LayerNorm.mk 2 (fun _ => 1) (fun _ => 0) 1e-5) (Dropout.mk 0.1 false))
           [zeros 1 1 2; zeros 1 1 2] st_empty ltac:(simpl; lia)).
Defined.

(** * Properties of the PromptGuard scoring *)

Lemma range_step_count (n step : nat) :
  step <> O -> n <> O ->
  ((n + step - 1) / step = S ((n - step + step - 1) / step))%nat.
Proof.
  intros Hs Hn. destruct (le_lt_dec n step) as [Hle | Hgt].
  - replace (n - step)%nat with O by lia. simpl.
    rewrite (Nat.div_small (step - 1) step) by lia.
    symmetry. apply (Nat.div_unique _ _ 1%nat (n - 1)%nat); lia.
  - replace (n + step - 1)%nat with ((n - step + step - 1) + 1 * step)%nat by lia.
    rewrite Nat.div_add by exact Hs. lia.
Qed.

Lemma range_step_0 (step : nat) : range_step 0 step = [].
Proof.
  unfold range_step.
  replace ((0 + step - 1) / step)%nat with O; [reflexivity |].
  destruct step as [| s]; [reflexivity |]. symmetry. apply Nat.div_small. lia.
Qed.

Lemma range_step_unfold (n step : nat) :
  step <> O -> n <> O ->
  range_step n step = O :: map (fun i => (i + step)%nat) (range_step (n - step) step).
Proof.
  intros Hs Hn. unfold range_step. rewrite (range_step_count n step Hs Hn).
  rewrite <- cons_seq, <- fmap_S_seq. simpl. f_equal.
  rewrite <- !list_fmap_compose. apply list_fmap_ext. intros _ k _. simpl. lia.
Qed.

Lemma slices_nil {B} (step : nat) : slices step ([] : list B) = [].
Proof. unfold slices. simpl. rewrite range_step_0. reflexivity. Qed.

Lemma slices_unfold {B} (step : nat) (l : list B) :
  step <> O -> l <> [] ->
  slices step l = take step l :: slices step (drop step l).
Proof.
  intros Hs Hl. unfold slices.
  rewrite (range_step_unfold (length l) step Hs)
    by (destruct l; [contradiction | simpl; lia]).
  simpl. unfold slice at 1. rewrite drop_0. f_equal.
  rewrite length_drop, <- list_fmap_compose. apply list_fmap_ext.
  intros _ i _. simpl. unfold slice. rewrite drop_drop. f_equal. f_equal. lia.
Qed.

(** Induction on a list by steps of [step] elements. *)
Lemma slices_ind {B} (step : nat) (P : list B -> Prop) :
  step <> O ->
  P [] ->
  (forall l, l <> [] -> P (drop step l) -> P l) ->
  forall l, P l.
Proof.
  intros Hs Hnil Hstep l.
  remember (length l) as n eqn:Hn. revert l Hn.
  induction n as [n IH] using lt_wf_ind. intros l Hn.
  destruct l as [| a l']; [exact Hnil |].
  apply Hstep; [discriminate |].
  apply (IH (length (drop step (a :: l')))); [| reflexivity].
  rewrite length_drop. subst n. simpl. lia.
Qed.

Lemma concat_slices {B} (step : nat) (l : list B) :
  step <> O -> concat (slices step l) = l.
Proof.
  intros Hs. revert l. apply (slices_ind step _ Hs).
  - rewrite slices_nil. reflexivity.
  - intros l Hl IH. rewrite (slices_unfold step l Hs Hl). simpl. rewrite IH.
    apply take_drop.
Qed.

Lemma Forall_slices {B} (step : nat) (l : list B) :
  step <> O ->
  Forall (fun c => c <> [] /\ (length c <= step)%nat) (slices step l).
Proof.
  intros Hs. revert l. apply (slices_ind step _ Hs).
  - rewrite slices_nil. constructor.
  - intros l Hl IH. rewrite (slices_unfold step l Hs Hl). constructor; [| exact IH].
    split.
    + destruct l as [| a l']; [contradiction |].
      destruct step as [| s]; [contradiction | discriminate].
    + rewrite length_take. lia.
Qed.

(** X18: the chunks a text is cut into are not empty, hold at most 512
    characters each, and put back together give the text; a text that is
    empty has no chunk. *)
Theorem X18_chunks_partition_the_text {B} (text : list B) :
  concat (slices 512 text) = text /\
  Forall (fun c => c <> [] /\ (length c <= 512)%nat) (slices 512 text) /\
  (text = [] -> slices 512 text = []).
Proof.
  split; [apply concat_slices; lia |].
  split; [apply Forall_slices; lia |].
  intros ->. apply slices_nil.
Qed.

Lemma collect_chunks_spec {A} (texts : list (list A)) (index : nat)
    (all_chunks : list (list A)) (text_indices : list nat) :
  collect_chunks index texts all_chunks text_indices
  = (all_chunks ++ concat (map (slices 512) texts),
     text_indices ++ chunk_indices index texts).
Proof.
  revert index all_chunks text_indices.
  induction texts as [| text rest IH]; intros index ac ti; simpl.
  - rewrite !app_nil_r. reflexivity.
  - rewrite IH, <- !app_assoc. reflexivity.
Qed.

Lemma length_chunk_indices {A} (texts : list (list A)) (index : nat) :
  length (chunk_indices index texts) = length (concat (map (slices 512) texts)).
Proof.
  revert index. induction texts as [| text rest IH]; intros index; simpl; [reflexivity |].
  rewrite !length_app, length_replicate, IH. reflexivity.
Qed.

Lemma mapR_ok {B C} (f : B -> result C) (g : B -> C) (l : list B) :
  (forall b, f b = Ok (g b)) -> mapR f l = Ok (map g l).
Proof.
  intros Hf. induction l as [| b l IH]; simpl; [reflexivity |].
  rewrite Hf, IH. reflexivity.
Qed.

Lemma mapR_map {B C D} (f : C -> result D) (h : B -> C) (l : list B) :
  mapR f (map h l) = mapR (fun b => f (h b)) l.
Proof.
  induction l as [| b l IH]; simpl; [reflexivity |]. rewrite IH. reflexivity.
Qed.

Lemma update_scores_app (p1 p2 : list (nat * R)) (s : list R) :
  update_scores (p1 ++ p2) s = let? s' := update_scores p1 s in update_scores p2 s'.
Proof.
  revert s. induction p1 as [| [idx score] p1 IH]; intros s; simpl; [reflexivity |].
  destruct (s !! idx); [apply IH | reflexivity].
Qed.

Lemma update_scores_one_text (xs : list R) (k : nat) (s : list R) (a : R) :
  s !! k = Some a ->
  update_scores (zip (replicate (length xs) k) xs) s = Ok (<[k := foldl Rmax a xs]> s).
Proof.
  revert s a. induction xs as [| x xs IH]; intros s a Hk; simpl.
  - rewrite list_insert_id by exact Hk. reflexivity.
  - rewrite Hk. rewrite (IH _ (Rmax a x)).
    + rewrite list_insert_insert_eq. reflexivity.
    + apply list_lookup_insert_eq. apply lookup_lt_Some in Hk. exact Hk.
Qed.

Lemma update_scores_texts {A} (score : list A -> R) (texts : list (list A))
    (pre : list R) :
  update_scores
    (zip (chunk_indices (length pre) texts)
         (map score (concat (map (slices 512) texts))))
    (pre ++ replicate (length texts) 0)
  = Ok (pre ++ map (text_score score) texts).
Proof.
  revert pre. induction texts as [| text rest IH]; intros pre; [reflexivity |].
  cbn [chunk_indices map concat length replicate].
  rewrite fmap_app.
  rewrite zip_with_app by (rewrite length_replicate, length_fmap; reflexivity).
  rewrite update_scores_app.
  rewrite <- (length_fmap score (slices 512 text)).
  rewrite (update_scores_one_text _ _ _ 0)
    by (apply list_lookup_middle; reflexivity).
  simpl rbind.
  rewrite insert_app_r_alt by lia. rewrite Nat.sub_diag. simpl.
  change (pre ++ foldl Rmax 0 (score <$> slices 512 text) :: replicate (length rest) 0)
    with (pre ++ [text_score score text] ++ replicate (length rest) 0).
  rewrite app_assoc.
  replace (S (length pre)) with (length (pre ++ [text_score score text]))
    by (rewrite length_app; simpl; lia).
  rewrite IH, <- app_assoc. reflexivity.
Qed.

Lemma foldl_Rmax_spec (xs : list R) (a : R) :
  a <= foldl Rmax a xs /\
  Forall (fun x => x <= foldl Rmax a xs) xs /\
  (foldl Rmax a xs = a \/ foldl Rmax a xs ∈ xs).
Proof.
  revert a. induction xs as [| x xs IH]; intros a; simpl.
  - split; [lra |]. split; [constructor | left; reflexivity].
  - destruct (IH (Rmax a x)) as (Hge & Hall & Hin).
    pose proof (Rmax_l a x) as Hl. pose proof (Rmax_r a x) as Hr.
    split; [lra |]. split; [constructor; [lra | exact Hall] |].
    destruct Hin as [Heq | Hin].
    + rewrite Heq. unfold Rmax. destruct (Rle_dec a x);
        [right; left | left; reflexivity].
    + right. right. exact Hin.
Qed.

Lemma foldl_Rmax_mono (xs ys : list R) (a : R) :
  Forall2 Rle xs ys -> foldl Rmax a xs <= foldl Rmax a ys.
Proof.
  intros H. revert a.
  assert (Hgen : forall a b, a <= b -> foldl Rmax a xs <= foldl Rmax b ys).
  { induction H as [| x y xs ys Hxy _ IH]; intros a b Hab; simpl; [exact Hab |].
    apply IH. apply Rmax_lub.
    - pose proof (Rmax_l b y). lra.
    - pose proof (Rmax_r b y). lra. }
  intros a. apply Hgen. lra.
Qed.


Section PromptGuardProperties.
Context {A : Type}.
Variable process_text_batch : list (list A) -> R -> list (list R).

Lemma score_batches_spec (classify : list A -> list R) (score : list A -> R)
    (score_indices : list nat) (temperature : R) (max_batch_size : nat)
    (all_chunks : list (list A)) (text_indices : list nat) (starts : list nat)
    (all_scores : list R) :
  (forall cs, process_text_batch cs temperature = map classify cs) ->
  (forall c, select_sum score_indices (classify c) = Ok (score c)) ->
  score_batches process_text_batch starts all_chunks text_indices score_indices
    temperature max_batch_size all_scores
  = update_scores
      (concat (map (fun i => slice (zip text_indices (map score all_chunks)) i max_batch_size)
                 starts))
      all_scores.
Proof.
  intros Hcls Hsel. revert all_scores.
  induction starts as [| i rest IH]; intros s; [reflexivity |].
  cbn [score_batches map concat].
  rewrite Hcls, mapR_map, (mapR_ok _ score) by exact Hsel. simpl rbind.
  rewrite update_scores_app.
  assert (Hz : zip (slice text_indices i max_batch_size)
                 (map score (slice all_chunks i max_batch_size))
               = slice (zip text_indices (map score all_chunks)) i max_batch_size).
  { unfold slice. rewrite fmap_take, fmap_drop.
    rewrite <- zip_with_take, <- zip_with_drop. reflexivity. }
  rewrite Hz. destruct (update_scores _ s) as [s' | e]; [apply IH | reflexivity].
Qed.

Lemma get_scores_for_texts_ok (classify : list A -> list R) (score : list A -> R)
    (texts : list (list A)) (score_indices : list nat) (temperature : R)
    (max_batch_size : Z) :
  (forall cs, process_text_batch cs temperature = map classify cs) ->
  (forall c, select_sum score_indices (classify c) = Ok (score c)) ->
  (0 < max_batch_size)%Z ->
  get_scores_for_texts process_text_batch texts score_indices temperature max_batch_size
  = Ok (map (text_score score) texts).
Proof.
  intros Hcls Hsel Hn. unfold get_scores_for_texts.
  rewrite collect_chunks_spec. simpl app.
  destruct max_batch_size as [| step | step]; try lia.
  pose proof (Pos2Nat.is_pos step) as Hpos.
  set (n := Pos.to_nat step) in *.
  rewrite (score_batches_spec classify score) by assumption.
  set (p := zip (chunk_indices 0 texts) (map score (concat (map (slices 512) texts)))).
  assert (Hlen : length p = length (concat (map (slices 512) texts))).
  { unfold p. rewrite length_zip, length_chunk_indices, length_fmap. lia. }
  rewrite <- Hlen.
  change (map (fun i => slice p i n) (range_step (length p) n))
    with (slices n p).
  rewrite concat_slices by lia.
  exact (update_scores_texts score texts []).
Qed.

Lemma get_scores_for_texts_negative (texts : list (list A)) (score_indices : list nat)
    (temperature : R) (max_batch_size : Z) :
  (max_batch_size < 0)%Z ->
  get_scores_for_texts process_text_batch texts score_indices temperature max_batch_size
  = Ok (replicate (length texts) 0).
Proof.
  intros Hn. unfold get_scores_for_texts. rewrite collect_chunks_spec.
  destruct max_batch_size as [| step | step]; try lia. reflexivity.
Qed.

(** X19: when the classifier scores each chunk by itself (a batch's rows
    are the rows of its chunks) and the score columns exist, the scores
    of a list of texts are, for every positive batch size, text by text
    the running maximum from 0 of the text's chunk scores: one score per
    text, in order, whatever the batch size.  A batch size of 0 raises a
    [ValueError]; a negative one runs no batch and gives every text the
    score 0. *)
Theorem X19_get_scores_for_texts (classify : list A -> list R) (score : list A -> R)
    (texts : list (list A)) (score_indices : list nat) (temperature : R)
    (max_batch_size : Z) :
  (forall cs, process_text_batch cs temperature = map classify cs) ->
  (forall c, select_sum score_indices (classify c) = Ok (score c)) ->
  ((0 < max_batch_size)%Z ->
   get_scores_for_texts process_text_batch texts score_indices temperature max_batch_size
   = Ok (map (text_score score) texts)) /\
  (max_batch_size = 0%Z ->
   get_scores_for_texts process_text_batch texts score_indices temperature max_batch_size
   = Raise ValueError) /\
  ((max_batch_size < 0)%Z ->
   get_scores_for_texts process_text_batch texts score_indices temperature max_batch_size
   = Ok (replicate (length texts) 0)).
Proof.
  intros Hcls Hsel. split; [| split].
  - intros Hn. exact (get_scores_for_texts_ok classify score texts score_indices
                        temperature max_batch_size Hcls Hsel Hn).
  - intros ->. unfold get_scores_for_texts. rewrite collect_chunks_spec. reflexivity.
  - apply get_scores_for_texts_negative.
Qed.

(** X20: under the same conditions and for a positive batch size, the
    score of a text is the largest of its chunks' scores, or 0 when none
    is larger: it is at least 0 and at least every chunk's score, and it
    is 0 or the score of one of the chunks.  A text with no character
    scores 0. *)
Theorem X20_text_score_is_the_maximum (classify : list A -> list R)
    (score : list A -> R) (texts : list (list A)) (score_indices : list nat)
    (temperature : R) (max_batch_size : Z) :
  (forall cs, process_text_batch cs temperature = map classify cs) ->
  (forall c, select_sum score_indices (classify c) = Ok (score c)) ->
  (0 < max_batch_size)%Z ->
  exists scores,
    get_scores_for_texts process_text_batch texts score_indices temperature max_batch_size
    = Ok scores /\
    length scores = length texts /\
    forall k text, texts !! k = Some text ->
      exists v, scores !! k = Some v /\
        0 <= v /\
        (forall c, c ∈ slices 512 text -> score c <= v) /\
        (v = 0 \/ exists c, c ∈ slices 512 text /\ v = score c) /\
        (text = [] -> v = 0).
Proof.
  intros Hcls Hsel Hn.
  pose proof (get_scores_for_texts_ok classify score texts score_indices temperature
                max_batch_size Hcls Hsel Hn) as Hget.
  exists (map (text_score score) texts). split; [exact Hget |].
  split; [apply length_fmap |].
  intros k text Hk. exists (text_score score text).
  split. { change (map (text_score score) texts) with (text_score score <$> texts).
           rewrite list_lookup_fmap, Hk. reflexivity. }
  unfold text_score.
  destruct (foldl_Rmax_spec (map score (slices 512 text)) 0) as (Hge & Hall & Hin).
  split; [exact Hge |]. split; [| split].
  - intros c Hc. rewrite Forall_forall in Hall. apply Hall.
    change (map score (slices 512 text)) with (score <$> slices 512 text).
    apply list_elem_of_fmap. exists c. split; [reflexivity | exact Hc].
  - destruct Hin as [Heq | Hin]; [left; exact Heq | right].
    change (map score (slices 512 text)) with (score <$> slices 512 text) in Hin.
    apply list_elem_of_fmap in Hin as (c & Hv & Hc). exists c. split; assumption.
  - intros ->. rewrite slices_nil. reflexivity.
Qed.

(** X21: when every row of class probabilities has at least three
    entries and the second one is not negative, the indirect-injection
    score of every text is at least its jailbreak score, for every batch
    size that is not 0. *)
Theorem X21_indirect_injection_at_least_jailbreak (classify : list A -> list R)
    (texts : list (list A)) (temperature : R) (max_batch_size : Z) :
  (forall cs, process_text_batch cs temperature = map classify cs) ->
  (forall c, exists p0 p1 p2 rest, classify c = p0 :: p1 :: p2 :: rest /\ 0 <= p1) ->
  max_batch_size <> 0%Z ->
  exists jailbreak indirect,
    get_jailbreak_scores_for_texts process_text_batch texts temperature max_batch_size
    = Ok jailbreak /\
    get_indirect_injection_scores_for_texts process_text_batch texts temperature
      max_batch_size = Ok indirect /\
    Forall2 Rle jailbreak indirect.
Proof.
  intros Hcls Hrow Hn.
  destruct (Z.lt_ge_cases max_batch_size 0) as [Hneg | Hge].
  { exists (replicate (length texts) 0), (replicate (length texts) 0).
    split; [exact (get_scores_for_texts_negative texts _ _ _ Hneg) |].
    split; [exact (get_scores_for_texts_negative texts _ _ _ Hneg) |].
    induction (length texts) as [| n IH]; simpl; constructor; [lra | exact IH]. }
  assert (Hpos : (0 < max_batch_size)%Z) by lia.
  set (sj := fun c => nth 2 (classify c) 0 + 0).
  set (si := fun c => nth 1 (classify c) 0 + (nth 2 (classify c) 0 + 0)).
  assert (Hsj : forall c, select_sum [2%nat] (classify c) = Ok (sj c)).
  { intros c. destruct (Hrow c) as (p0 & p1 & p2 & rest & E & _).
    unfold sj. rewrite E. reflexivity. }
  assert (Hsi : forall c, select_sum [1%nat; 2%nat] (classify c) = Ok (si c)).
  { intros c. destruct (Hrow c) as (p0 & p1 & p2 & rest & E & _).
    unfold si. rewrite E. reflexivity. }
  exists (map (text_score sj) texts), (map (text_score si) texts).
  split; [exact (get_scores_for_texts_ok classify sj texts _ _ _ Hcls Hsj Hpos) |].
  split; [exact (get_scores_for_texts_ok classify si texts _ _ _ Hcls Hsi Hpos) |].
  clear Hcls. induction texts as [| text rest IH]; simpl; constructor.
  - unfold text_score. apply foldl_Rmax_mono.
    induction (slices 512 text) as [| c cs IHc]; simpl; constructor; [| exact IHc].
    unfold sj, si. destruct (Hrow c) as (p0 & p1 & p2 & tl & E & Hp1).
    rewrite E. simpl. lra.
  - apply IH.
Qed.

End PromptGuardProperties.

Lemma X19_get_scores_for_texts_witness :
  let ptb := fun (cs : list (list nat)) (_ : R) =>
               map (fun c => [0; 0; INR (length c)]) cs in
  get_scores_for_texts ptb [[1%nat; 2%nat]; []; [3%nat]] [2%nat] 1 16
  = Ok (map (text_score (fun c => INR (length c) + 0)) [[1%nat; 2%nat]; []; [3%nat]]).
Proof.
  intros ptb.
  apply (proj1 (X19_get_scores_for_texts ptb (fun c => [0; 0; INR (length c)])
                  (fun c => INR (length c) + 0) [[1%nat; 2%nat]; []; [3%nat]]
                  [2%nat] 1 16 (fun cs => eq_refl) (fun c => eq_refl))).
  reflexivity.
Defined.

Lemma X20_text_score_is_the_maximum_witness :
  let ptb := fun (cs : list (list nat)) (_ : R) =>
               map (fun c => [0; 0; INR (length c)]) cs in
  exists scores,
    get_scores_for_texts ptb [[1%nat; 2%nat]; []] [2%nat] 1 16 = Ok scores /\
    length scores = 2%nat.
Proof.
  intros ptb.
  destruct (X20_text_score_is_the_maximum ptb (fun c => [0; 0; INR (length c)])
              (fun c => INR (length c) + 0) [[1%nat; 2%nat]; []]
              [2%nat] 1 16 (fun cs => eq_refl) (fun c => eq_refl) eq_refl)
    as (scores & E & Hlen & _).
  exists scores. split; assumption.
Defined.

Lemma X21_indirect_injection_at_least_jailbreak_witness :
  let ptb := fun (cs : list (list nat)) (_ : R) =>
               map (fun c => [0; 1; INR (length c)]) cs in
  exists jailbreak indirect,
    get_jailbreak_scores_for_texts ptb [[1%nat; 2%nat]; []] 1 16 = Ok jailbreak /\
    get_indirect_injection_scores_for_texts ptb [[1%nat; 2%nat]; []] 1 16 = Ok indirect /\
    Forall2 Rle jailbreak indirect.
Proof.
  intros ptb.
  apply (X21_indirect_injection_at_least_jailbreak ptb (fun c => [0; 1; INR (length c)])
           [[1%nat; 2%nat]; []] 1 16 (fun cs => eq_refl)).
  - intros c. exists 0, 1, (INR (length c)), []. split; [reflexivity | lra].
  - discriminate.
Defined.

(** * Properties of the chat templates *)

Lemma string_prefix_app (s a b : string) :
  String.prefix (s +:+ a) (s +:+ b) = String.prefix a b.
Proof.
  induction s as [|c s IH]; [reflexivity|].
  change (String.prefix (String c (s +:+ a)) (String c (s +:+ b)) =
          String.prefix a b).
  simpl. destruct (Ascii.ascii_dec c c); [exact IH | congruence].
Qed.

Lemma string_prefix_app_r (s a : string) : String.prefix s (s +:+ a) = true.
Proof.
  induction s as [|c s IH]; [destruct a; reflexivity|].
  change (String.prefix (String c s) (String c (s +:+ a)) = true).
  simpl. destruct (Ascii.ascii_dec c c); [exact IH | congruence].
Qed.

Lemma string_app_assoc (a b c : string) : (a +:+ b) +:+ c = a +:+ (b +:+ c).
Proof.
  induction a as [|x a IH]; [reflexivity | exact (f_equal (String x) IH)].
Qed.

(** X22: the prompt [formatted_prompt] builds for a question is never
    the beginning of the text [formatted_train] builds for the same
    question, whatever the response is: the two agree up to the word
    assistant, after which the prompt has a colon where the training
    text has a line feed. *)
Theorem X22_prompt_is_not_a_training_prefix (question response : string) :
  exists common,
    formatted_prompt question = common +:+ ":" /\
    formatted_train question response =
      common +:+ nl +:+ response +:+ "<|im_end|>" +:+ nl /\
    String.prefix common (formatted_train question response) = true /\
    String.prefix (formatted_prompt question)
                  (formatted_train question response) = false.
Proof.
  exists ("<|im_start|>user" +:+ nl +:+ question +:+ "<|im_end|>" +:+ nl +:+
          "<|im_start|>assistant").
  assert (Ep : formatted_prompt question =
    ("<|im_start|>user" +:+ nl +:+ question +:+ "<|im_end|>" +:+ nl +:+
          "<|im_start|>assistant") +:+ ":").
  { unfold formatted_prompt. rewrite !string_app_assoc. reflexivity. }
  assert (Et : formatted_train question response =
    ("<|im_start|>user" +:+ nl +:+ question +:+ "<|im_end|>" +:+ nl +:+
          "<|im_start|>assistant") +:+ nl +:+ response +:+ "<|im_end|>" +:+ nl).
  { unfold formatted_train. rewrite !string_app_assoc. reflexivity. }
  split; [exact Ep|]. split; [exact Et|]. split.
  - rewrite Et. apply string_prefix_app_r.
  - rewrite Ep, Et. rewrite string_prefix_app. reflexivity.
Qed.
